(** * meetingintern: the ingestion pipeline, its text-generation client and
    its chunker, embedded from the Python sources

    Source files: [gemini_api.py] (chunker, rate limiter, retrying client,
    classification and summarisation), [drive_api.py] (discovery, processed
    flag, copy, by-title marking), [chat_api.py] (notification sink) and
    [main.py] (the per-identity pipeline and the batch runner).

    Conventions of the embedding.
    - A Python [str] is a [string]; every character stands for one code
      point (code points below 256), so [len] is [String.length].
    - Python integers are [Z]; clock readings ([time.time()]) and sleep
      durations are rationals [Q].  The rate limiter, whose branches depend
      on the rounding of a difference of two readings, is also given in
      double precision (module [Doubles]): readings and differences are
      rounded to the nearest double by [binary64].
    - Remote services are not part of the repository: the text-generation
      backend, the chat webhook and transient faults of the document store
      are oracles over the history of events; the document store itself is
      an explicit state. *)

From Stdlib Require Import ZArith QArith Qround Qabs Qpower Lqa String Ascii List Bool Lia.
From stdpp Require Import base tactics option list gmap strings.

Local Open Scope string_scope.
Local Open Scope list_scope.
Local Open Scope Z_scope.

(** ** Python string primitives *)

Module Py.

Definition newline : ascii := "010"%char.
Definition nl : string := String newline EmptyString.

(** [len(s)] *)
Definition len (s : string) : Z := Z.of_nat (String.length s).

(** [s.split(sep)] for a one-character separator: never returns the empty
    list; [''.split(c) == ['']]. *)
Fixpoint split (sep : ascii) (s : string) : list string :=
  match s with
  | EmptyString => [EmptyString]
  | String c s' =>
      if Ascii.eqb c sep then EmptyString :: split sep s'
      else match split sep s' with
           | l :: ls => String c l :: ls
           | [] => [String c EmptyString]
           end
  end.

(** [sep.join(xs)] *)
Fixpoint join (sep : string) (xs : list string) : string :=
  match xs with
  | [] => EmptyString
  | x :: xs' =>
      match xs' with
      | [] => x
      | _ :: _ => x +:+ sep +:+ join sep xs'
      end
  end.

(** [c in s] for a character *)
Fixpoint contains (c : ascii) (s : string) : bool :=
  match s with
  | EmptyString => false
  | String d s' => Ascii.eqb d c || contains c s'
  end.

(** truthiness of a [str]: non-empty *)
Definition truthy (s : string) : bool :=
  match s with EmptyString => false | String _ _ => true end.

(** [c.isspace()] on the modelled code points: tab, LF, VT, FF, CR,
    FS, GS, RS, US, space, NEL and the no-break space. *)
Definition is_space (c : ascii) : bool :=
  let n := N_of_ascii c in
  ((9 <=? n) && (n <=? 13) || (28 <=? n) && (n <=? 32)
   || (n =? 133) || (n =? 160))%N.

Fixpoint lstrip (s : string) : string :=
  match s with
  | EmptyString => EmptyString
  | String c s' => if is_space c then lstrip s' else s
  end.

Fixpoint rstrip (s : string) : string :=
  match s with
  | EmptyString => EmptyString
  | String c s' =>
      match rstrip s' with
      | EmptyString => if is_space c then EmptyString else String c EmptyString
      | t => String c t
      end
  end.

(** [s.strip()] *)
Definition strip (s : string) : string := rstrip (lstrip s).

(** [s.startswith(p)] *)
Fixpoint startswith (p s : string) : bool :=
  match p, s with
  | EmptyString, _ => true
  | String a p', String b s' => Ascii.eqb a b && startswith p' s'
  | String _ _, EmptyString => false
  end.

(** [s.split(sep)] for a non-empty separator string: leftmost
    non-overlapping occurrences; [skip] counts the characters of a matched
    separator still to be passed over. *)
Fixpoint split_str_go (sep : string) (skip : nat) (s : string) : list string :=
  match s with
  | EmptyString => [EmptyString]
  | String c s' =>
      match skip with
      | S k => split_str_go sep k s'
      | O =>
          if startswith sep s
          then EmptyString :: split_str_go sep (String.length sep - 1) s'
          else match split_str_go sep 0 s' with
               | l :: ls => String c l :: ls
               | [] => [String c EmptyString]
               end
      end
  end.

Definition split_str (sep s : string) : list string := split_str_go sep 0 s.

(** [s.replace(c, r)] for a one-character pattern *)
Fixpoint replace_char (c : ascii) (r : string) (s : string) : string :=
  match s with
  | EmptyString => EmptyString
  | String d s' =>
      if Ascii.eqb d c then r +:+ replace_char c r s'
      else String d (replace_char c r s')
  end.

(** [str(n)] for a non-negative integer *)
Definition str_of_nat (n : nat) : string := pretty.pretty n.

End Py.

(** ** The chunker: [GeminiAPI._chunk_content] *)

Module Chunker.

(** Loop state of [_chunk_content]: [chunks], [current_chunk],
    [current_size]. *)
Record loop_state := LoopState {
  chunks : list string;
  current_chunk : list string;
  current_size : Z
}.

(** Python truthiness of a list *)
Definition nonempty {A} (l : list A) : bool :=
  match l with [] => false | _ :: _ => true end.

(** One iteration of [for line in content.split('\n')]. *)
Definition step (MAX_CHUNK_SIZE : Z) (st : loop_state) (line : string) : loop_state :=
  let line_size := Py.len line + 1 in
  if MAX_CHUNK_SIZE <? current_size st + line_size then
    LoopState
      (if nonempty (current_chunk st)
       then chunks st ++ [Py.join Py.nl (current_chunk st)]
       else chunks st)
      [line]
      line_size
  else
    LoopState (chunks st) (current_chunk st ++ [line]) (current_size st + line_size).

(** The code after the loop: flush the open chunk. *)
Definition flush (st : loop_state) : list string :=
  if nonempty (current_chunk st)
  then chunks st ++ [Py.join Py.nl (current_chunk st)]
  else chunks st.

Definition _chunk_content (MAX_CHUNK_SIZE : Z) (content : string) : list string :=
  if Py.len content <=? MAX_CHUNK_SIZE then [content]
  else flush (fold_left (step MAX_CHUNK_SIZE) (Py.split Py.newline content)
                        (LoopState [] [] 0)).

End Chunker.

(** ** The world the program runs in *)

(** Python exceptions the program can meet.  Every handler in the sources
    is [except Exception], so only the distinction [RetryError] (raised by
    the retry decorator) versus the rest is ever observable. *)
Inductive exn :=
| ConnectionError            (* [session.post] / [requests.post] raised *)
| HTTPError (status : Z)     (* [raise_for_status()] or a googleapiclient error *)
| RateLimitExceeded          (* [Exception("Rate limit exceeded")] *)
| EmptyResponse              (* [Exception("Empty response from Gemini API")] *)
| MalformedResponse          (* [json()] failed or a key/index was missing *)
| IndexError
| RetryError.                (* tenacity: attempts exhausted *)

(** What the text-generation backend can answer to one POST. *)
Inductive gemini_body :=
| NotJson                    (* [response.json()] raises *)
| NoCandidates               (* [result.get("candidates")] is falsy *)
| BadCandidate               (* ["candidates"][0]["content"]["parts"][0]["text"] is missing *)
| Candidate (text : string).

Inductive gemini_reply :=
| PostRaised
| Response (status_code : Z) (body : gemini_body).

(** What the chat webhook can answer. *)
Inductive chat_reply :=
| ChatRaised
| ChatStatus (status_code : Z).

(** Payload shapes of [ChatAPI._format_message]. *)
Inductive chat_payload :=
| TextPayload (message : string)       (* [{'text': message}] *)
| ContentPayload (message : string).   (* [{'content': message}] *)

(** Drive search queries, by the three shapes the sources build.  The
    argument is the text the source puts between the single quotes. *)
Inductive drive_query :=
| QFoldersNamed (literal : string)
    (* name = '..' and mimeType = folder and trashed = false *)
| QDocsInParent (literal : string)
    (* '..' in parents and mimeType = document and trashed = false *)
| QDocsNamed (literal : string).
    (* name = '..' and mimeType = document and trashed = false *)

(** One [.execute()] of a googleapiclient request. *)
Inductive drive_request :=
| FilesList (q : drive_query) (pageToken : option nat)
| FilesGet (fileId : string) (fields : string)
| FilesExport (fileId : string)
| FilesCopy (fileId : string) (name : string) (parent : string)
| FilesUpdateProperties (fileId : string) (key value : string)
| DocsGet (documentId : string)
| DocsInsertText (documentId : string) (index : Z) (text : string).

(** Observable events, oldest first in a trace.  [Generated] is not an
    effect: it records that one invocation of the decorated
    [_generate_with_retry] finished, with its argument and result
    ([None] when it raised), as a test double would. *)
Inductive event :=
| Sleep (seconds : Q)
| GeminiPost (prompt : string) (reply : gemini_reply)
| Generated (prompt : string) (result : option string)
| Drive (request : drive_request) (ok : bool)
| ChatPost (webhook_url : string) (payload : chat_payload) (reply : chat_reply).

(** One structural element of a Google Docs body, as far as the pipeline
    reads it. *)
Record structural_element := StructuralElement {
  endIndex : option Z;
  sectionBreak : bool
}.

(** A file of the document store. *)
Record drive_file := DriveFile {
  file_id : string;
  file_name : string;
  mimeType : string;
  createdDate : Z;                      (* day number of [createdTime], UTC *)
  trashed : bool;
  parents : list string;
  properties : gmap string string;
  exported_text : string;               (* what [files().export] returns *)
  body_content : list structural_element (* [document['body']['content']] *)
}.

(** The parts of the surroundings that are not in the repository. *)
Record environment := Environment {
  (* the text-generation backend, given the history and the prompt *)
  gemini_backend : list event -> string -> gemini_reply;
  (* the chat webhook *)
  chat_backend : list event -> string -> chat_payload -> chat_reply;
  (* does this store request raise? *)
  drive_fault : list event -> drive_request -> bool;
  (* the file the store makes for a copy of a file: its id, creation day
     and inherited attributes; name and parents come from the request *)
  copied_file : list event -> drive_file -> drive_file;
  (* effect of an [insertText] request on a document *)
  docs_insert : drive_file -> Z -> string -> string * list structural_element;
  (* [datetime.now().date()] as a day number, and [strftime("%Y-%m-%d")] *)
  local_date : Q -> Z;
  strftime_date : Q -> string;
  (* string literals of the sources that hold characters outside the
     modelled range (emoji, bullets, double quotes) *)
  chat_summary_instruction : string;
  validation_summary_instruction : string;
  memo_emoji : string
}.

(** Fields of a [GeminiAPI] object that change or are read at run time. *)
Record gemini_state := GeminiState {
  requests_in_minute : Z;
  last_request_time : Q;
  MAX_CHUNK_SIZE : Z
}.

Record world := World {
  clock : Q;                       (* what [time.time()] returns *)
  trace : list event;
  gemini : gemini_state;
  drive_files : list drive_file;   (* in listing order *)
  processed_titles : gset string   (* the set object shared by one run *)
}.

(** ** Computations: state and exceptions *)

Inductive outcome (A : Type) :=
| Ok (a : A)
| Raise (e : exn).
Arguments Ok {A} a.
Arguments Raise {A} e.

Definition M (A : Type) : Type := world -> outcome A * world.

Definition ret {A} (a : A) : M A := fun w => (Ok a, w).

Definition bind {A B} (m : M A) (k : A -> M B) : M B :=
  fun w => match m w with
           | (Ok a, w') => k a w'
           | (Raise e, w') => (Raise e, w')
           end.

Definition raise {A} (e : exn) : M A := fun w => (Raise e, w).

(** [try: m  except Exception as e: h e] *)
Definition try_except {A} (m : M A) (h : exn -> M A) : M A :=
  fun w => match m w with
           | (Ok a, w') => (Ok a, w')
           | (Raise e, w') => h e w'
           end.

Declare Scope prog_scope.
Delimit Scope prog_scope with prog.
Notation "x <- m ;; k" := (bind m (fun x => k))
  (at level 100, m at next level, right associativity) : prog_scope.
Notation "m ;; k" := (bind m (fun _ => k))
  (at level 100, right associativity) : prog_scope.
Local Open Scope prog_scope.

Definition get_world : M world := fun w => (Ok w, w).

Definition log_event (e : event) : M unit :=
  fun w => (Ok tt, World (clock w) (trace w ++ [e]) (gemini w)
                         (drive_files w) (processed_titles w)).

Definition set_gemini (g : gemini_state) : M unit :=
  fun w => (Ok tt, World (clock w) (trace w) g (drive_files w) (processed_titles w)).

Definition set_drive_files (fs : list drive_file) : M unit :=
  fun w => (Ok tt, World (clock w) (trace w) (gemini w) fs (processed_titles w)).

Definition set_processed_titles (s : gset string) : M unit :=
  fun w => (Ok tt, World (clock w) (trace w) (gemini w) (drive_files w) s).

(** [time.time()] *)
Definition time_time : M Q := fun w => (Ok (clock w), w).

(** [time.sleep(d)]: the clock advances by [d]. *)
Definition time_sleep (d : Q) : M unit :=
  fun w => (Ok tt, World (clock w + d)%Q (trace w ++ [Sleep d]) (gemini w)
                         (drive_files w) (processed_titles w)).

(** [for x in xs: body x], stopping at the first exception. *)
Fixpoint for_each {A} (xs : list A) (body : A -> M unit) : M unit :=
  match xs with
  | [] => ret tt
  | x :: xs' => body x ;; for_each xs' body
  end.

Definition Qltb (x y : Q) : bool := negb (Qle_bool y x).
Definition Qmax (x y : Q) : Q := if Qle_bool x y then y else x.
Definition Qmin (x y : Q) : Q := if Qle_bool x y then x else y.

(** ** [gemini_api.py] *)

(** [@retry(stop=stop_after_attempt(n), wait=w)] of the tenacity library:
    call again after an exception, sleeping [w attempt_number] in between,
    until attempt [n] has failed; then raise [RetryError].  [remaining] is
    [n - attempt_number], the number of attempts still allowed. *)
Fixpoint retrying {A} (wait : nat -> Q) (remaining attempt_number : nat)
    (fn : M A) : M A :=
  try_except fn (fun _ =>
    match remaining with
    | O => raise RetryError
    | S k => time_sleep (wait attempt_number) ;;
             retrying wait k (S attempt_number) fn
    end).

Definition retry {A} (stop_after_attempt : nat) (wait : nat -> Q) (fn : M A) : M A :=
  retrying wait (stop_after_attempt - 1) 1 fn.

(** tenacity's [wait_exponential(multiplier, min, max)]:
    [max(max(0, min), min(multiplier * 2 ** (attempt_number - 1), max))]. *)
Definition wait_exponential (multiplier min max : Q) (attempt_number : nat) : Q :=
  Qmax (Qmax 0 min)
       (Qmin (multiplier * 2 ^ Z.of_nat (attempt_number - 1))%Q max).

Definition add_event (e : event) (w : world) : world :=
  World (clock w) (trace w ++ [e]) (gemini w) (drive_files w) (processed_titles w).

Definition valid_categories : list string :=
  [ "Daily Team Meeting"; "Investor Meeting"; "Client Meeting";
    "HR & Recruitment"; "User Research Meeting";
    "Product Development Meeting"; "Other" ].

Definition classify_instruction : string :=
  Py.join Py.nl
    [ "";
      "            Classify the meeting into one of these types:";
      "            - Daily Team Meeting (morning, team plans, 30-45min, daily coordination)";
      "            - Investor Meeting";
      "            - Client Meeting";
      "            - HR & Recruitment";
      "            - User Research Meeting";
      "            - Product Development Meeting";
      "            - Other";
      "            ";
      "            Return ONLY the category name.";
      "            " ].

Definition summary_instruction : string :=
  Py.join Py.nl
    [ "";
      "                Provide a concise summary focusing on:";
      "                - Key discussion points";
      "                - Important decisions made";
      "                - Action items or next steps";
      "                - Project updates";
      "                " ].

(** The prompt of the single-chunk branch of [summarize_transcript]. *)
Definition single_prompt (chunk : string) : string :=
  summary_instruction +:+ Py.nl +:+ Py.nl +:+ "Transcript:" +:+ Py.nl +:+ chunk.

(** The prompt for part [i] (0-based) of [n]. *)
Definition part_prompt (i n : nat) (chunk : string) : string :=
  Py.join Py.nl
    [ "";
      "                    Summarize part " +:+ Py.str_of_nat (i + 1) +:+ "/"
        +:+ Py.str_of_nat n +:+ " of the transcript, focusing on:";
      "                    - Key points";
      "                    - Decisions";
      "                    - Action items";
      "                    " ]
  +:+ Py.nl +:+ Py.nl +:+ "Transcript part " +:+ Py.str_of_nat (i + 1) +:+ ":"
  +:+ Py.nl +:+ chunk.

(** [enumerate(xs)] *)
Fixpoint enumerate_from {A} (i : nat) (xs : list A) : list (nat * A) :=
  match xs with
  | [] => []
  | x :: xs' => (i, x) :: enumerate_from (S i) xs'
  end.

Definition enumerate {A} (xs : list A) : list (nat * A) := enumerate_from 0 xs.

Definition combined_prompt (summaries : list string) : string :=
  "Combine these summary parts into a coherent final summary:" +:+ Py.nl +:+ Py.nl
  +:+ Py.join (Py.nl +:+ Py.nl)
        (map (fun '(i, summary) =>
                "Part " +:+ Py.str_of_nat (i + 1) +:+ ":" +:+ Py.nl +:+ summary)
             (enumerate summaries)).

Section Gemini.
Variable E : environment.

(** [self.session.post(self.base_url, json=payload)] *)
Definition session_post (prompt : string) : M gemini_reply :=
  fun w => let reply := gemini_backend E (trace w) prompt in
           (Ok reply, add_event (GeminiPost prompt reply) w).

(** The limiter with its clock arithmetic taken exactly;
    [Doubles._check_rate_limit] below rounds every reading and difference
    as the code does. *)
Definition _check_rate_limit : M unit :=
  current_time <- time_time ;;
  w <- get_world ;;
  (if Qle_bool 60 (current_time - last_request_time (gemini w))
   then set_gemini (GeminiState 0 current_time (MAX_CHUNK_SIZE (gemini w)))
   else ret tt) ;;
  w <- get_world ;;
  (if 55 <=? requests_in_minute (gemini w) then
     let sleep_time := (60 - (current_time - last_request_time (gemini w)))%Q in
     if Qltb 0 sleep_time then
       time_sleep sleep_time ;;
       now <- time_time ;;
       set_gemini (GeminiState 0 now (MAX_CHUNK_SIZE (gemini w)))
     else ret tt
   else ret tt) ;;
  w <- get_world ;;
  set_gemini (GeminiState (requests_in_minute (gemini w) + 1)
                          (last_request_time (gemini w))
                          (MAX_CHUNK_SIZE (gemini w))).

(** The prompt that is put in the payload: [chunks[0]] when the chunker
    returns more than one chunk. *)
Definition payload_prompt (MAX : Z) (prompt : string) : string :=
  match Chunker._chunk_content MAX prompt with
  | c :: _ :: _ => c
  | _ => prompt
  end.

(** The body of [_generate_with_retry], one attempt. *)
Definition generate_attempt (prompt : string) : M string :=
  _check_rate_limit ;;
  w <- get_world ;;
  let prompt := payload_prompt (MAX_CHUNK_SIZE (gemini w)) prompt in
  response <- session_post prompt ;;
  match response with
  | PostRaised => raise ConnectionError
  | Response status_code body =>
      if status_code =? 429 then
        time_sleep 5 ;; raise RateLimitExceeded
      else if (400 <=? status_code) && (status_code <? 600) then
        raise (HTTPError status_code)
      else
        match body with
        | NotJson => raise MalformedResponse
        | NoCandidates => raise EmptyResponse
        | BadCandidate => raise MalformedResponse
        | Candidate text => ret (Py.strip text)
        end
  end.

(** The decorated method. *)
Definition _generate_with_retry (prompt : string) : M string :=
  fun w =>
    match retry 3 (wait_exponential 1 4 10) (generate_attempt prompt) w with
    | (Ok text, w') => (Ok text, add_event (Generated prompt (Some text)) w')
    | (Raise e, w') => (Raise e, add_event (Generated prompt None) w')
    end.

Definition determine_meeting_type (transcript_text : string)
    (document_name : option string) : M string :=
  try_except
    (let prompt := classify_instruction in
     let prompt :=
       match document_name with
       | Some n => if Py.truthy n
                   then prompt +:+ Py.nl +:+ Py.nl +:+ "Document name: " +:+ n +:+ Py.nl
                   else prompt
       | None => prompt
       end in
     w <- get_world ;;
     match Chunker._chunk_content (MAX_CHUNK_SIZE (gemini w)) transcript_text with
     | [] => raise IndexError
     | content_chunk :: _ =>
         let prompt := prompt +:+ Py.nl +:+ "Transcript excerpt:" +:+ Py.nl
                       +:+ content_chunk in
         result <- _generate_with_retry prompt ;;
         ret (if bool_decide (result ∈ valid_categories) then result else "Other")
     end)
    (fun _ => ret "Other").

(** The loop over [enumerate(chunks)] of [summarize_transcript]. *)
Fixpoint summarize_parts (n : nat) (parts : list (nat * string))
    (summaries : list string) : M (list string) :=
  match parts with
  | [] => ret summaries
  | (i, chunk) :: rest =>
      summary <- _generate_with_retry (part_prompt i n chunk) ;;
      summarize_parts n rest
        (if Py.truthy summary then summaries ++ [summary] else summaries)
  end.

(** Returns [Some text] for a [str] result and [None] for Python's [None]. *)
Definition summarize_transcript (transcript_text : string) : M (option string) :=
  try_except
    (w <- get_world ;;
     let chunks := Chunker._chunk_content (MAX_CHUNK_SIZE (gemini w)) transcript_text in
     match chunks with
     | [chunk] =>
         text <- _generate_with_retry (single_prompt chunk) ;;
         ret (Some text)
     | _ =>
         summaries <- summarize_parts (length chunks) (enumerate chunks) [] ;;
         if Chunker.nonempty summaries then
           text <- _generate_with_retry (combined_prompt summaries) ;;
           ret (Some text)
         else ret None
     end)
    (fun _ => ret None).

(** Shared shape of [generate_chat_summary] and
    [generate_user_validation_summary]. *)
Definition chat_prompt (instruction transcript_text : string)
    (meeting_time : option string) : string :=
  let prompt := instruction in
  let prompt :=
    match meeting_time with
    | Some t => if Py.truthy t then prompt +:+ Py.nl +:+ "Meeting time: " +:+ t
                else prompt
    | None => prompt
    end in
  prompt +:+ Py.nl +:+ Py.nl +:+ "Transcript:" +:+ Py.nl +:+ transcript_text.

Definition generate_chat_summary (transcript_text : string)
    (meeting_time : option string) : M (option string) :=
  try_except
    (result <- _generate_with_retry
                 (chat_prompt (chat_summary_instruction E) transcript_text meeting_time) ;;
     ret (if Py.truthy result then Some (Py.strip result) else None))
    (fun _ => ret None).

Definition generate_user_validation_summary (transcript_text : string)
    (meeting_time : option string) : M (option string) :=
  try_except
    (result <- _generate_with_retry
                 (chat_prompt (validation_summary_instruction E) transcript_text meeting_time) ;;
     ret (if Py.truthy result then Some (Py.strip result) else None))
    (fun _ => ret None).

End Gemini.

(** ** Clock arithmetic in double precision

    [time.time()] returns a Python [float], an IEEE 754 binary64 number,
    and [_check_rate_limit] subtracts such numbers: every difference is
    rounded to the nearest double, ties to the even significand. *)

(** The nearest integer, ties to the even one. *)
Definition round_half_even (q : Q) : Z :=
  let f := Qfloor q in
  match (q - inject_Z f ?= 1 # 2)%Q with
  | Lt => f
  | Gt => f + 1
  | Eq => if Z.even f then f else f + 1
  end.

(** The exponent [e] with [2 ^ e <= |q| < 2 ^ (e + 1)], for [q] not zero:
    the difference of the bit lengths of numerator and denominator, or
    one less. *)
Definition ilog2 (q : Q) : Z :=
  let e := Z.log2 (Z.abs (Qnum q)) - Z.log2 (Zpos (Qden q)) in
  if Qle_bool (2 ^ e) (Qabs q) then e else e - 1.

(** The exponent of the smallest positive double, [2 ^ -1074]. *)
Definition emin : Z := -1074.

(** The double nearest to [q]: a significand of 53 bits at the exponent of
    [q], or a multiple of [2 ^ emin] below the normal range.  The values of
    a clock are far from the largest double, so overflow to infinity is
    not modelled. *)
Definition binary64 (q : Q) : Q :=
  if Qeq_bool q 0 then 0%Q
  else
    let s := Z.max (ilog2 q - 52) emin in
    Qred (inject_Z (round_half_even (q / 2 ^ s)) * 2 ^ s).

(** A value the code can hold as a clock reading: a double between 0 and
    [2 ^ 32] seconds (the readings of [time.time()] until the year 2106). *)
Definition timestamp (t : Q) : Prop :=
  (binary64 t == t)%Q /\ (0 <= t)%Q /\ (t <= 4294967296)%Q.

Module Doubles.

(** [time.time()]: the clock, as a double. *)
Definition time_time : M Q := fun w => (Ok (binary64 (clock w)), w).

(** [x - y] on two doubles. *)
Definition sub (x y : Q) : Q := binary64 (x - y).

Definition _check_rate_limit : M unit :=
  current_time <- time_time ;;
  w <- get_world ;;
  (if Qle_bool 60 (sub current_time (last_request_time (gemini w)))
   then set_gemini (GeminiState 0 current_time (MAX_CHUNK_SIZE (gemini w)))
   else ret tt) ;;
  w <- get_world ;;
  (if 55 <=? requests_in_minute (gemini w) then
     let sleep_time := sub 60 (sub current_time (last_request_time (gemini w))) in
     if Qltb 0 sleep_time then
       time_sleep sleep_time ;;
       now <- time_time ;;
       set_gemini (GeminiState 0 now (MAX_CHUNK_SIZE (gemini w)))
     else ret tt
   else ret tt) ;;
  w <- get_world ;;
  set_gemini (GeminiState (requests_in_minute (gemini w) + 1)
                          (last_request_time (gemini w))
                          (MAX_CHUNK_SIZE (gemini w))).

End Doubles.

(** ** [drive_api.py] *)

Definition folder_mime : string := "application/vnd.google-apps.folder".
Definition document_mime : string := "application/vnd.google-apps.document".
Definition quote : ascii := "'"%char.
Definition backslash : ascii := "\"%char.

(** How the store reads the text between the quotes of a query: a
    backslash makes the next quote or backslash literal; a bare quote ends
    the text early and a backslash before anything else is not accepted,
    which both make the query invalid. *)
Fixpoint drive_unescape (literal : string) : option string :=
  match literal with
  | EmptyString => Some EmptyString
  | String c rest =>
      if Ascii.eqb c backslash then
        match rest with
        | String d rest' =>
            if Ascii.eqb d quote || Ascii.eqb d backslash
            then option_map (String d) (drive_unescape rest')
            else None
        | EmptyString => None
        end
      else if Ascii.eqb c quote then None
      else option_map (String c) (drive_unescape rest)
  end.

(** The files a query selects, or [None] for an invalid query. *)
Definition query_filter (q : drive_query) : option (drive_file -> bool) :=
  match q with
  | QFoldersNamed literal =>
      option_map (fun v f => String.eqb (file_name f) v
                             && String.eqb (mimeType f) folder_mime
                             && negb (trashed f))
                 (drive_unescape literal)
  | QDocsInParent literal =>
      option_map (fun v f => existsb (String.eqb v) (parents f)
                             && String.eqb (mimeType f) document_mime
                             && negb (trashed f))
                 (drive_unescape literal)
  | QDocsNamed literal =>
      option_map (fun v f => String.eqb (file_name f) v
                             && String.eqb (mimeType f) document_mime
                             && negb (trashed f))
                 (drive_unescape literal)
  end.

(** Result pages of a listing: [pageSize] files per page, at least one
    page.  The recursion is on a bound of the number of pages. *)
Fixpoint pages_go {A} (bound pageSize : nat) (l : list A) : list (list A) :=
  match bound with
  | O => [l]
  | S bound' =>
      if (length l <=? pageSize)%nat then [l]
      else take pageSize l :: pages_go bound' pageSize (drop pageSize l)
  end.

Definition pages_of {A} (pageSize : nat) (l : list A) : list (list A) :=
  pages_go (length l) pageSize l.

Definition lookup_file (fileId : string) (fs : list drive_file) : option drive_file :=
  List.find (fun f => String.eqb (file_id f) fileId) fs.

Definition update_file (fileId : string) (g : drive_file -> drive_file)
    (fs : list drive_file) : list drive_file :=
  map (fun f => if String.eqb (file_id f) fileId then g f else f) fs.

Definition with_property (key value : string) (f : drive_file) : drive_file :=
  DriveFile (file_id f) (file_name f) (mimeType f) (createdDate f) (trashed f)
            (parents f) (<[key := value]> (properties f))
            (exported_text f) (body_content f).

Definition with_document (d : string * list structural_element) (f : drive_file)
    : drive_file :=
  DriveFile (file_id f) (file_name f) (mimeType f) (createdDate f) (trashed f)
            (parents f) (properties f) (fst d) (snd d).

Definition PROCESSED_PROPERTY : string := "meeting_processed".

Section Drive.
Variable E : environment.

(** One [.execute()]: it raises when the store is at fault or the request
    cannot be served ([serve] gives [None]); otherwise it returns the
    result and the store after the request. *)
Definition execute {A} (request : drive_request)
    (serve : list drive_file -> option (A * list drive_file)) : M A :=
  fun w =>
    if drive_fault E (trace w) request
    then (Raise (HTTPError 500), add_event (Drive request false) w)
    else match serve (drive_files w) with
         | Some (a, fs) =>
             (Ok a, World (clock w) (trace w ++ [Drive request true]) (gemini w)
                          fs (processed_titles w))
         | None => (Raise (HTTPError 404), add_event (Drive request false) w)
         end.

(** [service.files().get(fileId=.., fields=..).execute()] *)
Definition files_get (fileId fields : string) : M drive_file :=
  execute (FilesGet fileId fields)
          (fun fs => option_map (fun f => (f, fs)) (lookup_file fileId fs)).

(** [service.files().export(fileId=.., mimeType='text/plain').execute()] *)
Definition files_export (fileId : string) : M string :=
  execute (FilesExport fileId)
          (fun fs => option_map (fun f => (exported_text f, fs)) (lookup_file fileId fs)).

(** [service.files().update(fileId=.., body={'properties': {key: value}})] *)
Definition files_update_property (fileId key value : string) : M unit :=
  execute (FilesUpdateProperties fileId key value)
          (fun fs => option_map
                       (fun _ => (tt, update_file fileId (with_property key value) fs))
                       (lookup_file fileId fs)).

(** [service.files().copy(fileId=.., body={'name': .., 'parents': [..]})] *)
Definition files_copy (fileId name parent : string) : M unit :=
  fun w =>
    execute (FilesCopy fileId name parent)
      (fun fs => option_map
         (fun f => let c := copied_file E (trace w) f in
                   (tt, fs ++ [DriveFile (file_id c) name (mimeType c) (createdDate c)
                                         (trashed c) [parent] (properties c)
                                         (exported_text c) (body_content c)]))
         (lookup_file fileId fs)) w.

(** [docs_service.documents().get(documentId=..).execute()]: the body
    content *)
Definition docs_get (documentId : string) : M (list structural_element) :=
  execute (DocsGet documentId)
          (fun fs => option_map (fun f => (body_content f, fs)) (lookup_file documentId fs)).

(** [docs_service.documents().batchUpdate(..)] with one [insertText] *)
Definition docs_insert_text (documentId : string) (index : Z) (text : string) : M unit :=
  execute (DocsInsertText documentId index text)
          (fun fs => option_map
                       (fun f => (tt, update_file documentId
                                        (with_document (docs_insert E f index text)) fs))
                       (lookup_file documentId fs)).

(** One page of [service.files().list(q=.., pageToken=..).execute()];
    [page] is the page the token stands for, [None] for an invalid query. *)
Definition files_list (q : drive_query) (pageToken : option nat)
    (page : option (list drive_file)) : M (list drive_file) :=
  execute (FilesList q pageToken) (fun fs => option_map (fun p => (p, fs)) page).

(** The pages a listing started in state [w] will return. *)
Definition result_pages (q : drive_query) (w : world) : option (list (list drive_file)) :=
  option_map (fun keep => pages_of 100 (List.filter keep (drive_files w)))
             (query_filter q).

Definition has_been_processed (fileId : string) : M bool :=
  try_except
    (file <- files_get fileId "properties" ;;
     ret (bool_decide (properties file !! PROCESSED_PROPERTY = Some "true")))
    (fun _ => ret false).

(** The inner [for file in files] of [get_new_meet_files]. *)
Fixpoint unprocessed_of (files : list drive_file) : M (list drive_file) :=
  match files with
  | [] => ret []
  | file :: files' =>
      processed <- has_been_processed (file_id file) ;;
      rest <- unprocessed_of files' ;;
      ret (if processed then rest else file :: rest)
  end.

(** The [while True] over the pages of one folder: an exception ends the
    folder's listing, keeping what was found. *)
Fixpoint folder_pages (q : drive_query) (pageToken : nat) (pages : list (list drive_file))
    : M (list drive_file) :=
  match pages with
  | [] => ret []
  | page :: pages' =>
      try_except
        (files <- files_list q (if (pageToken =? 0)%nat then None else Some pageToken)
                             (Some page) ;;
         unprocessed_files <- unprocessed_of files ;;
         match pages' with
         | [] => ret unprocessed_files
         | _ :: _ =>
             more <- folder_pages q (S pageToken) pages' ;;
             ret (unprocessed_files ++ more)
         end)
        (fun _ => ret [])
  end.

(** The listing of one folder's documents, first page to last. *)
Definition folder_documents (folder_id : string) : M (list drive_file) :=
  let q := QDocsInParent folder_id in
  w <- get_world ;;
  match result_pages q w with
  | Some pages => folder_pages q 0 pages
  | None => try_except (files_list q None None ;; ret []) (fun _ => ret [])
  end.

(** The [for folder in folders] of [get_new_meet_files]: a folder that
    cannot be accessed is passed over. *)
Fixpoint folders_documents (folders : list drive_file) : M (list drive_file) :=
  match folders with
  | [] => ret []
  | folder :: folders' =>
      found <- try_except
                 (accessible <- try_except
                                  (files_get (file_id folder) "id,name" ;; ret true)
                                  (fun _ => ret false) ;;
                  if accessible then folder_documents (file_id folder) else ret [])
                 (fun _ => ret []) ;;
      more <- folders_documents folders' ;;
      ret (found ++ more)
  end.

Definition get_new_meet_files (user_email : string) : M (list drive_file) :=
  try_except
    (let q := QFoldersNamed "Meet Recordings" in
     w <- get_world ;;
     folders <- files_list q None (option_map (fun pages => hd [] pages) (result_pages q w)) ;;
     if Chunker.nonempty folders then folders_documents folders else ret [])
    (fun _ => ret []).

Definition verify_folder_access (folder_id : string) : M bool :=
  try_except
    (files_get folder_id "id, name, driveId, capabilities" ;; ret true)
    (fun _ => ret false).

Definition copy_file (fileId folder_id : string) : M bool :=
  try_except
    (accessible <- verify_folder_access folder_id ;;
     if negb accessible then ret false
     else
       file <- files_get fileId "name, driveId" ;;
       files_copy fileId (file_name file) folder_id ;;
       ret true)
    (fun _ => ret false).

Definition mark_as_processed (fileId : string) : M bool :=
  try_except
    (files_update_property fileId PROCESSED_PROPERTY "true" ;; ret true)
    (fun _ => ret false).

(** The [for file in files] of [mark_all_with_title_as_processed]: a
    failed update is logged and passed over. *)
Fixpoint mark_files (files : list drive_file) : M unit :=
  match files with
  | [] => ret tt
  | file :: files' =>
      try_except
        (files_update_property (file_id file) PROCESSED_PROPERTY "true")
        (fun _ => ret tt) ;;
      mark_files files'
  end.

(** Its [while True] over the pages: an exception of a listing request is
    not caught here. *)
Fixpoint mark_pages (q : drive_query) (pageToken : nat) (pages : list (list drive_file))
    : M unit :=
  match pages with
  | [] => ret tt
  | page :: pages' =>
      files <- files_list q (if (pageToken =? 0)%nat then None else Some pageToken)
                          (Some page) ;;
      mark_files files ;;
      match pages' with
      | [] => ret tt
      | _ :: _ => mark_pages q (S pageToken) pages'
      end
  end.

(** The text the method puts between the quotes:
    [file_title.replace("'", "\\'")]. *)
Definition title_literal (file_title : string) : string :=
  Py.replace_char quote (String backslash (String quote EmptyString)) file_title.

Definition mark_all_with_title_as_processed (file_title : string) : M unit :=
  let q := QDocsNamed (title_literal file_title) in
  w <- get_world ;;
  match result_pages q w with
  | Some pages => mark_pages q 0 pages
  | None => files_list q None None ;; ret tt
  end.

End Drive.

(** ** [chat_api.py] *)

Inductive platform := Slack | Discord | GoogleChat | Unknown.

Record ChatAPI := {
  webhook_url : string;
  chat_platform : platform
}.

Definition _format_message (api : ChatAPI) (message : string) : chat_payload :=
  match chat_platform api with
  | Slack => TextPayload message
  | Discord => ContentPayload message
  | GoogleChat => TextPayload message
  | Unknown => TextPayload message
  end.

Section Chat.
Variable E : environment.

(** [requests.post(self.webhook_url, json=payload)] *)
Definition webhook_post (api : ChatAPI) (payload : chat_payload) : M Z :=
  fun w =>
    let reply := chat_backend E (trace w) (webhook_url api) payload in
    let w' := add_event (ChatPost (webhook_url api) payload reply) w in
    match reply with
    | ChatRaised => (Raise ConnectionError, w')
    | ChatStatus status_code => (Ok status_code, w')
    end.

(** [meetings] is the list of [(name, summary)] pairs. *)
Definition send_daily_meeting_summary (api : ChatAPI)
    (meetings : list (string * string)) : M bool :=
  try_except
    (if negb (Chunker.nonempty meetings) then ret true
     else
       today <- time_time ;;
       let message :=
         fold_left
           (fun message '(title, summary) =>
              message +:+ memo_emoji E +:+ " *" +:+ title +:+ "*" +:+ Py.nl
                      +:+ summary +:+ Py.nl +:+ Py.nl)
           meetings
           ("*Meeting Summary for " +:+ strftime_date E today +:+ "*"
              +:+ Py.nl +:+ Py.nl) in
       status_code <- webhook_post api (_format_message api message) ;;
       ret (status_code =? 200))
    (fun _ => ret false).

End Chat.

(** ** [main.py] *)

(** The objects [setup_apis] builds, as far as the pipeline reads them. *)
Record apis := {
  folder_mapping : gmap string string;
  chat_api : ChatAPI;
  validation_chat_api : ChatAPI
}.

(** [sub in s] for strings *)
Fixpoint contains_str (sub s : string) : bool :=
  Py.startswith sub s ||
  match s with
  | EmptyString => false
  | String _ s' => contains_str sub s'
  end.

(** The meeting time read off a title: the first word of the third field
    of the title split on [" - "], when there is one. *)
Definition meeting_time_of (file_name : string) : option string :=
  if contains_str " - " file_name then
    match Py.split_str " - " file_name !! 2%nat with
    | Some field => head (Py.split_str " " field)
    | None => None
    end
  else None.

(** [new_files[i:i + batch_size] for i in range(0, len(new_files), batch_size)];
    the recursion is on a bound of the number of batches. *)
Fixpoint batches_go {A} (bound batch_size : nat) (l : list A) : list (list A) :=
  match bound, l with
  | _, [] => []
  | O, _ => [l]
  | S bound', _ => take batch_size l :: batches_go bound' batch_size (drop batch_size l)
  end.

Definition batches {A} (batch_size : nat) (l : list A) : list (list A) :=
  batches_go (length l) batch_size l.

Definition summary_text (doc_summary : string) : string :=
  Py.nl +:+ Py.nl +:+ "=== AI-Generated Summary ===" +:+ Py.nl +:+ doc_summary +:+ Py.nl.

(** The end index the pipeline computes from the body content. *)
Definition end_index_of (content_items : list structural_element) : Z :=
  match List.find (fun item => match endIndex item with
                               | Some _ => negb (sectionBreak item)
                               | None => false
                               end)
                  (rev content_items) with
  | Some item => match endIndex item with Some i => i | None => 1 end
  | None => 1
  end.

Section Pipeline.
Variable E : environment.
Variable A : apis.

(** The notification stage, after the file was marked. *)
Definition notify (meeting_type file_name content : string) : M unit :=
  if String.eqb meeting_type "Daily Team Meeting" then
    chat_summary <- generate_chat_summary E content (meeting_time_of file_name) ;;
    match chat_summary with
    | Some text =>
        if Py.truthy text
        then send_daily_meeting_summary E (chat_api A) [(file_name, text)] ;; ret tt
        else ret tt
    | None => ret tt
    end
  else if String.eqb meeting_type "User Research Meeting"
          || String.eqb meeting_type "Product Development Meeting" then
    validation_summary <-
      generate_user_validation_summary E content (meeting_time_of file_name) ;;
    match validation_summary with
    | Some text =>
        if Py.truthy text
        then send_daily_meeting_summary E (validation_chat_api A) [(file_name, text)] ;;
             ret tt
        else ret tt
    | None => ret tt
    end
  else ret tt.

(** The [try] around the summary insertion: [true] when the update went
    through, [false] for the [except ... continue]. *)
Definition append_summary (fileId doc_summary : string) : M bool :=
  try_except
    (content_items <- docs_get E fileId ;;
     let end_index := end_index_of content_items in
     docs_insert_text E fileId (end_index - 1) (summary_text doc_summary) ;;
     ret true)
    (fun _ => ret false).

(** Lines 137-179 of [main.py]: copy to the folder of the meeting type,
    mark by title, notify. *)
Definition file_document (fileId file_name content meeting_type : string) : M unit :=
  match folder_mapping A !! meeting_type with
  | Some destination_folder =>
      copied <- copy_file E fileId destination_folder ;;
      if copied then
        mark_all_with_title_as_processed E file_name ;;
        notify meeting_type file_name content
      else ret tt
  | None => ret tt
  end.

(** Lines 88-136: export, classify, summarise, insert the summary. *)
Definition process_document (fileId file_name : string) : M unit :=
  doc <- files_export E fileId ;;
  if negb (Py.truthy doc) then ret tt
  else
    let content := doc in
    meeting_type <- determine_meeting_type E content (Some file_name) ;;
    doc_summary <- summarize_transcript E content ;;
    match doc_summary with
    | None => ret tt
    | Some doc_summary =>
        if negb (Py.truthy doc_summary) then ret tt
        else
          appended <- append_summary fileId doc_summary ;;
          if negb appended then ret tt
          else file_document fileId file_name content meeting_type
    end.

(** The body of [for file in batch] (lines 71-184), with its
    [except Exception]. *)
Definition process_file (today : Z) (file : drive_file) : M unit :=
  try_except
    (file_metadata <- files_get E (file_id file) "mimeType,name,createdTime" ;;
     let mime_type := mimeType file_metadata in
     let file_name := file_name file_metadata in
     if negb (createdDate file_metadata =? today) then ret tt
     else
       w <- get_world ;;
       if bool_decide (file_name ∈ processed_titles w) then ret tt
       else
         set_processed_titles ({[file_name]} ∪ processed_titles w) ;;
         if String.eqb mime_type document_mime
         then process_document (file_id file) file_name
         else ret tt)
    (fun _ => ret tt).

Definition process_meet_files (user_email : string) : M unit :=
  new_files <- get_new_meet_files E user_email ;;
  if negb (Chunker.nonempty new_files) then ret tt
  else
    w <- get_world ;;
    let today := local_date E (clock w) in
    for_each (batches 10 new_files)
             (fun batch => for_each batch (process_file today)).

(** The loop of [handle_request] over the users, with the report it
    builds: [(user, None)] for success, [(user, Some e)] for an error. *)
Fixpoint process_users (users : list string) : M (list (string * option exn)) :=
  match users with
  | [] => ret []
  | user_email :: users' =>
      result <- try_except (process_meet_files user_email ;; ret None)
                           (fun e => ret (Some e)) ;;
      results <- process_users users' ;;
      ret ((user_email, result) :: results)
  end.

(** [handle_request] after [setup_apis]: a fresh title set, then the
    users that are non-empty after stripping. *)
Definition handle_request (users : list string) : M (list (string * option exn)) :=
  set_processed_titles ∅ ;;
  process_users (List.filter Py.truthy (map Py.strip users)).

End Pipeline.

(** ** Functions beside the pipeline's path *)

(** [c.lower()] on the modelled code points: the ASCII capitals and the
    Latin-1 capitals U+00C0 to U+00DE other than the multiplication sign
    move up by 32; everything else stays. *)
Definition lower_char (c : ascii) : ascii :=
  let n := N_of_ascii c in
  if ((65 <=? n) && (n <=? 90)
      || (192 <=? n) && (n <=? 222) && negb (n =? 215))%N
  then ascii_of_N (n + 32) else c.

(** [s.lower()] *)
Fixpoint lower (s : string) : string :=
  match s with
  | EmptyString => EmptyString
  | String c s' => String (lower_char c) (lower s')
  end.

(** [ChatAPI._detect_platform] *)
Definition _detect_platform (webhook_url : string) : platform :=
  let url := lower webhook_url in
  if contains_str "slack.com" url then Slack
  else if contains_str "discord.com" url then Discord
  else if contains_str "chat.googleapis.com" url then GoogleChat
  else Unknown.

(** [x or y] on values that are [None] or a [str] *)
Definition or_else (x y : option string) : option string :=
  match x with
  | Some s => if Py.truthy s then x else y
  | None => y
  end.

(** [ChatAPI.__init__]: [environ] is the process environment read by
    [os.getenv]; [None] stands for
    [raise ValueError("CHAT_WEBHOOK_URL is required")]. *)
Definition ChatAPI_init (environ : gmap string string) (webhook_url : option string)
    : option ChatAPI :=
  match or_else webhook_url (environ !! "CHAT_WEBHOOK_URL") with
  | Some url =>
      if Py.truthy url
      then Some {| webhook_url := url; chat_platform := _detect_platform url |}
      else None
  | None => None
  end.

(** The two [ChatAPI(...)] constructions of [setup_apis] (lines 44-45 of
    [main.py]); an exception of the first one ends [setup_apis] before
    the second. *)
Definition setup_chat_apis (environ : gmap string string) : option (ChatAPI * ChatAPI) :=
  match ChatAPI_init environ (environ !! "CHAT_WEBHOOK_URL") with
  | Some chat =>
      match ChatAPI_init environ (environ !! "VALIDATION_CHAT_WEBHOOK_URL") with
      | Some validation_chat => Some (chat, validation_chat)
      | None => None
      end
  | None => None
  end.

(** [escape_query_string] of [main.py]: backslashes first, then quotes. *)
Definition escape_query_string (text : string) : string :=
  Py.replace_char quote (String backslash (String quote EmptyString))
    (Py.replace_char backslash (String backslash (String backslash EmptyString)) text).

Section Beside.
Variable E : environment.

(** [ChatAPI.send_message]; [response.raise_for_status()] raises for the
    statuses from 400 to 599. *)
Definition send_message (api : ChatAPI) (message : string) : M bool :=
  try_except
    (status_code <- webhook_post E api (_format_message api message) ;;
     (if (400 <=? status_code) && (status_code <? 600)
      then raise (HTTPError status_code) else ret tt) ;;
     ret true)
    (fun _ => ret false).

(** [DriveAPI.verify_document_access].  The field mask of its read
    ([fields='title,documentId']) only narrows the answer, of which the
    method uses nothing but the title for a log line; the write probe
    inserts one space at index 1. *)
Definition verify_document_access (doc_id : string) : M bool :=
  try_except
    (docs_get E doc_id ;;
     try_except
       (docs_insert_text E doc_id 1 " " ;; ret true)
       (fun _ => ret false))
    (fun _ => ret false).

End Beside.

(** ** Vocabulary for stating properties of the client *)

(** [Some a] for a returned value, [None] for an exception. *)
Definition returned {A} (o : outcome A) : option A :=
  match o with Ok a => Some a | Raise _ => None end.

(** The events that come after the events of [w] in [w']. *)
Definition emitted (w w' : world) (evs : list event) : Prop :=
  trace w' = trace w ++ evs.

(** A step of the text-generation client: it adds events and may change
    the clock and the limiter's counters, nothing else. *)
Definition client_step (w w' : world) (evs : list event) : Prop :=
  emitted w w' evs /\
  drive_files w' = drive_files w /\
  processed_titles w' = processed_titles w /\
  MAX_CHUNK_SIZE (gemini w') = MAX_CHUNK_SIZE (gemini w).

(** When one attempt counts as successful: an answer that is neither
    HTTP 429 nor another HTTP error and carries a candidate text.  Every
    other reply (a raised post, an error status, a body without
    candidates) is a failure. *)
Definition reply_result (r : gemini_reply) : option string :=
  match r with
  | Response status_code (Candidate text) =>
      if (status_code =? 429) || ((400 <=? status_code) && (status_code <? 600))
      then None else Some (Py.strip text)
  | _ => None
  end.

(** The fixed sleep after an HTTP 429. *)
Definition cooldown (r : gemini_reply) : list event :=
  match r with
  | Response status_code _ => if status_code =? 429 then [Sleep 5] else []
  | PostRaised => []
  end.

(** What the rate limiter can add before a post: nothing, or one sleep. *)
Definition rate_wait (evs : list event) : Prop :=
  evs = [] \/ exists d, (0 < d)%Q /\ evs = [Sleep d].

(** The shape of the events of one decorated call, from attempt
    [attempt_number] on, for the prompt [sent] that goes into the payload:
    a successful attempt ends the call; a failed attempt below the third
    is followed by a backoff sleep between 4 and 10 seconds and another
    attempt; a failed third attempt ends the call without a result. *)
Inductive retry_run (sent : string) : nat -> list event -> option string -> Prop :=
| run_success n pre r text :
    rate_wait pre -> reply_result r = Some text ->
    retry_run sent n (pre ++ [GeminiPost sent r]) (Some text)
| run_exhausted pre r :
    rate_wait pre -> reply_result r = None ->
    retry_run sent 3 (pre ++ [GeminiPost sent r] ++ cooldown r) None
| run_again n pre r d evs res :
    (n < 3)%nat -> rate_wait pre -> reply_result r = None ->
    (4 <= d)%Q -> (d <= 10)%Q ->
    retry_run sent (S n) evs res ->
    retry_run sent n (pre ++ [GeminiPost sent r] ++ cooldown r ++ [Sleep d] ++ evs) res.


(** Events of the text-generation client. *)
Definition is_client_event (e : event) : bool :=
  match e with
  | Sleep _ | GeminiPost _ _ | Generated _ _ => true
  | _ => false
  end.

(** The prompts and results of the decorated calls recorded in a trace. *)
Fixpoint calls (evs : list event) : list (string * option string) :=
  match evs with
  | [] => []
  | Generated p r :: evs' => (p, r) :: calls evs'
  | _ :: evs' => calls evs'
  end.

(** The records of the per-chunk calls of [summarize_transcript] that
    returned: part [i] of [n] with its result. *)
Definition part_calls (n : nat) (parts : list (nat * string))
    (results : list string) : list (string * option string) :=
  zip_with (fun '(i, chunk) r => (part_prompt i n chunk, Some r)) parts results.

(** The non-empty ones among the chunk summaries, in order. *)
Definition kept (results : list string) : list string :=
  List.filter Py.truthy results.

(** ** Vocabulary for stating properties of the pipeline *)

(** The processed flag of a file is set. *)
Definition flagged (f : drive_file) : Prop :=
  properties f !! PROCESSED_PROPERTY = Some "true".

(** An event that sets the processed flag of some file: a property
    update request, whether it went through or not. *)
Definition is_mark (e : event) : bool :=
  match e with
  | Drive (FilesUpdateProperties _ _ _) _ => true
  | _ => false
  end.

(** A post to a chat webhook. *)
Definition is_chat (e : event) : bool :=
  match e with ChatPost _ _ _ => true | _ => false end.

(** A store request that raised. *)
Definition is_failed_request (e : event) : bool :=
  match e with Drive _ false => true | _ => false end.

(** Neither a mark nor a chat post. *)
Definition calm (e : event) : bool := negb (is_mark e) && negb (is_chat e).

(** Neither a mark, nor a chat post, nor a store request that raised. *)
Definition quiet (e : event) : bool := calm e && negb (is_failed_request e).

(** The requests of [mark_all_with_title_as_processed] for [title]:
    listings of the documents with that name and updates of the flag. *)
Definition marking (title : string) (e : event) : bool :=
  match e with
  | Drive (FilesList (QDocsNamed literal) _) _ => String.eqb literal (title_literal title)
  | Drive (FilesUpdateProperties _ key value) _ =>
      String.eqb key PROCESSED_PROPERTY && String.eqb value "true"
  | _ => false
  end.

(** Events of the notification stage: the client's and chat posts. *)
Definition notifying (e : event) : bool := is_client_event e || is_chat e.

(** What of a file the flag, the name and the listing depend on. *)
Definition flags (fs : list drive_file)
    : list (string * string * string * Z * bool * list string * gmap string string) :=
  map (fun f => (file_id f, file_name f, mimeType f, createdDate f, trashed f,
                 parents f, properties f)) fs.

(** How the store can change during a run: files keep their place, id,
    name, type, creation day, parents and trash state, a set flag stays
    set, and copies are added at the end. *)
Definition file_evolves (f f' : drive_file) : Prop :=
  file_id f' = file_id f /\ file_name f' = file_name f /\
  mimeType f' = mimeType f /\ createdDate f' = createdDate f /\
  trashed f' = trashed f /\ parents f' = parents f /\
  (flagged f -> flagged f').

Definition evolves (fs fs' : list drive_file) : Prop :=
  exists kept added, fs' = kept ++ added /\ Forall2 file_evolves fs kept.

(** The documents a by-title marking is about. *)
Definition titled (title : string) (f : drive_file) : Prop :=
  file_name f = title /\ mimeType f = document_mime /\ trashed f = false.

(** The state after a store request that went through, leaving the store
    as [fs]; [add_event (Drive request false) w] is the state after one
    that raised. *)
Definition served (w : world) (request : drive_request) (fs : list drive_file) : world :=
  World (clock w) (trace w ++ [Drive request true]) (gemini w) fs (processed_titles w).

(** What [has_been_processed] reads for a file id when the read goes
    through. *)
Definition processed_in (fs : list drive_file) (fileId : string) : Prop :=
  exists f, lookup_file fileId fs = Some f /\ flagged f.

(** Requests of the discovery: listings and reads of file fields. *)
Definition discovering (e : event) : bool :=
  match e with
  | Drive (FilesList _ _) _ => true
  | Drive (FilesGet _ _) _ => true
  | _ => false
  end.

(** A read of the properties of a file that raised. *)
Definition is_failed_flag_read (e : event) : bool :=
  match e with
  | Drive (FilesGet _ fields) false => String.eqb fields "properties"
  | _ => false
  end.

(** Not a store request that raised. *)
Definition went_through (e : event) : bool := negb (is_failed_request e).

(** The only change of a file a marking makes: the flag is set. *)
Definition flag_set (f f' : drive_file) : Prop :=
  f' = f \/ f' = with_property PROCESSED_PROPERTY "true" f.

Definition marks_only (fs fs' : list drive_file) : Prop := Forall2 flag_set fs fs'.

(** A file left unfiled by a stretch of the run from [w] to [w'] with
    events [evs]: no file was marked, nothing was posted to a chat, and
    no file's identity, name or properties changed. *)
Definition unfiled (w w' : world) (evs : list event) : Prop :=
  forallb calm evs = true /\
  flags (drive_files w') = flags (drive_files w).

(** A file that was filed.  The events are, in this order: events [pre]
    that are neither marks nor chat posts nor failed store requests, the
    summary insertion that went through, more such events [mid], the copy
    that went through, the events [marks] of the by-title marking for
    [title], and the events of the notification, which are the client's
    and chat posts only.  [w1] is the state after the copy, which added
    the copy [c] and changed no flag; [w2] is the state the marking left,
    and the store at the end is the one of [w2]. *)
Definition filed (E : environment) (fileId title : string) (w w' : world)
    (evs : list event) : Prop :=
  exists pre index text mid name destination c marks notification w1 w2 om,
    evs = pre ++ [Drive (DocsInsertText fileId index text) true]
          ++ mid ++ [Drive (FilesCopy fileId name destination) true]
          ++ marks ++ notification /\
    forallb quiet pre = true /\
    forallb quiet mid = true /\
    forallb (marking title) marks = true /\
    forallb notifying notification = true /\
    trace w1 = trace w ++ pre ++ [Drive (DocsInsertText fileId index text) true]
               ++ mid ++ [Drive (FilesCopy fileId name destination) true] /\
    flags (drive_files w1) = flags (drive_files w) ++ flags [c] /\
    mark_all_with_title_as_processed E title w1 = (om, w2) /\
    trace w2 = trace w1 ++ marks /\
    drive_files w' = drive_files w2.

(** The files of one pipeline run, processed in order from [w] to [w']:
    the events are the concatenation of one stretch per file, and each
    file was left unfiled or was filed. *)
Inductive processed_files (E : environment)
    : list drive_file -> world -> world -> list event -> Prop :=
| processed_nil w : processed_files E [] w w []
| processed_cons file files w w1 w2 e1 e2 :
    trace w1 = trace w ++ e1 ->
    (unfiled w w1 e1 \/ exists title, filed E (file_id file) title w w1 e1) ->
    processed_files E files w1 w2 e2 ->
    processed_files E (file :: files) w w2 (e1 ++ e2).

(** A later state of the same invocation: the store has evolved and the
    title set has only grown. *)
Definition later (w w' : world) : Prop :=
  evolves (drive_files w) (drive_files w') /\
  processed_titles w ⊆ processed_titles w'.

(** The file a store request names, if it names one. *)
Definition request_file (request : drive_request) : option string :=
  match request with
  | FilesList _ _ => None
  | FilesGet fileId _ => Some fileId
  | FilesExport fileId => Some fileId
  | FilesCopy fileId _ _ => Some fileId
  | FilesUpdateProperties fileId _ _ => Some fileId
  | DocsGet documentId => Some documentId
  | DocsInsertText documentId _ _ => Some documentId
  end.

(** The store requests that name [fileId] among [evs], in order, each
    with whether it went through. *)
Definition requests_for (fileId : string) (evs : list event)
    : list (drive_request * bool) :=
  flat_map (fun e => match e with
                     | Drive request ok =>
                         match request_file request with
                         | Some i => if String.eqb i fileId then [(request, ok)] else []
                         | None => []
                         end
                     | _ => []
                     end) evs.

(** Every document of the store has its flag set, as [has_been_processed]
    reads it. *)
Definition all_flagged (fs : list drive_file) : Prop :=
  forall f, f ∈ fs -> mimeType f = document_mime -> processed_in fs (file_id f).

(** No read of a file's properties raised. *)
Definition flags_readable (evs : list event) : bool :=
  forallb (fun e => negb (is_failed_flag_read e)) evs.

(** [all_flagged] as a check that can be run on a store. *)
Definition all_flaggedb (fs : list drive_file) : bool :=
  forallb (fun f =>
             implb (String.eqb (mimeType f) document_mime)
                   (match lookup_file (file_id f) fs with
                    | Some g => bool_decide (flagged g)
                    | None => false
                    end)) fs.






(** ** Vocabulary for the proofs *)

(** The size the loop accounts for a group of lines: each line plus one
    separator. *)
Fixpoint size_sum (g : list string) : Z :=
  match g with
  | [] => 0
  | l :: g' => (Py.len l + 1) + size_sum g'
  end.

(** A group the loop may close: it fits the accounted size, or it is one
    line. *)
Definition group_ok (MAX : Z) (g : list string) : Prop :=
  size_sum g <= MAX \/ exists l, g = [l].

(** The label [determine_meeting_type] makes of the result of its call. *)
Definition label_of (res : option string) : string :=
  match res with
  | Some r => if bool_decide (r ∈ valid_categories) then r else "Other"
  | None => "Other"
  end.

(** What a stretch of the discovery does: it only reads. *)
Definition reads (w w' : world) (evs : list event) : Prop :=
  trace w' = trace w ++ evs /\
  forallb discovering evs = true /\
  drive_files w' = drive_files w /\
  processed_titles w' = processed_titles w.

(** A computation that discovers files: it returns, only reads, finds
    files of [source] only, and -- when no read of a flag raised -- only
    files whose flag is not set. *)
Definition discovers (run : M (list drive_file)) (w : world)
    (source : drive_file -> Prop) : Prop :=
  exists found w' evs,
    run w = (Ok found, w') /\
    reads w w' evs /\
    (forall f, f ∈ found -> source f) /\
    (forallb (fun e => negb (is_failed_flag_read e)) evs = true ->
     forall f, f ∈ found -> ~ processed_in (drive_files w) (file_id f)).

(** Empty, or not starting with white space. *)
Definition clean_front (s : string) : Prop :=
  match s with
  | EmptyString => True
  | String c _ => Py.is_space c = false
  end.

(** A document the discovery may return from a store: a document that is
    not in the trash and has among its parents what the store reads from
    the id of a folder named [Meet Recordings] that is not in the trash. *)
Definition in_meet_recordings (fs : list drive_file) (f : drive_file) : Prop :=
  f ∈ fs /\ mimeType f = document_mime /\ trashed f = false /\
  exists folder parent,
    folder ∈ fs /\ file_name folder = "Meet Recordings" /\
    mimeType folder = folder_mime /\ trashed folder = false /\
    drive_unescape (file_id folder) = Some parent /\ parent ∈ parents f.

(** The next group's first line did not fit behind the group: the test
    [current_size + line_size > MAX_CHUNK_SIZE] of the chunker's loop. *)
Definition tight (MAX : Z) (g h : list string) : Prop :=
  MAX < size_sum g + (Py.len (hd "" h) + 1).

(** Every group is [tight] against the group after it. *)
Fixpoint chain_tight (MAX : Z) (gs : list (list string)) : Prop :=
  match gs with
  | [] => True
  | g :: rest =>
      match rest with [] => True | h :: _ => tight MAX g h end
      /\ chain_tight MAX rest
  end.

(** A listing request that raised. *)
Definition is_failed_listing (e : event) : bool :=
  match e with Drive (FilesList _ _) false => true | _ => false end.

(** The only change a marking makes to a file, and to which files: the
    flag is set, on a file whose id is among [ids]. *)
Definition flag_set_for (ids : list string) (f f' : drive_file) : Prop :=
  f' = f \/ (f' = with_property PROCESSED_PROPERTY "true" f /\ file_id f ∈ ids).

Definition marks_within (ids : list string) (fs fs' : list drive_file) : Prop :=
  Forall2 (flag_set_for ids) fs fs'.

(** ** Concrete worlds used in examples *)

Definition plain_copy (f : drive_file) : drive_file :=
  DriveFile ("copy-of-" +:+ file_id f) (file_name f) (mimeType f) (createdDate f)
            false (parents f) ∅ (exported_text f) (body_content f).

Definition limiter_world (n : Z) (now last : Q) : world :=
  World now [] (GeminiState n last 30000) [] ∅.

(** The doubles nearest to 60.3 and to 0.3: their difference is below 60
    and rounds to 60. *)
Definition rounding_world : world :=
  limiter_world 55 (binary64 (603 # 10)) (binary64 (3 # 10)).

Definition quiet_environment : environment :=
  Environment (fun _ _ => Response 200 (Candidate "Other"))
              (fun _ _ _ => ChatStatus 200)
              (fun _ _ => false)
              (fun _ => plain_copy)
              (fun f _ _ => (exported_text f, body_content f))
              (fun _ => 0)
              (fun _ => "1970-01-01")
              "" "" "".

(** A one-line transcript of 29990 characters: under the limit on its own,
    over it once the summary instruction is put in front. *)
Definition near_limit_text : string :=
  Pos.iter (String "x"%char) EmptyString 29990.

(** A backend that answers every post with HTTP 500. *)
Definition down_environment : environment :=
  Environment (fun _ _ => Response 500 NoCandidates)
              (fun _ _ _ => ChatStatus 200)
              (fun _ _ => false)
              (fun _ => plain_copy)
              (fun f _ _ => (exported_text f, body_content f))
              (fun _ => 0)
              (fun _ => "1970-01-01")
              "" "" "".

(** Two lines of 29990 characters: two chunks under the limit of 30000. *)
Definition two_chunk_text : string :=
  near_limit_text +:+ Py.nl +:+ near_limit_text.

Definition folder (id name : string) : drive_file :=
  DriveFile id name folder_mime 0 false [] ∅ "" [].

Definition transcript (id name parent : string) (created : Z)
    (props : gmap string string) : drive_file :=
  DriveFile id name document_mime created false [parent] props
            "Alice: hello" [StructuralElement (Some 13) false].

Definition example_apis : apis :=
  {| folder_mapping := {[ "Other" := "dest" ]};
     chat_api := {| webhook_url := "https://chat.googleapis.com/a";
                    chat_platform := GoogleChat |};
     validation_chat_api := {| webhook_url := "https://chat.googleapis.com/b";
                               chat_platform := GoogleChat |} |}.

Definition store_world (fs : list drive_file) : world :=
  World 0 [] (GeminiState 0 0 30000) fs ∅.

(** Two transcripts with one title in a Meet Recordings folder. *)
Definition twin_store : list drive_file :=
  [ folder "rec" "Meet Recordings"; folder "dest" "Other";
    transcript "t1" "Standup" "rec" 0 ∅; transcript "t2" "Standup" "rec" 0 ∅ ].

(** The same two transcripts, the first one created the day before. *)
Definition stale_first_store : list drive_file :=
  [ folder "rec" "Meet Recordings"; folder "dest" "Other";
    transcript "t1" "Standup" "rec" (-1) ∅; transcript "t2" "Standup" "rec" 0 ∅ ].

(** A store that stops serving reads of file properties once a copy has
    been requested; everything else is as in [quiet_environment]. *)
Definition is_copy (e : event) : bool :=
  match e with Drive (FilesCopy _ _ _) _ => true | _ => false end.


(** The two transcripts of [twin_store] beside a document in a folder of
    another name, which the discovery does not reach. *)
Definition store_with_notes : list drive_file :=
  twin_store ++ [ folder "misc" "Notes"; transcript "n1" "Shopping list" "misc" 0 ∅ ].

(** Two transcripts whose titles differ by one backslash: [t1] is named
    [a\b] and [t2] is named [a\\b]. *)
Definition backslash_store : list drive_file :=
  [ folder "rec" "Meet Recordings"; folder "dest" "Other";
    transcript "t1" "a\b" "rec" 0 ∅; transcript "t2" "a\\b" "rec" 0 ∅ ].

(** A store that serves every request except those [refused]; everything
    else is as in [quiet_environment]. *)
Definition refusing_environment (refused : drive_request -> bool) : environment :=
  Environment (fun _ _ => Response 200 (Candidate "Other"))
              (fun _ _ _ => ChatStatus 200)
              (fun _ request => refused request)
              (fun _ => plain_copy)
              (fun f _ _ => (exported_text f, body_content f))
              (fun _ => 0)
              (fun _ => "1970-01-01")
              "" "" "".

(** The copy of [t1] raises. *)
Definition failed_copy_environment : environment :=
  refusing_environment (fun request =>
    match request with
    | FilesCopy fileId _ _ => String.eqb fileId "t1"
    | _ => false
    end).

(** The summary insertion into [t1] raises. *)
Definition failed_write_environment : environment :=
  refusing_environment (fun request =>
    match request with
    | DocsInsertText documentId _ _ => String.eqb documentId "t1"
    | _ => false
    end).

(** The run of the pipeline over [backslash_store], for one identity. *)
Definition backslash_run (E : environment) : world :=
  snd (process_meet_files E example_apis "u@x" (store_world backslash_store)).

(** Each file of a store with whether its flag is set. *)
Definition flag_table (w : world) : list (string * bool) :=
  map (fun f => (file_id f, bool_decide (flagged f))) (drive_files w).

(** One unprocessed transcript in a Meet Recordings folder. *)
Definition single_store : list drive_file :=
  [ folder "rec" "Meet Recordings"; folder "dest" "Other";
    transcript "t1" "Standup" "rec" 0 ∅ ].

(** Events of the filing stage: a copy request, a request that sets a
    property, a chat post. *)
Definition filing (e : event) : bool := is_copy e || is_mark e || is_chat e.

(** A stretch of a run without any event of the filing stage that leaves
    the identity, name and properties of every file as they were. *)
Definition unfiling (w w' : world) : Prop :=
  exists evs,
    trace w' = trace w ++ evs /\
    forallb (fun e => negb (filing e)) evs = true /\
    flags (drive_files w') = flags (drive_files w).

(** The objects of a deployment without folder mapping (the default of
    [FOLDER_MAPPING] is the empty object). *)
Definition unmapped_apis : apis :=
  {| folder_mapping := ∅;
     chat_api := {| webhook_url := "https://chat.googleapis.com/a";
                    chat_platform := GoogleChat |};
     validation_chat_api := {| webhook_url := "https://chat.googleapis.com/b";
                               chat_platform := GoogleChat |} |}.

(* ================================================================== *)
(** * Properties *)
(* ================================================================== *)

(** ** Strings *)

Module PyFacts.
Import Py.

Lemma len_nonneg s : 0 <= len s.
Proof. unfold len. lia. Qed.

Lemma app_cons c s t : String c s +:+ t = String c (s +:+ t).
Proof. reflexivity. Qed.

Lemma app_empty_l t : "" +:+ t = t.
Proof. reflexivity. Qed.

Lemma length_app s t :
  String.length (s +:+ t) = (String.length s + String.length t)%nat.
Proof.
  induction s as [|c s IH]; [done|]. rewrite app_cons. simpl. by f_equal.
Qed.

Lemma len_app s t : len (s +:+ t) = len s + len t.
Proof. unfold len. rewrite length_app. lia. Qed.

Lemma len_nl : len nl = 1.
Proof. reflexivity. Qed.

Lemma str_app_assoc s t u : (s +:+ t) +:+ u = s +:+ (t +:+ u).
Proof. induction s as [|c s IH]; [done|]. rewrite !app_cons. by f_equal. Qed.

Lemma split_not_nil sep s : split sep s <> [].
Proof.
  destruct s as [|c s]; simpl; [done|].
  destruct (Ascii.eqb c sep); [done|].
  by destruct (split sep s).
Qed.

Lemma join_cons sep x xs :
  xs <> [] -> join sep (x :: xs) = x +:+ sep +:+ join sep xs.
Proof. by destruct xs. Qed.

Lemma join_split s : join nl (split newline s) = s.
Proof.
  induction s as [|c s IH]; [done|].
  cbn [split]. destruct (Ascii.eqb_spec c newline) as [->|Hne].
  - rewrite join_cons by apply split_not_nil. by rewrite IH.
  - pose proof (split_not_nil newline s) as Hnn.
    destruct (split newline s) as [|l ls]; [done|].
    destruct ls as [|l' ls].
    + simpl in *. by rewrite IH.
    + rewrite join_cons by done. rewrite join_cons in IH by done.
      rewrite app_cons. by rewrite IH.
Qed.

Lemma split_no_sep sep s :
  Forall (fun l => contains sep l = false) (split sep s).
Proof.
  induction s as [|c s IH]; simpl.
  - by repeat constructor.
  - destruct (Ascii.eqb c sep) eqn:E.
    + by constructor.
    + destruct (split sep s) as [|l ls]; simpl.
      * repeat constructor. simpl. by rewrite E.
      * inversion IH; subst. constructor; [|done]. simpl. by rewrite E.
Qed.

Lemma join_app sep xs ys :
  xs <> [] -> ys <> [] ->
  join sep (xs ++ ys) = join sep xs +:+ sep +:+ join sep ys.
Proof.
  induction xs as [|x xs IH]; [done|]. intros _ Hys.
  destruct xs as [|x' xs].
  - simpl app. rewrite join_cons by done. reflexivity.
  - change ((x :: x' :: xs) ++ ys) with (x :: ((x' :: xs) ++ ys)).
    rewrite join_cons by (simpl; done). rewrite IH by done.
    rewrite (join_cons sep x (x' :: xs)) by done. by rewrite !str_app_assoc.
Qed.

(** Joining joined groups is joining their concatenation. *)
Lemma join_concat sep (gs : list (list string)) :
  Forall (fun g => g <> []) gs ->
  join sep (map (join sep) gs) = join sep (concat gs).
Proof.
  induction gs as [|g gs IH]; [done|]. intros Hne.
  inversion Hne as [|? ? Hg Hgs]; subst.
  destruct gs as [|g' gs].
  - simpl. by rewrite app_nil_r.
  - change (map (join sep) (g :: g' :: gs))
      with (join sep g :: map (join sep) (g' :: gs)).
    rewrite join_cons by done. rewrite IH by done.
    change (concat (g :: g' :: gs)) with (g ++ concat (g' :: gs)).
    rewrite join_app; [done|done|].
    inversion Hgs; subst. simpl. by destruct g'.
Qed.

End PyFacts.

(** ** Chunker *)

Module ChunkerFacts.
Import Py PyFacts Chunker.

Lemma size_sum_app g h : size_sum (g ++ h) = size_sum g + size_sum h.
Proof. induction g as [|l g IH]; simpl; lia. Qed.

Lemma len_join g : g <> [] -> len (join nl g) = size_sum g - 1.
Proof.
  induction g as [|l g IH]; [done|]. intros _.
  destruct g as [|l' g].
  - simpl. lia.
  - rewrite join_cons by done. rewrite !len_app, len_nl, IH by done.
    change (size_sum (l :: l' :: g)) with ((len l + 1) + size_sum (l' :: g)).
    lia.
Qed.

Lemma nonempty_true {A} (l : list A) : nonempty l = true <-> l <> [].
Proof. by destruct l. Qed.

Lemma loop_inv MAX ls : forall st gs,
  chunks st = map (join nl) gs ->
  Forall (fun g => g <> []) gs ->
  Forall (group_ok MAX) gs ->
  current_size st = size_sum (current_chunk st) ->
  (current_chunk st = [] \/ group_ok MAX (current_chunk st)) ->
  exists gs',
    flush (fold_left (step MAX) ls st) = map (join nl) gs' /\
    Forall (fun g => g <> []) gs' /\
    Forall (group_ok MAX) gs' /\
    concat gs' = concat gs ++ current_chunk st ++ ls.
Proof.
  induction ls as [|l ls IH]; intros [cs cur sz] gs Hcs Hne Hok Hsz Hcur;
    simpl in Hcs, Hsz, Hcur.
  - unfold flush; simpl. destruct cur as [|c cur]; simpl.
    + exists gs. by rewrite !app_nil_r.
    + exists (gs ++ [c :: cur]). rewrite map_app, concat_app, Hcs. simpl.
      rewrite !app_nil_r. split; [done|].
      destruct Hcur as [|Hcur]; [done|].
      split; [|split]; [| |done]; apply Forall_app; split; auto.
  - cbn [fold_left]. unfold step at 2. cbn [current_size current_chunk chunks].
    destruct (MAX <? sz + (len l + 1)) eqn:E.
    + destruct cur as [|c cur]; cbn [nonempty].
      * destruct (IH (LoopState cs [l] (len l + 1)) gs) as (gs' & ? & ? & ? & Hc);
          simpl; auto; [lia | right; right; eauto |].
        exists gs'. split_and!; try done; by rewrite Hc.
      * destruct Hcur as [|Hcur]; [done|].
        destruct (IH (LoopState (cs ++ [join nl (c :: cur)]) [l] (len l + 1))
                     (gs ++ [c :: cur])) as (gs' & ? & ? & ? & Hc);
          cbn [chunks current_chunk current_size].
        -- by rewrite map_app, Hcs.
        -- apply Forall_app; split; auto.
        -- apply Forall_app; split; auto.
        -- simpl. lia.
        -- right; right; eauto.
        -- exists gs'. split_and!; try done. rewrite Hc, concat_app. simpl.
           by rewrite !app_nil_r, <- !app_assoc.
    + apply Z.ltb_ge in E.
      destruct (IH (LoopState cs (cur ++ [l]) (sz + (len l + 1))) gs)
        as (gs' & ? & ? & ? & Hc); cbn [chunks current_chunk current_size]; auto.
      * rewrite size_sum_app. simpl. lia.
      * right; left. rewrite size_sum_app. simpl. lia.
      * exists gs'. split_and!; try done; rewrite Hc; simpl;
          by rewrite <- !app_assoc.
Qed.

(** What the loop of [_chunk_content] computes on the whole text. *)
Lemma loop_groups MAX content :
  exists gs,
    flush (fold_left (step MAX) (split newline content) (LoopState [] [] 0))
      = map (join nl) gs /\
    Forall (fun g => g <> []) gs /\
    Forall (group_ok MAX) gs /\
    concat gs = split newline content.
Proof.
  destruct (loop_inv MAX (split newline content) (LoopState [] [] 0) [])
    as (gs & ? & ? & ? & Hc); simpl; auto.
  exists gs. split_and!; try done; by rewrite Hc.
Qed.

Lemma split_two_lines s :
  contains newline s = true ->
  exists l1 l2 ls, split newline s = l1 :: l2 :: ls.
Proof.
  induction s as [|c s IH]; [done|]. cbn [contains split].
  destruct (Ascii.eqb c newline); simpl.
  - intros _. pose proof (split_not_nil newline s).
    destruct (split newline s) as [|l ls]; [done|]. eauto.
  - intros H. destruct (IH H) as (l1 & l2 & ls & ->). eauto.
Qed.

(** A text over the limit that has a newline is cut into at least two
    chunks. *)
Lemma chunk_many MAX content :
  MAX < len content -> contains newline content = true ->
  exists c0 c1 rest, _chunk_content MAX content = c0 :: c1 :: rest.
Proof.
  intros Hlen Hnl. unfold _chunk_content.
  destruct (len content <=? MAX) eqn:E; [apply Z.leb_le in E; lia|].
  destruct (loop_groups MAX content) as (gs & -> & Hne & Hok & Hc).
  destruct (split_two_lines content Hnl) as (l1 & l2 & ls & Hsp).
  destruct gs as [|g1 [|g2 gs]].
  - simpl in Hc. by rewrite Hsp in Hc.
  - simpl in Hc. rewrite app_nil_r in Hc. subst g1.
    inversion Hok as [|? ? [Hsz|[l Hl]] _]; subst.
    + pose proof (len_join (split newline content) (split_not_nil _ _)) as Hj.
      rewrite join_split in Hj. lia.
    + rewrite Hsp in Hl. discriminate.
  - simpl. eauto.
Qed.

Lemma contains_app c s t : contains c (s +:+ t) = contains c s || contains c t.
Proof.
  induction s as [|d s IH]; [done|]. rewrite app_cons. simpl.
  by rewrite IH, orb_assoc.
Qed.

Lemma contains_nl_mid s t : contains newline (s +:+ nl +:+ t) = true.
Proof. rewrite !contains_app. simpl. by rewrite orb_true_r. Qed.

End ChunkerFacts.

Example chunk_small : Chunker._chunk_content 5 "ab" = ["ab"].
Proof. reflexivity. Qed.

Example chunk_lines :
  Chunker._chunk_content 5 ("ab" +:+ Py.nl +:+ "cd" +:+ Py.nl +:+ "efghijk" +:+ Py.nl)
  = ["ab"; "cd"; "efghijk"; ""].
Proof. reflexivity. Qed.

Example chunk_pack :
  Chunker._chunk_content 6 ("ab" +:+ Py.nl +:+ "cd" +:+ Py.nl +:+ "e")
  = ["ab" +:+ Py.nl +:+ "cd"; "e"].
Proof. reflexivity. Qed.

Lemma chunk_content_roundtrip_aux (MAX : Z) (content : string) :
  Chunker._chunk_content MAX content <> [] /\
  Py.join Py.nl (Chunker._chunk_content MAX content) = content.
Proof.
  unfold Chunker._chunk_content.
  destruct (Py.len content <=? MAX); [done|].
  destruct (ChunkerFacts.loop_groups MAX content) as (gs & -> & Hne & _ & Hc).
  split.
  - intros Hnil. apply map_eq_nil in Hnil. subst gs. simpl in Hc.
    symmetry in Hc. by apply PyFacts.split_not_nil in Hc.
  - rewrite PyFacts.join_concat by done. rewrite Hc. apply PyFacts.join_split.
Qed.

(** C4. For every text and every maximum chunk size the chunker returns a
    non-empty list of chunks (also for the empty text), and joining the
    chunks in order with single newlines gives back the text. *)
Theorem chunk_content_roundtrip (MAX_CHUNK_SIZE : Z) (content : string) :
  Chunker._chunk_content MAX_CHUNK_SIZE content <> [] /\
  Py.join Py.nl (Chunker._chunk_content MAX_CHUNK_SIZE content) = content.
Proof. apply chunk_content_roundtrip_aux. Qed.

(** C5. Every chunk is at most the maximum size long, unless it is one
    line of the text that is itself longer than the limit; the chunks are
    the joined groups of a partition of the text's lines into consecutive
    non-empty groups (splits fall on line boundaries only); and a text
    at or under the limit gives the single chunk equal to the text. *)
Theorem chunk_content_bounds (MAX_CHUNK_SIZE : Z) (content : string) :
  let cs := Chunker._chunk_content MAX_CHUNK_SIZE content in
  (forall c, c ∈ cs ->
     Py.len c <= MAX_CHUNK_SIZE \/
     (MAX_CHUNK_SIZE < Py.len c /\
      c ∈ Py.split Py.newline content /\
      Py.contains Py.newline c = false)) /\
  (exists gs : list (list string),
     Forall (fun g => g <> []) gs /\
     concat gs = Py.split Py.newline content /\
     cs = map (Py.join Py.nl) gs) /\
  (Py.len content <= MAX_CHUNK_SIZE -> cs = [content]).
Proof.
  cbv zeta. unfold Chunker._chunk_content.
  destruct (Py.len content <=? MAX_CHUNK_SIZE) eqn:E.
  - apply Z.leb_le in E. split_and!; [| |done].
    + intros c Hc. apply list_elem_of_singleton in Hc as ->. by left.
    + exists [Py.split Py.newline content]. split_and!.
      * repeat constructor. apply PyFacts.split_not_nil.
      * simpl. by rewrite app_nil_r.
      * simpl. by rewrite PyFacts.join_split.
  - apply Z.leb_gt in E.
    destruct (ChunkerFacts.loop_groups MAX_CHUNK_SIZE content)
      as (gs & -> & Hne & Hok & Hc).
    split_and!; [| by exists gs | lia].
    intros c Hin. apply list_elem_of_fmap in Hin as (g & -> & Hg).
    rewrite Forall_forall in Hne, Hok.
    pose proof (Hne g Hg) as Hgne.
    destruct (Hok g Hg) as [Hsz | [l ->]].
    + left. rewrite ChunkerFacts.len_join by done. lia.
    + simpl. destruct (Z_le_gt_dec (Py.len l) MAX_CHUNK_SIZE); [by left|right].
      assert (l ∈ Py.split Py.newline content) as Hl.
      { rewrite <- Hc. apply list_elem_of_In, in_concat. exists [l].
        split; [by apply list_elem_of_In | by left]. }
      split_and!; [lia | done |].
      pose proof (PyFacts.split_no_sep Py.newline content) as Hall.
      rewrite Forall_forall in Hall. by apply Hall.
Qed.

Example split_str_ex :
  Py.split_str " - " "Standup - 2024-01-01 - 09:00 Transcript"
  = ["Standup"; "2024-01-01"; "09:00 Transcript"].
Proof. reflexivity. Qed.

Example strip_ex : Py.strip ("  Other " +:+ Py.nl) = "Other".
Proof. reflexivity. Qed.

(** ** Rate limiter *)

Lemma Qltb_true x y : Qltb x y = true <-> (x < y)%Q.
Proof.
  unfold Qltb. rewrite negb_true_iff, <- not_true_iff_false, Qle_bool_iff.
  split; [apply Qnot_le_lt | apply Qlt_not_le].
Qed.

Lemma Qle_bool_false x y : Qle_bool x y = false <-> (y < x)%Q.
Proof.
  rewrite <- not_true_iff_false, Qle_bool_iff.
  split; [apply Qnot_le_lt | apply Qlt_not_le].
Qed.

Module DoubleFacts.

Lemma round_half_even_pos (x : Q) : (1 # 2 < x)%Q -> 1 <= round_half_even x.
Proof.
  intros Hx. unfold round_half_even.
  pose proof (Qfloor_le x) as Hf.
  assert (0 <= Qfloor x) as H0.
  { change 0 with (Qfloor 0). apply Qfloor_resp_le. lra. }
  destruct (Z.eq_dec (Qfloor x) 0) as [Hz|Hz].
  - rewrite Hz.
    assert ((x - inject_Z 0 ?= 1 # 2)%Q = Gt) as ->.
    { apply Qgt_alt. unfold inject_Z. lra. }
    lia.
  - destruct (x - inject_Z (Qfloor x) ?= 1 # 2)%Q; [destruct (Z.even _)| |]; lia.
Qed.

Lemma two_pos (s : Z) : (0 < 2 ^ s)%Q.
Proof. by apply Qpower_0_lt. Qed.

Lemma two_le (s t : Z) : s <= t -> (2 ^ s <= 2 ^ t)%Q.
Proof. intros. by apply Qpower_le_compat_l. Qed.

Lemma two_plus (s t : Z) : (2 ^ (s + t) == 2 ^ s * 2 ^ t)%Q.
Proof. by apply Qpower_plus. Qed.

Lemma two_inject (s : Z) : 0 <= s -> (inject_Z (2 ^ s) == 2 ^ s)%Q.
Proof. intros. by rewrite Zpower_Qpower. Qed.

Lemma ilog2_lower (q : Q) : (0 < q)%Q -> (2 ^ ilog2 q <= q)%Q.
Proof.
  intros Hq. unfold ilog2.
  rewrite (Qabs_pos q) by lra.
  set (e := Z.log2 _ - Z.log2 _).
  destruct (Qle_bool (2 ^ e) q) eqn:Ht; [by apply Qle_bool_iff|].
  destruct q as [n d]. unfold e. cbn [Qnum Qden].
  assert (0 < n) as Hn by (unfold Qlt in Hq; simpl in Hq; lia).
  rewrite Z.abs_eq by lia.
  pose proof (Z.log2_spec n Hn) as [Ha _].
  pose proof (Z.log2_spec (Z.pos d) eq_refl) as [_ Hb].
  pose proof (Z.log2_nonneg n) as Ha0.
  pose proof (Z.log2_nonneg (Z.pos d)) as Hb0.
  set (a := Z.log2 n) in *. set (b := Z.log2 (Z.pos d)) in *.
  replace (a - b - 1) with (a + - (b + 1)) by lia.
  rewrite two_plus, Qpower_opp, <- (two_inject a), <- (two_inject (b + 1)) by lia.
  assert (0 < 2 ^ (b + 1)) as Hp by lia.
  destruct (2 ^ (b + 1)) as [|p|p] eqn:Hpe; try lia.
  unfold Qle, Qmult, Qinv, inject_Z. cbn [Qnum Qden].
  nia.
Qed.

(** Rounding does not take a value of the size of the smallest positive
    double, or more, to zero. *)
Lemma binary64_pos (q : Q) : (2 ^ emin <= q)%Q -> (0 < binary64 q)%Q.
Proof.
  intros Hq. pose proof (two_pos emin) as Hm.
  unfold binary64.
  destruct (Qeq_bool q 0) eqn:Hz.
  { apply Qeq_bool_iff in Hz. lra. }
  cbv zeta. set (s := Z.max _ _).
  rewrite Qred_correct.
  assert (2 ^ s <= q)%Q as Hs.
  { unfold s. destruct (Z.max_spec (ilog2 q - 52) emin) as [[_ ->]|[_ ->]]; [done|].
    apply Qle_trans with (2 ^ ilog2 q)%Q; [apply two_le; lia|].
    apply ilog2_lower. lra. }
  pose proof (two_pos s) as Hp.
  assert (1 # 2 < q / 2 ^ s)%Q as Hr.
  { apply Qlt_shift_div_l; [done|]. lra. }
  apply round_half_even_pos in Hr.
  apply Qmult_lt_0_compat; [|done].
  unfold Qlt, inject_Z. simpl. lia.
Qed.

(** Every double is a whole multiple of [2 ^ emin]. *)
Lemma binary64_grid (q : Q) : exists k : Z, (binary64 q == inject_Z k * 2 ^ emin)%Q.
Proof.
  unfold binary64. destruct (Qeq_bool q 0).
  { exists 0. ring. }
  cbv zeta. set (s := Z.max _ _). set (m := round_half_even _).
  exists (m * 2 ^ (s - emin)).
  rewrite Qred_correct, inject_Z_mult, two_inject by lia.
  rewrite <- Qmult_assoc, <- two_plus.
  by replace (s - emin + emin) with s by lia.
Qed.

(** A double below an integer leaves a positive double when it is
    subtracted from it. *)
Lemma binary64_gap (n : Z) (q : Q) :
  (binary64 q < inject_Z n)%Q -> (0 < binary64 (inject_Z n - binary64 q))%Q.
Proof.
  intros Hlt. apply binary64_pos.
  destruct (binary64_grid q) as (k & Hk).
  pose proof (two_pos emin) as Hm.
  assert (inject_Z n == inject_Z (n * 2 ^ (- emin)) * 2 ^ emin)%Q as Hn.
  { rewrite inject_Z_mult, two_inject by (unfold emin; lia).
    rewrite <- Qmult_assoc, <- two_plus.
    replace (- emin + emin) with 0 by lia. change (2 ^ 0)%Q with 1%Q. ring. }
  set (c := n * 2 ^ (- emin)) in *.
  assert (k < c) as Hkc.
  { rewrite Hk, Hn in Hlt.
    apply Qmult_lt_r in Hlt; [|done]. by rewrite <- Zlt_Qlt in Hlt. }
  assert (inject_Z n - binary64 q == inject_Z (c - k) * 2 ^ emin)%Q as ->.
  { rewrite Hk, Hn. unfold Zminus. rewrite inject_Z_plus, inject_Z_opp. ring. }
  assert (1 <= inject_Z (c - k))%Q by (rewrite <- (Zle_Qle 1); lia).
  nra.
Qed.

(** What the client's theorems use of the limiter also holds in double
    precision: it returns, changes nothing but the clock and its own
    counters, and adds no event or one sleep of positive length. *)
Lemma doubles_rate_limit_step w :
  exists w' pre,
    Doubles._check_rate_limit w = (Ok tt, w') /\
    client_step w w' pre /\ rate_wait pre.
Proof.
  destruct w as [now tr [n last MAX] fs ts].
  unfold Doubles._check_rate_limit, bind, Doubles.time_time, get_world,
    set_gemini, time_sleep, ret.
  cbn [clock trace gemini drive_files processed_titles
       requests_in_minute last_request_time MAX_CHUNK_SIZE].
  destruct (Qle_bool 60 (Doubles.sub (binary64 now) last)) eqn:Hwin;
    cbn [clock trace gemini drive_files processed_titles
         requests_in_minute last_request_time MAX_CHUNK_SIZE].
  - change (55 <=? 0) with false. cbv iota.
    eexists _, []. split; [reflexivity|]. split; [|by left].
    unfold client_step, emitted; cbn. by rewrite app_nil_r.
  - destruct (55 <=? n) eqn:Hn.
    + destruct (Qltb 0 (Doubles.sub 60 (Doubles.sub (binary64 now) last))) eqn:Hs.
      * eexists _, [Sleep _]. split; [reflexivity|]. split.
        -- by unfold client_step, emitted; cbn.
        -- right. eexists. split; [|reflexivity]. by apply Qltb_true.
      * eexists _, []. split; [reflexivity|]. split; [|by left].
        unfold client_step, emitted; cbn. by rewrite app_nil_r.
    + eexists _, []. split; [reflexivity|]. split; [|by left].
      unfold client_step, emitted; cbn. by rewrite app_nil_r.
Qed.

End DoubleFacts.

(** C9. One admission by [_check_rate_limit] in double precision, from a
    state whose window start is a timestamp and whose clock is between 0
    and [2 ^ 32] seconds: it always returns and leaves the counter
    incremented.  [elapsed] is the difference of the clock reading and the
    window start as the code computes it, rounded to a double.  With the
    counter at the ceiling (55 or more) and [elapsed] below 60 it sleeps the
    rounded [60 - elapsed], which is positive, then restarts the window at
    a new clock reading and admits the call as the first of the new window.
    With [elapsed] at 60 or more it restarts the window at the first reading
    without sleeping.  Otherwise it only counts the call. *)
Theorem check_rate_limit_admission (w : world)
    (Hstart : timestamp (last_request_time (gemini w)))
    (Hclock : (0 <= clock w)%Q /\ (clock w <= 4294967296)%Q) :
  let g := gemini w in
  let current_time := binary64 (clock w) in
  let elapsed := Doubles.sub current_time (last_request_time g) in
  let sleep_time := Doubles.sub 60 elapsed in
  exists w',
    Doubles._check_rate_limit w = (Ok tt, w') /\
    drive_files w' = drive_files w /\
    processed_titles w' = processed_titles w /\
    MAX_CHUNK_SIZE (gemini w') = MAX_CHUNK_SIZE g /\
    ((elapsed < 60)%Q -> 55 <= requests_in_minute g ->
       (0 < sleep_time)%Q /\
       trace w' = trace w ++ [Sleep sleep_time] /\
       clock w' = (clock w + sleep_time)%Q /\
       requests_in_minute (gemini w') = 1 /\
       last_request_time (gemini w') = binary64 (clock w')) /\
    ((60 <= elapsed)%Q ->
       trace w' = trace w /\ clock w' = clock w /\
       requests_in_minute (gemini w') = 1 /\
       last_request_time (gemini w') = current_time) /\
    ((elapsed < 60)%Q -> requests_in_minute g < 55 ->
       trace w' = trace w /\ clock w' = clock w /\
       requests_in_minute (gemini w') = requests_in_minute g + 1 /\
       last_request_time (gemini w') = last_request_time g).
Proof.
  clear Hstart Hclock.
  cbv zeta. destruct w as [now tr [n last MAX] fs ts].
  unfold Doubles._check_rate_limit, bind, Doubles.time_time, get_world,
    set_gemini, time_sleep, ret.
  cbn [clock trace gemini drive_files processed_titles
       requests_in_minute last_request_time MAX_CHUNK_SIZE].
  destruct (Qle_bool 60 (Doubles.sub (binary64 now) last)) eqn:Hwin.
  - apply Qle_bool_iff in Hwin.
    cbn [clock trace gemini drive_files processed_titles
         requests_in_minute last_request_time MAX_CHUNK_SIZE].
    change (55 <=? 0) with false. cbv iota.
    eexists. split; [reflexivity|]. cbn.
    split_and!; try done; intros; exfalso; lra.
  - apply Qle_bool_false in Hwin.
    cbn [clock trace gemini drive_files processed_titles
         requests_in_minute last_request_time MAX_CHUNK_SIZE].
    assert (0 < Doubles.sub 60 (Doubles.sub (binary64 now) last))%Q as Hpos
      by apply (DoubleFacts.binary64_gap 60), Hwin.
    destruct (55 <=? n) eqn:Hn.
    + apply Z.leb_le in Hn.
      apply Qltb_true in Hpos as Hb. rewrite Hb.
      eexists. split; [reflexivity|]. cbn.
      split_and!; try done; intros; exfalso; first [lra | lia].
    + apply Z.leb_gt in Hn.
      eexists. split; [reflexivity|]. cbn.
      split_and!; try done; intros; exfalso; first [lra | lia].
Qed.

(** The 56th call, 20 seconds into the window, sleeps 40 seconds. *)
Lemma check_rate_limit_admission_witness :
  exists w',
    Doubles._check_rate_limit (limiter_world 55 120 100) = (Ok tt, w') /\
    trace w' = [Sleep 40] /\
    requests_in_minute (gemini w') = 1.
Proof.
  assert (timestamp (last_request_time (gemini (limiter_world 55 120 100))))
    as Hstart by (by vm_compute).
  assert ((0 <= clock (limiter_world 55 120 100))%Q /\
          (clock (limiter_world 55 120 100) <= 4294967296)%Q)
    as Hclock by (by vm_compute).
  destruct (check_rate_limit_admission (limiter_world 55 120 100) Hstart Hclock)
    as (w' & Hrun & _ & _ & _ & Hblock & _ & _).
  exists w'. split; [exact Hrun|].
  destruct Hblock as (_ & Htr & _ & Hn & _); [by vm_compute | simpl; lia |].
  split; [exact Htr | exact Hn].
Defined.

(** C9, counterexample to the claim as worded.  The window starts at the
    double nearest to 0.3 and the clock stands at the double nearest to
    60.3, with the counter at the ceiling: less than 60 seconds have
    elapsed, yet the difference rounds to 60 and the call is admitted
    at once, without a sleep, in a restarted window. *)
Lemma check_rate_limit_rounds_up_to_reset :
  timestamp (last_request_time (gemini rounding_world)) /\
  timestamp (clock rounding_world) /\
  requests_in_minute (gemini rounding_world) = 55 /\
  (clock rounding_world - last_request_time (gemini rounding_world) < 60)%Q /\
  exists w',
    Doubles._check_rate_limit rounding_world = (Ok tt, w') /\
    trace w' = [] /\
    clock w' = clock rounding_world /\
    requests_in_minute (gemini w') = 1 /\
    last_request_time (gemini w') = clock rounding_world.
Proof.
  split_and!; [by vm_compute..|].
  eexists. split; [by vm_compute|]. by vm_compute.
Qed.

(** ** The retrying client *)

Module ClientFacts.

Lemma client_step_refl w : client_step w w [].
Proof. unfold client_step, emitted. by rewrite app_nil_r. Qed.

Lemma client_step_trans w1 w2 w3 e1 e2 :
  client_step w1 w2 e1 -> client_step w2 w3 e2 -> client_step w1 w3 (e1 ++ e2).
Proof.
  unfold client_step, emitted. intros (Ha & Hb & Hc & Hd) (Ha' & Hb' & Hc' & Hd').
  split_and!; try congruence. by rewrite Ha', Ha, app_assoc.
Qed.

Lemma client_step_sleep w d :
  client_step w (snd (time_sleep d w)) [Sleep d].
Proof. by unfold client_step, emitted. Qed.

Lemma client_step_add_event w e :
  client_step w (add_event e w) [e].
Proof. by unfold client_step, emitted. Qed.

Lemma wait_exponential_bounds n :
  (4 <= wait_exponential 1 4 10 n)%Q /\ (wait_exponential 1 4 10 n <= 10)%Q.
Proof.
  unfold wait_exponential.
  change (Qmax 0 4) with 4%Q.
  generalize (1 * 2 ^ Z.of_nat (n - 1))%Q. intros x.
  unfold Qmax, Qmin.
  destruct (Qle_bool x 10) eqn:H1.
  - apply Qle_bool_iff in H1. destruct (Qle_bool 4 x) eqn:H2.
    + apply Qle_bool_iff in H2. split; lra.
    + split; lra.
  - change (Qle_bool 4 10) with true. cbv iota. split; lra.
Qed.

Lemma check_rate_limit_step w :
  exists w' pre,
    _check_rate_limit w = (Ok tt, w') /\ client_step w w' pre /\ rate_wait pre.
Proof.
  destruct w as [now tr [n last MAX] fs ts].
  unfold _check_rate_limit, bind, time_time, get_world, set_gemini, time_sleep, ret.
  cbn [clock trace gemini drive_files processed_titles
       requests_in_minute last_request_time MAX_CHUNK_SIZE].
  destruct (Qle_bool 60 (now - last)) eqn:Hwin;
    cbn [clock trace gemini drive_files processed_titles
         requests_in_minute last_request_time MAX_CHUNK_SIZE].
  - change (55 <=? 0) with false. cbv iota.
    eexists _, []. split; [reflexivity|]. split; [|by left].
    unfold client_step, emitted; cbn. by rewrite app_nil_r.
  - destruct (55 <=? n) eqn:Hn.
    + destruct (Qltb 0 (60 - (now - last))) eqn:Hs.
      * eexists _, [Sleep _]. split; [reflexivity|]. split.
        -- by unfold client_step, emitted; cbn.
        -- right. eexists. split; [|reflexivity]. by apply Qltb_true.
      * eexists _, []. split; [reflexivity|]. split; [|by left].
        unfold client_step, emitted; cbn. by rewrite app_nil_r.
    + eexists _, []. split; [reflexivity|]. split; [|by left].
      unfold client_step, emitted; cbn. by rewrite app_nil_r.
Qed.

Section WithEnvironment.
Variable E : environment.

Lemma attempt_step p w :
  let sent := payload_prompt (MAX_CHUNK_SIZE (gemini w)) p in
  exists o w' pre r,
    generate_attempt E p w = (o, w') /\
    client_step w w' (pre ++ [GeminiPost sent r] ++ cooldown r) /\
    rate_wait pre /\
    r = gemini_backend E (trace w ++ pre) sent /\
    match reply_result r with
    | Some text => o = Ok text /\ cooldown r = []
    | None => exists e, o = Raise e
    end.
Proof.
  cbv zeta. unfold generate_attempt.
  destruct (check_rate_limit_step w) as (w1 & pre & Hrl & Hstep & Hpre).
  unfold bind at 1. rewrite Hrl.
  unfold bind at 1, get_world.
  destruct Hstep as (Htr & Hfs & Hts & HMAX). rewrite HMAX.
  set (sent := payload_prompt (MAX_CHUNK_SIZE (gemini w)) p).
  unfold bind at 1, session_post. rewrite Htr.
  set (r := gemini_backend E (trace w ++ pre) sent).
  assert (client_step w (add_event (GeminiPost sent r) w1) (pre ++ [GeminiPost sent r]))
    as Hpost.
  { apply client_step_trans with w1; [by split_and!|apply client_step_add_event]. }
  destruct r as [|status body] eqn:Hr.
  - eexists _, _, pre, PostRaised. split; [reflexivity|].
    simpl. rewrite ?app_nil_r. split_and!; eauto.
  - unfold reply_result, cooldown.
    destruct (status =? 429) eqn:H429.
    + eexists _, _, pre, (Response status body). split; [reflexivity|].
      simpl. rewrite H429. simpl. split_and!; eauto.
      2:{ destruct body; eauto. }
      change (client_step w
                (snd (time_sleep 5 (add_event (GeminiPost sent (Response status body)) w1)))
                (pre ++ [GeminiPost sent (Response status body)] ++ [Sleep 5])).
      rewrite app_assoc.
      eapply client_step_trans; [exact Hpost | apply client_step_sleep].
    + destruct ((400 <=? status) && (status <? 600)) eqn:Herr.
      * eexists _, _, pre, (Response status body). split; [reflexivity|].
        simpl. rewrite H429, Herr, ?app_nil_r. split_and!; eauto.
        destruct body; simpl; eauto.
      * exists (match body with
                | Candidate text => Ok (Py.strip text)
                | NoCandidates => Raise EmptyResponse
                | _ => Raise MalformedResponse
                end),
               (add_event (GeminiPost sent (Response status body)) w1),
               pre, (Response status body).
        split; [by destruct body|].
        simpl. rewrite H429, Herr, ?app_nil_r.
        destruct body; simpl; split_and!; eauto.
Qed.

Lemma retrying_run p k : forall n w,
  (n + k = 3)%nat ->
  exists o w' evs,
    retrying (wait_exponential 1 4 10) k n (generate_attempt E p) w = (o, w') /\
    client_step w w' evs /\
    retry_run (payload_prompt (MAX_CHUNK_SIZE (gemini w)) p) n evs (returned o) /\
    (returned o = None -> o = Raise RetryError).
Proof.
  induction k as [|k IH]; intros n w Hn;
    destruct (attempt_step p w) as (o1 & w1 & pre & r & Hrun & Hstep & Hpre & _ & Hres);
    cbn [retrying]; unfold try_except; rewrite Hrun;
    destruct (reply_result r) as [text|] eqn:Hr.
  - destruct Hres as [-> Hcd]. rewrite Hcd, app_nil_r in Hstep.
    eexists _, _, _. split_and!; [reflexivity|exact Hstep| |done].
    by apply run_success.
  - destruct Hres as [e ->].
    eexists _, _, _. split_and!; [reflexivity|exact Hstep| |done].
    assert (n = 3%nat) as -> by lia. by apply run_exhausted.
  - destruct Hres as [-> Hcd]. rewrite Hcd, app_nil_r in Hstep.
    eexists _, _, _. split_and!; [reflexivity|exact Hstep| |done].
    by apply run_success.
  - destruct Hres as [e ->].
    unfold bind at 1.
    set (d := wait_exponential 1 4 10 n).
    pose proof (client_step_sleep w1 d) as Hsl.
    destruct (time_sleep d w1) as [[[]|e'] w2] eqn:Hs; [|discriminate Hs].
    simpl in Hsl.
    destruct (IH (S n) w2) as (o & w' & evs & Hrec & Hstep' & Hshape & Hexn); [lia|].
    rewrite Hrec.
    assert (MAX_CHUNK_SIZE (gemini w2) = MAX_CHUNK_SIZE (gemini w)) as HMAX.
    { destruct Hsl as (_ & _ & _ & ->). by destruct Hstep as (_ & _ & _ & ->). }
    rewrite HMAX in Hshape.
    exists o, w', ((pre ++ [GeminiPost (payload_prompt (MAX_CHUNK_SIZE (gemini w)) p) r]
                    ++ cooldown r) ++ [Sleep d] ++ evs).
    split_and!; [done| | |done].
    + eapply client_step_trans; [exact Hstep|].
      eapply client_step_trans; [exact Hsl|exact Hstep'].
    + rewrite <- !app_assoc.
      destruct (wait_exponential_bounds n).
      apply run_again; try done. lia.
Qed.

(** One decorated call: it always ends, with a text or with [RetryError],
    and its events have the shape of [retry_run] followed by the record of
    the call. *)
Lemma generate_spec p w :
  exists o w' evs,
    _generate_with_retry E p w = (o, w') /\
    client_step w w' (evs ++ [Generated p (returned o)]) /\
    retry_run (payload_prompt (MAX_CHUNK_SIZE (gemini w)) p) 1 evs (returned o) /\
    (returned o = None -> o = Raise RetryError).
Proof.
  destruct (retrying_run p 2 1 w) as (o & w1 & evs & Hrun & Hstep & Hshape & Hexn);
    [done|].
  unfold _generate_with_retry, retry. change (3 - 1)%nat with 2%nat. rewrite Hrun.
  destruct o as [text|e].
  - exists (Ok text), (add_event (Generated p (Some text)) w1), evs.
    split_and!; try done.
    eapply client_step_trans; [exact Hstep|apply client_step_add_event].
  - exists (Raise e), (add_event (Generated p None) w1), evs.
    split_and!; try done.
    eapply client_step_trans; [exact Hstep|apply client_step_add_event].
Qed.

End WithEnvironment.

(** Facts read off the shape of a run. *)




Lemma retry_run_sent sent n evs res :
  retry_run sent n evs res ->
  forall q r, GeminiPost q r ∈ evs -> q = sent.
Proof.
  assert (forall pre q r, rate_wait pre -> GeminiPost q r ∈ pre -> False) as Hrw.
  { intros pre q r [->|(d & _ & ->)] Hin; set_solver. }
  assert (forall r0 q r, GeminiPost q r ∈ cooldown r0 -> False) as Hcd.
  { intros [|s b] q r; simpl; [set_solver|]. destruct (s =? 429); set_solver. }
  induction 1; intros q r0 Hin;
    repeat (apply elem_of_app in Hin as [Hin|Hin]);
    try (exfalso; eauto; fail); try set_solver.
Qed.

Lemma retry_run_client_events sent n evs res :
  retry_run sent n evs res -> forallb is_client_event evs = true.
Proof.
  assert (forall pre, rate_wait pre -> forallb is_client_event pre = true) as Hrw.
  { by intros pre [->|(d & _ & ->)]. }
  assert (forall r, forallb is_client_event (cooldown r) = true) as Hcd.
  { intros [|s b]; [done|]. simpl. by destruct (s =? 429). }
  induction 1; rewrite ?forallb_app; simpl;
    rewrite ?Hrw, ?Hcd by done; simpl; auto.
Qed.

End ClientFacts.


(** C10. For every prompt longer than [MAX_CHUNK_SIZE], the decorated
    [_generate_with_retry] puts only the first chunk [c0] of the chunker's
    result for that prompt in every post: the prompt is [c0] and the other
    chunks joined by newlines, and the other chunks never reach the
    backend.  Nothing is reported about it: the call proceeds as the usual
    run of attempts on [c0] and returns whatever the backend answers to
    [c0].  When the prompt has a newline -- as every summarisation,
    chat-summary and validation-summary prompt has -- there are other
    chunks and [c0] is strictly shorter than the prompt. *)
Theorem generate_sends_first_chunk (E : environment) (prompt : string) (w : world) :
  MAX_CHUNK_SIZE (gemini w) < Py.len prompt ->
  exists c0 rest o w' evs,
    Chunker._chunk_content (MAX_CHUNK_SIZE (gemini w)) prompt = c0 :: rest /\
    prompt = Py.join Py.nl (c0 :: rest) /\
    _generate_with_retry E prompt w = (o, w') /\
    trace w' = trace w ++ evs ++ [Generated prompt (returned o)] /\
    (forall q r, GeminiPost q r ∈ evs -> q = c0) /\
    retry_run c0 1 evs (returned o) /\
    (Py.contains Py.newline prompt = true ->
       rest <> [] /\
       prompt = c0 +:+ Py.nl +:+ Py.join Py.nl rest /\
       Py.len c0 < Py.len prompt) /\
    (forall chunk, Py.contains Py.newline (single_prompt chunk) = true) /\
    (forall i n chunk, Py.contains Py.newline (part_prompt i n chunk) = true) /\
    (forall instruction text meeting_time,
       Py.contains Py.newline (chat_prompt instruction text meeting_time) = true).
Proof.
  intros Hlen. set (MAX := MAX_CHUNK_SIZE (gemini w)) in *.
  destruct (chunk_content_roundtrip_aux MAX prompt) as [Hne Hjoin].
  destruct (Chunker._chunk_content MAX prompt) as [|c0 rest] eqn:Hch; [done|].
  assert (payload_prompt MAX prompt = c0) as Hsent.
  { unfold payload_prompt. rewrite Hch. destruct rest; [|done]. by simpl in Hjoin. }
  destruct (ClientFacts.generate_spec E prompt w)
    as (o & w' & evs & Hrun & Hstep & Hshape & _).
  fold MAX in Hshape. rewrite Hsent in Hshape.
  assert (forall chunk, Py.contains Py.newline (single_prompt chunk) = true) as H1.
  { intros chunk. unfold single_prompt. apply ChunkerFacts.contains_nl_mid. }
  assert (forall i n chunk, Py.contains Py.newline (part_prompt i n chunk) = true) as H2.
  { intros i n chunk. unfold part_prompt.
    rewrite ChunkerFacts.contains_app. apply orb_true_iff. right.
    apply (ChunkerFacts.contains_nl_mid ""). }
  assert (forall instruction text meeting_time,
            Py.contains Py.newline (chat_prompt instruction text meeting_time) = true) as H3.
  { intros instruction text mt. unfold chat_prompt.
    apply ChunkerFacts.contains_nl_mid. }
  assert (Py.contains Py.newline prompt = true ->
          rest <> [] /\ prompt = c0 +:+ Py.nl +:+ Py.join Py.nl rest /\
          Py.len c0 < Py.len prompt) as H4.
  { intros Hnl.
    destruct (ChunkerFacts.chunk_many MAX prompt Hlen Hnl) as (c0' & c1 & rest' & Hch').
    rewrite Hch in Hch'. injection Hch' as Hc0 Hrest. subst c0' rest.
    assert (prompt = c0 +:+ Py.nl +:+ Py.join Py.nl (c1 :: rest')) as Hp.
    { by rewrite <- Hjoin at 1. }
    split_and!; [done|exact Hp|].
    rewrite Hp at 1. rewrite !PyFacts.len_app, PyFacts.len_nl.
    pose proof (PyFacts.len_nonneg (Py.join Py.nl (c1 :: rest'))). lia. }
  exists c0, rest, o, w', evs. split_and!; try done.
  - by destruct Hstep as [-> _].
  - by apply ClientFacts.retry_run_sent with (n := 1%nat) (res := returned o).
Qed.

(** With the limit of 30000 and a 29990-character transcript the summary
    prompt is over the limit and is cut. *)
Lemma generate_sends_first_chunk_witness :
  exists c0 rest,
    Chunker._chunk_content 30000 (single_prompt near_limit_text) = c0 :: rest /\
    rest <> [] /\
    Py.len c0 < Py.len (single_prompt near_limit_text).
Proof.
  destruct (generate_sends_first_chunk quiet_environment
              (single_prompt near_limit_text) (limiter_world 0 0 0))
    as (c0 & rest & o & w' & evs & Hch & _ & _ & _ & _ & _ & Hcut & Hnl & _).
  - vm_compute. reflexivity.
  - exists c0, rest. split; [exact Hch|].
    destruct (Hcut (Hnl near_limit_text)) as (Hrest & _ & Hlen).
    split; [exact Hrest | exact Hlen].
Defined.

Example summary_prompt_cut :
  payload_prompt 30000 (single_prompt near_limit_text)
  = summary_instruction +:+ Py.nl +:+ Py.nl +:+ "Transcript:".
Proof. vm_compute. reflexivity. Qed.

(** ** Classification and summarisation *)

Module OperationFacts.
Import ClientFacts.

Lemma calls_app e1 e2 : calls (e1 ++ e2) = calls e1 ++ calls e2.
Proof.
  induction e1 as [|e e1 IH]; [done|]. destruct e; simpl; by rewrite ?IH.
Qed.

Lemma retry_run_calls sent n evs res : retry_run sent n evs res -> calls evs = [].
Proof.
  assert (forall pre, rate_wait pre -> calls pre = []) as Hrw.
  { by intros pre [->|(d & _ & ->)]. }
  assert (forall r, calls (cooldown r) = []) as Hcd.
  { intros [|s b]; [done|]. simpl. by destruct (s =? 429). }
  induction 1; rewrite ?calls_app; simpl; rewrite ?Hrw, ?Hcd by done; simpl; auto.
Qed.

Section WithEnvironment.
Variable E : environment.

(** One decorated call, as the operations see it. *)
Lemma generate_call p w :
  exists o w' evs,
    _generate_with_retry E p w = (o, w') /\
    client_step w w' evs /\
    forallb is_client_event evs = true /\
    calls evs = [(p, returned o)] /\
    (exists evs', evs = evs' ++ [Generated p (returned o)]).
Proof.
  destruct (generate_spec E p w) as (o & w' & evs & Hrun & Hstep & Hshape & _).
  exists o, w', (evs ++ [Generated p (returned o)]). split_and!; eauto.
  - rewrite forallb_app, (retry_run_client_events _ _ _ _ Hshape). done.
  - rewrite calls_app, (retry_run_calls _ _ _ _ Hshape). done.
Qed.

Lemma label_of_valid res : label_of res ∈ valid_categories.
Proof.
  destruct res as [r|]; simpl.
  - case_bool_decide; [done|]. unfold valid_categories. set_solver.
  - unfold valid_categories. set_solver.
Qed.

Lemma determine_spec text name w :
  exists w' evs p res,
    determine_meeting_type E text name w = (Ok (label_of res), w') /\
    client_step w w' evs /\
    forallb is_client_event evs = true /\
    calls evs = [(p, res)].
Proof.
  unfold determine_meeting_type, try_except, bind at 1, get_world.
  pose proof (proj1 (chunk_content_roundtrip_aux (MAX_CHUNK_SIZE (gemini w)) text)) as Hne.
  destruct (Chunker._chunk_content (MAX_CHUNK_SIZE (gemini w)) text)
    as [|content_chunk rest]; [done|].
  match goal with |- context [_generate_with_retry E ?p] => set (prompt := p) end.
  destruct (generate_call prompt w) as (o & w' & evs & Hrun & Hstep & Hev & Hcalls & _).
  unfold bind. rewrite Hrun.
  exists w', evs, prompt, (returned o). destruct o as [r|e]; simpl; by split_and!.
Qed.

End WithEnvironment.
End OperationFacts.

(** C7. [determine_meeting_type] is total: for every transcript text,
    every optional document name, every state and every backend it returns
    (never raises) one of the seven labels.  The label is the stripped
    text its single call of the client returned when that text is one of
    the seven, and [Other] for any other text and for a call that raised
    (retry exhaustion included). *)
Theorem determine_meeting_type_total (E : environment) (transcript_text : string)
    (document_name : option string) (w : world) :
  exists label w' evs prompt res,
    determine_meeting_type E transcript_text document_name w = (Ok label, w') /\
    label ∈ valid_categories /\
    length valid_categories = 7%nat /\
    trace w' = trace w ++ evs /\
    calls evs = [(prompt, res)] /\
    label = match res with
            | Some r => if bool_decide (r ∈ valid_categories) then r else "Other"
            | None => "Other"
            end.
Proof.
  destruct (OperationFacts.determine_spec E transcript_text document_name w)
    as (w' & evs & p & res & Hrun & Hstep & _ & Hcalls).
  exists (label_of res), w', evs, p, res.
  split_and!; try done.
  - apply OperationFacts.label_of_valid.
  - by destruct Hstep as [-> _].
Qed.

Module SummaryFacts.
Import ClientFacts OperationFacts.

Lemma enumerate_from_length {A} (xs : list A) i :
  length (enumerate_from i xs) = length xs.
Proof. revert i. induction xs as [|x xs IH]; intros i; simpl; [done|]. by rewrite IH. Qed.

Section WithEnvironment.
Variable E : environment.

(** The loop over the chunks: it stops at the first call that raises;
    otherwise it keeps the non-empty results in order. *)
Lemma summarize_parts_spec n parts : forall acc w,
  exists o w' evs results,
    summarize_parts E n parts acc w = (o, w') /\
    client_step w w' evs /\
    forallb is_client_event evs = true /\
    match o with
    | Ok summaries =>
        length results = length parts /\
        calls evs = part_calls n parts results /\
        summaries = acc ++ kept results
    | Raise _ =>
        exists i chunk,
          parts !! length results = Some (i, chunk) /\
          calls evs = part_calls n parts results ++ [(part_prompt i n chunk, None)]
    end.
Proof.
  induction parts as [|[i chunk] parts IH]; intros acc w.
  - exists (Ok acc), w, [], []. simpl. unfold ret.
    split_and!; try done; [apply client_step_refl | by rewrite app_nil_r].
  - cbn [summarize_parts]. unfold bind at 1.
    destruct (generate_call E (part_prompt i n chunk) w)
      as (o1 & w1 & e1 & Hrun & Hstep & Hev & Hcalls & _).
    rewrite Hrun. destruct o1 as [summary|e].
    + destruct (IH (if Py.truthy summary then acc ++ [summary] else acc) w1)
        as (o & w' & e2 & results & Hrec & Hstep' & Hev' & Hres).
      exists o, w', (e1 ++ e2), (summary :: results).
      split_and!; [done | by eapply client_step_trans
                   | by rewrite forallb_app, Hev, Hev' |].
      rewrite calls_app, Hcalls. destruct o as [summaries|e].
      * destruct Hres as (Hlen & Hc & ->). simpl. split_and!.
        -- by rewrite Hlen.
        -- unfold part_calls in *. simpl. by rewrite Hc.
        -- unfold kept. simpl. destruct (Py.truthy summary); [|done].
           by rewrite <- app_assoc.
      * destruct Hres as (i' & c' & Hlk & Hc). exists i', c'. simpl. split; [done|].
        unfold part_calls in *. simpl. by rewrite Hc.
    + exists (Raise e), w1, e1, []. split_and!; try done.
      exists i, chunk. by rewrite Hcalls.
Qed.

Lemma summarize_spec text w :
  exists v w' evs,
    summarize_transcript E text w = (Ok v, w') /\
    client_step w w' evs /\
    forallb is_client_event evs = true /\
    let chunks := Chunker._chunk_content (MAX_CHUNK_SIZE (gemini w)) text in
    let n := length chunks in
    match chunks with
    | [chunk] => calls evs = [(single_prompt chunk, v)]
    | _ =>
        exists results,
          let made := part_calls n (enumerate chunks) results in
          (exists i chunk,
             enumerate chunks !! length results = Some (i, chunk) /\
             calls evs = made ++ [(part_prompt i n chunk, None)] /\ v = None)
          \/ (length results = n /\ kept results = [] /\
              calls evs = made /\ v = None)
          \/ (length results = n /\ kept results <> [] /\
              calls evs = made ++ [(combined_prompt (kept results), v)])
    end.
Proof.
  cbv zeta. unfold summarize_transcript, try_except, bind at 1, get_world.
  set (chunks := Chunker._chunk_content (MAX_CHUNK_SIZE (gemini w)) text).
  assert (forall w0,
    exists v w' evs,
      (let (o, w1) :=
         (summaries <- summarize_parts E (length chunks) (enumerate chunks) [] ;;
          if Chunker.nonempty summaries
          then text0 <- _generate_with_retry E (combined_prompt summaries) ;;
               ret (Some text0)
          else ret None) w0 in
       match o with Ok a => (Ok a, w1) | Raise _ => ret None w1 end) = (Ok v, w') /\
      client_step w0 w' evs /\ forallb is_client_event evs = true /\
      exists results,
        (exists i chunk,
           enumerate chunks !! length results = Some (i, chunk) /\
           calls evs = part_calls (length chunks) (enumerate chunks) results
                       ++ [(part_prompt i (length chunks) chunk, None)] /\ v = None)
        \/ (length results = length chunks /\ kept results = [] /\
            calls evs = part_calls (length chunks) (enumerate chunks) results /\ v = None)
        \/ (length results = length chunks /\ kept results <> [] /\
            calls evs = part_calls (length chunks) (enumerate chunks) results
                        ++ [(combined_prompt (kept results), v)])) as Hmulti.
  { intros w0. unfold bind at 1.
    destruct (summarize_parts_spec (length chunks) (enumerate chunks) [] w0)
      as (o & w1 & e1 & results & Hrun & Hstep & Hev & Hres).
    rewrite Hrun. destruct o as [summaries|e].
    - destruct Hres as (Hlen & Hc & ->). rewrite !app_nil_l.
      unfold enumerate in Hlen. rewrite enumerate_from_length in Hlen.
      destruct (kept results) as [|s ss] eqn:Hk; cbn [Chunker.nonempty].
      + exists None, w1, e1. unfold ret. split_and!; try done.
        exists results. right; left. by split_and!.
      + unfold bind at 1.
        destruct (generate_call E (combined_prompt (s :: ss)) w1)
          as (o2 & w2 & e2 & Hrun2 & Hstep2 & Hev2 & Hcalls2 & _).
        rewrite Hrun2.
        exists (returned o2), w2, (e1 ++ e2).
        split_and!; [by destruct o2 | by eapply client_step_trans
                     | by rewrite forallb_app, Hev, Hev2 |].
        exists results. right; right. rewrite Hk. split_and!; try done.
        by rewrite calls_app, Hc, Hcalls2.
    - destruct Hres as (i & chunk & Hlk & Hc).
      exists None, w1, e1. unfold ret. split_and!; try done.
      exists results. left. exists i, chunk. by split_and!. }
  destruct chunks as [|chunk [|chunk2 rest]] eqn:Hch.
  - apply Hmulti.
  - unfold bind at 1.
    destruct (generate_call E (single_prompt chunk) w)
      as (o & w' & evs & Hrun & Hstep & Hev & Hcalls & _).
    rewrite Hrun. exists (returned o), w', evs.
    split_and!; try done. by destruct o.
  - apply Hmulti.
Qed.

End WithEnvironment.
End SummaryFacts.

(** C6, as the code has it.  [summarize_transcript] never raises.  On a
    text the chunker returns as one chunk it makes one call of the client,
    with the single-chunk prompt, and returns that call's result ([None]
    when the call raised).  On a text of several chunks it calls the
    client once per chunk, in order, until a call raises: after a call
    that raised it makes no further call and returns [None]; when all
    chunk calls returned but every chunk summary is empty it makes no
    merge call and returns [None]; otherwise it makes one more call, with
    the prompt that combines the non-empty chunk summaries, and returns
    that call's result -- the stripped merge text, empty when the merge
    output is blank, or [None] when the merge call raised. *)
Theorem summarize_transcript_calls (E : environment) (transcript_text : string)
    (w : world) :
  exists v w' evs,
    summarize_transcript E transcript_text w = (Ok v, w') /\
    trace w' = trace w ++ evs /\
    let chunks := Chunker._chunk_content (MAX_CHUNK_SIZE (gemini w)) transcript_text in
    let n := length chunks in
    match chunks with
    | [chunk] => calls evs = [(single_prompt chunk, v)]
    | _ =>
        exists results,
          let made := part_calls n (enumerate chunks) results in
          (exists i chunk,
             enumerate chunks !! length results = Some (i, chunk) /\
             calls evs = made ++ [(part_prompt i n chunk, None)] /\ v = None)
          \/ (length results = n /\ kept results = [] /\
              calls evs = made /\ v = None)
          \/ (length results = n /\ kept results <> [] /\
              calls evs = made ++ [(combined_prompt (kept results), v)])
    end.
Proof.
  destruct (SummaryFacts.summarize_spec E transcript_text w)
    as (v & w' & evs & Hrun & Hstep & _ & Hcalls).
  exists v, w', evs. split_and!; [done | by destruct Hstep as [-> _] | exact Hcalls].
Qed.

(** C6 as stated fails: with the backend down, a text of two chunks gets
    one call only (three failed attempts for the first chunk), no call
    for the second chunk and no merge call. *)
Lemma summarize_transcript_stops_at_failure :
  length (Chunker._chunk_content 30000 two_chunk_text) = 2%nat /\
  fst (summarize_transcript down_environment two_chunk_text (limiter_world 0 0 0))
    = Ok None /\
  map (fun c => (String.eqb (fst c) (part_prompt 0 2 near_limit_text), snd c))
      (calls (trace (snd (summarize_transcript down_environment two_chunk_text
                            (limiter_world 0 0 0)))))
    = [(true, None)].
Proof. split_and!; vm_compute; reflexivity. Qed.

(** ** The store adapter *)

Module DriveFacts.

(** Closes the part of a specification that says how a run went: the
    equation of the run, its events and the untouched title set. *)
Ltac ran :=
  split; [reflexivity|];
  split; [simpl; rewrite <- ?app_assoc; reflexivity|];
  split; [done|].

Section WithEnvironment.
Variable E : environment.

Lemma execute_cases {A B} request (look : list drive_file -> option B)
    (g : B -> list drive_file -> A * list drive_file) w :
  (exists b,
     look (drive_files w) = Some b /\
     drive_fault E (trace w) request = false /\
     execute E request (fun fs => option_map (fun b => g b fs) (look fs)) w
       = (Ok (fst (g b (drive_files w))), served w request (snd (g b (drive_files w)))))
  \/ (exists e,
        execute E request (fun fs => option_map (fun b => g b fs) (look fs)) w
          = (Raise e, add_event (Drive request false) w)).
Proof.
  unfold execute. destruct (drive_fault E (trace w) request); [right; eauto|].
  destruct (look (drive_files w)) as [b|]; simpl; [|right; eauto].
  left. exists b. split_and!; try done. by destruct (g b (drive_files w)).
Qed.

Lemma files_get_cases fileId fields w :
  (exists f,
     lookup_file fileId (drive_files w) = Some f /\
     files_get E fileId fields w
       = (Ok f, served w (FilesGet fileId fields) (drive_files w)))
  \/ (exists e,
        files_get E fileId fields w
          = (Raise e, add_event (Drive (FilesGet fileId fields) false) w) /\
        (drive_fault E (trace w) (FilesGet fileId fields) = true \/
         lookup_file fileId (drive_files w) = None)).
Proof.
  unfold files_get, execute.
  destruct (drive_fault E (trace w) (FilesGet fileId fields)); [right; eauto|].
  destruct (lookup_file fileId (drive_files w)) as [f|]; simpl; [left|right]; eauto.
Qed.

Lemma files_export_cases fileId w :
  (exists f,
     lookup_file fileId (drive_files w) = Some f /\
     files_export E fileId w
       = (Ok (exported_text f), served w (FilesExport fileId) (drive_files w)))
  \/ (exists e,
        files_export E fileId w
          = (Raise e, add_event (Drive (FilesExport fileId) false) w)).
Proof.
  unfold files_export.
  destruct (execute_cases (A := string) (FilesExport fileId) (lookup_file fileId)
              (fun f fs => (exported_text f, fs)) w) as [(f & Hl & _ & Hrun)|[e Hrun]];
    [left; exists f|right; exists e]; by rewrite ?Hrun.
Qed.

Lemma docs_get_cases documentId w :
  (exists f,
     lookup_file documentId (drive_files w) = Some f /\
     docs_get E documentId w
       = (Ok (body_content f), served w (DocsGet documentId) (drive_files w)))
  \/ (exists e,
        docs_get E documentId w
          = (Raise e, add_event (Drive (DocsGet documentId) false) w)).
Proof.
  unfold docs_get.
  destruct (execute_cases (A := list structural_element) (DocsGet documentId)
              (lookup_file documentId)
              (fun f fs => (body_content f, fs)) w) as [(f & Hl & _ & Hrun)|[e Hrun]];
    [left; exists f|right; exists e]; by rewrite ?Hrun.
Qed.

Lemma docs_insert_text_cases documentId index text w :
  (exists f,
     lookup_file documentId (drive_files w) = Some f /\
     docs_insert_text E documentId index text w
       = (Ok tt, served w (DocsInsertText documentId index text)
                   (update_file documentId (with_document (docs_insert E f index text))
                                (drive_files w))))
  \/ (exists e,
        docs_insert_text E documentId index text w
          = (Raise e, add_event (Drive (DocsInsertText documentId index text) false) w)).
Proof.
  unfold docs_insert_text.
  destruct (execute_cases (A := unit) (DocsInsertText documentId index text)
              (lookup_file documentId)
              (fun f fs => (tt, update_file documentId
                                  (with_document (docs_insert E f index text)) fs)) w)
    as [(f & Hl & _ & Hrun)|[e Hrun]];
    [left; exists f|right; exists e]; by rewrite ?Hrun.
Qed.

Lemma files_update_property_cases fileId key value w :
  (exists f,
     lookup_file fileId (drive_files w) = Some f /\
     files_update_property E fileId key value w
       = (Ok tt, served w (FilesUpdateProperties fileId key value)
                   (update_file fileId (with_property key value) (drive_files w))))
  \/ (exists e,
        files_update_property E fileId key value w
          = (Raise e, add_event (Drive (FilesUpdateProperties fileId key value) false) w)).
Proof.
  unfold files_update_property.
  destruct (execute_cases (A := unit) (FilesUpdateProperties fileId key value)
              (lookup_file fileId)
              (fun _ fs => (tt, update_file fileId (with_property key value) fs)) w)
    as [(f & Hl & _ & Hrun)|[e Hrun]];
    [left; exists f|right; exists e]; by rewrite ?Hrun.
Qed.

Lemma files_copy_cases fileId name parent w :
  (exists c,
     files_copy E fileId name parent w
       = (Ok tt, served w (FilesCopy fileId name parent) (drive_files w ++ [c])))
  \/ (exists e,
        files_copy E fileId name parent w
          = (Raise e, add_event (Drive (FilesCopy fileId name parent) false) w)).
Proof.
  unfold files_copy.
  match goal with |- context [execute E ?r (fun fs => option_map (fun f => @?g f fs) _)] =>
    destruct (execute_cases (A := unit) r (lookup_file fileId) g w)
      as [(f & Hl & _ & Hrun)|[e Hrun]]
  end.
  - left. eexists. rewrite Hrun. reflexivity.
  - right. exists e. by rewrite Hrun.
Qed.

Lemma files_list_cases q token page w :
  (exists p,
     page = Some p /\
     files_list E q token page w = (Ok p, served w (FilesList q token) (drive_files w)))
  \/ (exists e,
        files_list E q token page w
          = (Raise e, add_event (Drive (FilesList q token) false) w)).
Proof.
  unfold files_list.
  destruct (execute_cases (A := list drive_file) (FilesList q token) (fun _ => page)
              (fun p fs => (p, fs)) w) as [(p & Hl & _ & Hrun)|[e Hrun]];
    [left; exists p|right; exists e]; by rewrite ?Hrun.
Qed.

Lemma has_been_processed_cases fileId w :
  (exists f,
     lookup_file fileId (drive_files w) = Some f /\
     has_been_processed E fileId w
       = (Ok (bool_decide (flagged f)),
          served w (FilesGet fileId "properties") (drive_files w)))
  \/ has_been_processed E fileId w
       = (Ok false, add_event (Drive (FilesGet fileId "properties") false) w).
Proof.
  unfold has_been_processed, try_except, bind.
  destruct (files_get_cases fileId "properties" w) as [(f & Hl & Hrun)|(e & Hrun & _)];
    rewrite Hrun; [left; exists f|right]; done.
Qed.

Lemma verify_folder_access_cases folder_id w :
  let request := FilesGet folder_id "id, name, driveId, capabilities" in
  verify_folder_access E folder_id w = (Ok true, served w request (drive_files w))
  \/ verify_folder_access E folder_id w = (Ok false, add_event (Drive request false) w).
Proof.
  cbv zeta. unfold verify_folder_access, try_except, bind.
  destruct (files_get_cases folder_id "id, name, driveId, capabilities" w)
    as [(f & Hl & Hrun)|(e & Hrun & _)]; rewrite Hrun; [left|right]; done.
Qed.

Lemma copy_file_spec fileId folder_id w :
  exists b w' evs,
    copy_file E fileId folder_id w = (Ok b, w') /\
    trace w' = trace w ++ evs /\
    processed_titles w' = processed_titles w /\
    if b then
      exists mid name c,
        evs = mid ++ [Drive (FilesCopy fileId name folder_id) true] /\
        forallb quiet mid = true /\
        drive_files w' = drive_files w ++ [c]
    else forallb calm evs = true /\ drive_files w' = drive_files w.
Proof.
  unfold copy_file, try_except. unfold bind at 1.
  destruct (verify_folder_access_cases folder_id w) as [Hv|Hv]; rewrite Hv; cbn [negb].
  - set (w1 := served w _ _). unfold bind at 1.
    destruct (files_get_cases fileId "name, driveId" w1)
      as [(f & Hl & Hrun)|(e & Hrun & _)]; rewrite Hrun.
    + set (w2 := served w1 _ _). unfold bind at 1.
      destruct (files_copy_cases fileId (file_name f) folder_id w2) as [[c Hc]|[e Hc]];
        rewrite Hc.
      * eexists true, _, _. ran.
        eexists [_; _], (file_name f), c. by split_and!.
      * eexists false, _, _. ran. by split.
    + eexists false, _, _. ran. by split.
  - eexists false, _, [_]. ran. by split.
Qed.

End WithEnvironment.

(** Facts about the store under marking. *)

Lemma flagged_with_property f : flagged (with_property PROCESSED_PROPERTY "true" f).
Proof. unfold flagged. simpl. apply lookup_insert_eq. Qed.

Lemma with_property_twice f :
  with_property PROCESSED_PROPERTY "true" (with_property PROCESSED_PROPERTY "true" f)
  = with_property PROCESSED_PROPERTY "true" f.
Proof. unfold with_property. simpl. by rewrite insert_insert_eq. Qed.

Lemma flag_set_refl f : flag_set f f.
Proof. by left. Qed.

Lemma flag_set_trans f1 f2 f3 : flag_set f1 f2 -> flag_set f2 f3 -> flag_set f1 f3.
Proof.
  intros [-> | ->] [-> | ->]; try (by left); try (by right).
  right. apply with_property_twice.
Qed.

Lemma flag_set_keeps f f' :
  flag_set f f' ->
  file_id f' = file_id f /\ file_name f' = file_name f /\
  mimeType f' = mimeType f /\ trashed f' = trashed f /\
  (flagged f -> flagged f').
Proof.
  intros [-> | ->]; [done|]. split_and!; try done.
  intros _. apply flagged_with_property.
Qed.

Lemma marks_only_refl fs : marks_only fs fs.
Proof. apply Forall2_same_length_lookup_2; [done|]. intros i x y ? ?. left. congruence. Qed.

Lemma marks_only_trans fs1 fs2 fs3 :
  marks_only fs1 fs2 -> marks_only fs2 fs3 -> marks_only fs1 fs3.
Proof.
  unfold marks_only. intros H12. revert fs3.
  induction H12 as [|f1 f2 fs1 fs2 Hf H12 IH]; intros fs3 H23.
  - by inversion H23.
  - inversion H23 as [|? f3 ? fs3' Hf' H23']; subst.
    constructor; [by eapply flag_set_trans|auto].
Qed.

Lemma marks_only_update fileId fs :
  marks_only fs (update_file fileId (with_property PROCESSED_PROPERTY "true") fs).
Proof.
  unfold marks_only, update_file. induction fs as [|f fs IH]; simpl; constructor; [|done].
  destruct (String.eqb (file_id f) fileId); [by right|by left].
Qed.

Lemma update_file_flagged fileId fs f :
  f ∈ update_file fileId (with_property PROCESSED_PROPERTY "true") fs ->
  file_id f = fileId -> flagged f.
Proof.
  unfold update_file. intros Hf. apply list_elem_of_fmap in Hf as (f0 & -> & Hin).
  destruct (String.eqb (file_id f0) fileId) eqn:Heq.
  - intros _. apply flagged_with_property.
  - intros Hid. apply String.eqb_neq in Heq. done.
Qed.

Lemma marks_only_elem fs fs' f' :
  marks_only fs fs' -> f' ∈ fs' -> exists f, f ∈ fs /\ flag_set f f'.
Proof.
  induction 1 as [|f g fs fs' Hf H IH]; intros Hin; [by apply elem_of_nil in Hin|].
  apply elem_of_cons in Hin as [->|Hin].
  - exists f. split; [by left|done].
  - destruct (IH Hin) as (f0 & Hin0 & Hfs). exists f0. split; [by right|done].
Qed.

Lemma concat_pages_go {A} bound pageSize (l : list A) :
  concat (pages_go bound pageSize l) = l.
Proof.
  revert l. induction bound as [|bound IH]; intros l; simpl.
  - apply app_nil_r.
  - destruct (length l <=? pageSize)%nat; simpl; [apply app_nil_r|].
    rewrite IH. apply take_drop.
Qed.

Lemma title_literal_unescape title :
  Py.contains backslash title = false ->
  drive_unescape (title_literal title) = Some title.
Proof.
  unfold title_literal. induction title as [|c title IH]; [done|].
  cbn [Py.contains Py.replace_char]. intros [Hc Hrest]%orb_false_iff.
  specialize (IH Hrest).
  destruct (Ascii.eqb c quote) eqn:Hq.
  - apply Ascii.eqb_eq in Hq. subst c.
    rewrite !PyFacts.app_cons, PyFacts.app_empty_l.
    cbn [drive_unescape]. change (Ascii.eqb backslash backslash) with true.
    change (Ascii.eqb quote quote || Ascii.eqb quote backslash) with true.
    cbv iota. by rewrite IH.
  - cbn [drive_unescape]. rewrite Hc, Hq. by rewrite IH.
Qed.

End DriveFacts.

(** ** The pipeline *)

Module PipelineFacts.
Import ClientFacts OperationFacts SummaryFacts DriveFacts.

Lemma forallb_impl {A} (P Q : A -> bool) (l : list A) :
  (forall a, P a = true -> Q a = true) -> forallb P l = true -> forallb Q l = true.
Proof.
  intros HPQ. induction l as [|a l IH]; [done|]. simpl.
  rewrite !andb_true_iff. intros [Ha Hl]. auto.
Qed.

Lemma client_event_quiet e : is_client_event e = true -> quiet e = true.
Proof. by destruct e. Qed.

Lemma quiet_calm e : quiet e = true -> calm e = true.
Proof. unfold quiet. by intros [H _]%andb_true_iff. Qed.

Lemma client_event_notifying e : is_client_event e = true -> notifying e = true.
Proof. unfold notifying. by intros ->. Qed.

Lemma chat_notifying e : is_chat e = true -> notifying e = true.
Proof. unfold notifying. intros ->. by rewrite orb_true_r. Qed.

Section WithEnvironment.
Variable E : environment.
Variable A : apis.

Lemma chat_summary_step instruction text meeting_time w :
  exists v w' evs,
    try_except
      (result <- _generate_with_retry E (chat_prompt instruction text meeting_time) ;;
       ret (if Py.truthy result then Some (Py.strip result) else None))
      (fun _ => ret None) w = (Ok v, w') /\
    client_step w w' evs /\ forallb is_client_event evs = true.
Proof.
  unfold try_except, bind.
  destruct (generate_call E (chat_prompt instruction text meeting_time) w)
    as (o & w' & evs & Hrun & Hstep & Hev & _).
  rewrite Hrun. destruct o as [r|e]; eexists _, w', evs; by split_and!.
Qed.

Lemma send_spec api meetings w :
  exists b w' evs,
    send_daily_meeting_summary E api meetings w = (Ok b, w') /\
    trace w' = trace w ++ evs /\
    processed_titles w' = processed_titles w /\
    forallb is_chat evs = true /\
    drive_files w' = drive_files w.
Proof.
  unfold send_daily_meeting_summary, try_except.
  destruct (Chunker.nonempty meetings); cbn [negb].
  - unfold bind at 1, time_time. unfold bind, webhook_post.
    destruct (chat_backend E (trace w) (webhook_url api) _) eqn:Hreply;
      eexists _, _, [_]; ran; by split.
  - exists true, w, []. unfold ret. rewrite app_nil_r. by split_and!.
Qed.

Lemma notify_spec meeting_type file_name content w :
  exists w' evs,
    notify E A meeting_type file_name content w = (Ok tt, w') /\
    trace w' = trace w ++ evs /\
    processed_titles w' = processed_titles w /\
    forallb notifying evs = true /\
    drive_files w' = drive_files w.
Proof.
  assert (forall instruction api,
    exists w' evs,
      (summary <- try_except
          (result <- _generate_with_retry E
                       (chat_prompt instruction content (meeting_time_of file_name)) ;;
           ret (if Py.truthy result then Some (Py.strip result) else None))
          (fun _ => ret None) ;;
       match summary with
       | Some text =>
           if Py.truthy text
           then send_daily_meeting_summary E api [(file_name, text)] ;; ret tt
           else ret tt
       | None => ret tt
       end) w = (Ok tt, w') /\
      trace w' = trace w ++ evs /\
      processed_titles w' = processed_titles w /\
      forallb notifying evs = true /\
      drive_files w' = drive_files w) as Hgen.
  { intros instruction api. unfold bind at 1.
    destruct (chat_summary_step instruction content (meeting_time_of file_name) w)
      as (v & w1 & e1 & Hrun & (Htr & Hfs & Hts & _) & Hev).
    rewrite Hrun.
    apply (forallb_impl _ notifying _ client_event_notifying) in Hev.
    destruct v as [text|]; [destruct (Py.truthy text)|];
      try (exists w1, e1; unfold ret; by split_and!).
    unfold bind.
    destruct (send_spec api [(file_name, text)] w1)
      as (b & w2 & e2 & Hsend & Htr2 & Hts2 & Hev2 & Hfs2).
    rewrite Hsend. exists w2, (e1 ++ e2). unfold ret. split_and!; try congruence.
    - by rewrite Htr2, Htr, app_assoc.
    - rewrite forallb_app, Hev.
      by rewrite (forallb_impl _ notifying _ chat_notifying Hev2). }
  unfold notify.
  destruct (String.eqb meeting_type "Daily Team Meeting");
    [apply (Hgen (chat_summary_instruction E) (chat_api A))|].
  destruct (String.eqb meeting_type "User Research Meeting"
            || String.eqb meeting_type "Product Development Meeting");
    [apply (Hgen (validation_summary_instruction E) (validation_chat_api A))|].
  exists w, []. unfold ret. rewrite app_nil_r. by split_and!.
Qed.

Lemma append_summary_spec fileId doc_summary w :
  exists b w' evs,
    append_summary E fileId doc_summary w = (Ok b, w') /\
    trace w' = trace w ++ evs /\
    processed_titles w' = processed_titles w /\
    if b then
      exists pre index,
        evs = pre ++ [Drive (DocsInsertText fileId index (summary_text doc_summary)) true] /\
        forallb quiet pre = true /\
        flags (drive_files w') = flags (drive_files w)
    else forallb calm evs = true /\ drive_files w' = drive_files w.
Proof.
  unfold append_summary, try_except. unfold bind at 1.
  destruct (docs_get_cases E fileId w) as [(f & Hl & Hrun)|[e Hrun]]; rewrite Hrun.
  - set (w1 := served w _ _). unfold bind at 1.
    destruct (docs_insert_text_cases E fileId (end_index_of (body_content f) - 1)
                (summary_text doc_summary) w1) as [(f' & Hl' & Hins)|[e Hins]];
      rewrite Hins.
    + eexists true, _, _. ran. eexists [_], _. split_and!; try done.
      simpl. unfold flags, update_file. rewrite map_map. apply map_ext.
      intros a. by destruct (String.eqb (file_id a) fileId).
    + eexists false, _, _. ran. by split.
  - eexists false, _, [_]. ran. by split.
Qed.

Lemma mark_files_spec title files w :
  exists w' evs,
    mark_files E files w = (Ok tt, w') /\
    trace w' = trace w ++ evs /\
    processed_titles w' = processed_titles w /\
    forallb (marking title) evs = true /\
    marks_only (drive_files w) (drive_files w') /\
    (forallb went_through evs = true ->
     forall file f', file ∈ files -> f' ∈ drive_files w' ->
                     file_id f' = file_id file -> flagged f').
Proof.
  revert w. induction files as [|file files IH]; intros w.
  - exists w, []. unfold mark_files, ret. rewrite app_nil_r.
    split_and!; try done; [apply marks_only_refl|].
    intros _ file f' Hin. by apply elem_of_nil in Hin.
  - cbn [mark_files]. unfold bind at 1, try_except.
    destruct (files_update_property_cases E (file_id file) PROCESSED_PROPERTY "true" w)
      as [(f0 & Hl & Hrun)|[e Hrun]]; rewrite Hrun.
    + set (w1 := served w _ _).
      destruct (IH w1) as (w' & evs & Hrec & Htr & Hts & Hev & Hst & Hall).
      rewrite Hrec. eexists w', (_ :: evs).
      split; [done|]. split; [rewrite Htr; simpl; by rewrite <- app_assoc|].
      split; [done|]. split; [by simpl|]. split.
      * eapply marks_only_trans; [|exact Hst]. apply marks_only_update.
      * simpl. intros Hok file' f' Hin Hf' Hid.
        apply elem_of_cons in Hin as [->|Hin]; [|by eapply Hall].
        destruct (marks_only_elem _ _ _ Hst Hf') as (f1 & Hf1 & Hfs).
        destruct (flag_set_keeps _ _ Hfs) as (Hid1 & _ & _ & _ & Hflag).
        apply Hflag. eapply update_file_flagged; [exact Hf1|congruence].
    + unfold ret. set (w1 := add_event _ w).
      destruct (IH w1) as (w' & evs & Hrec & Htr & Hts & Hev & Hst & Hall).
      rewrite Hrec. eexists w', (_ :: evs).
      split; [done|]. split; [rewrite Htr; simpl; by rewrite <- app_assoc|].
      split; [done|]. split; [by simpl|]. split; [done|].
      simpl. intros Hok. discriminate Hok.
Qed.

Lemma mark_pages_spec title pages : forall token w,
  exists o w' evs,
    mark_pages E (QDocsNamed (title_literal title)) token pages w = (o, w') /\
    trace w' = trace w ++ evs /\
    processed_titles w' = processed_titles w /\
    forallb (marking title) evs = true /\
    marks_only (drive_files w) (drive_files w') /\
    (forallb went_through evs = true ->
     forall file f', file ∈ concat pages -> f' ∈ drive_files w' ->
                     file_id f' = file_id file -> flagged f').
Proof.
  induction pages as [|page pages IH]; intros token w.
  - exists (Ok tt), w, []. unfold mark_pages, ret. rewrite app_nil_r.
    split_and!; try done; [apply marks_only_refl|].
    intros _ file f' Hin. by apply elem_of_nil in Hin.
  - cbn [mark_pages]. unfold bind at 1.
    set (tok := if (token =? 0)%nat then None else Some token).
    destruct (files_list_cases E (QDocsNamed (title_literal title)) tok (Some page) w)
      as [(p & Hp & Hrun)|[e Hrun]]; rewrite Hrun.
    + injection Hp as <-. set (w1 := served w _ _). unfold bind at 1.
      destruct (mark_files_spec title page w1)
        as (w2 & e2 & Hrun2 & Htr2 & Hts2 & Hev2 & Hst2 & Hall2).
      rewrite Hrun2.
      assert (forallb (marking title)
                [Drive (FilesList (QDocsNamed (title_literal title)) tok) true] = true)
        as Hlist by (simpl; by rewrite String.eqb_refl).
      destruct pages as [|page' pages].
      * eexists (Ok tt), w2, (_ :: e2). unfold ret.
        split; [done|]. split; [rewrite Htr2; simpl; by rewrite <- app_assoc|].
        split; [done|]. split; [simpl; by rewrite String.eqb_refl|]. split; [done|].
        simpl. rewrite app_nil_r. intros Hok. by apply Hall2.
      * destruct (IH (S token) w2) as (o & w3 & e3 & Hrun3 & Htr3 & Hts3 & Hev3 & Hst3 & Hall3).
        rewrite Hrun3. eexists o, w3, ((_ :: e2) ++ e3).
        split; [done|].
        split; [rewrite Htr3, Htr2; simpl; by rewrite <- !app_assoc|].
        split; [by rewrite Hts3, Hts2|].
        split; [rewrite forallb_app; simpl; by rewrite String.eqb_refl, Hev2, Hev3|].
        split; [by eapply marks_only_trans|].
        rewrite forallb_app. simpl.
        intros [Hok2 Hok3]%andb_true_iff file f' Hin Hf' Hid.
        change (concat (page :: page' :: pages))
          with (page ++ concat (page' :: pages)) in Hin.
        apply elem_of_app in Hin as [Hin|Hin]; [|by eapply Hall3].
        destruct (marks_only_elem _ _ _ Hst3 Hf') as (f2 & Hf2 & Hfs).
        destruct (flag_set_keeps _ _ Hfs) as (Hid2 & _ & _ & _ & Hflag).
        apply Hflag. eapply (Hall2 Hok2 file); [done|done|congruence].
    + eexists (Raise e), (add_event (Drive (FilesList (QDocsNamed (title_literal title)) tok) false) w), [_].
      split; [done|]. split; [done|]. split; [done|].
      split; [simpl; by rewrite String.eqb_refl|].
      split; [apply marks_only_refl|]. intros Hok. discriminate Hok.
Qed.

Lemma mark_all_spec title w :
  exists o w' evs,
    mark_all_with_title_as_processed E title w = (o, w') /\
    trace w' = trace w ++ evs /\
    processed_titles w' = processed_titles w /\
    forallb (marking title) evs = true /\
    marks_only (drive_files w) (drive_files w') /\
    (forallb went_through evs = true ->
     Py.contains backslash title = false ->
     forall f', f' ∈ drive_files w' -> titled title f' -> flagged f').
Proof.
  unfold mark_all_with_title_as_processed. unfold bind at 1, get_world.
  unfold result_pages, query_filter.
  destruct (drive_unescape (title_literal title)) as [v|] eqn:Hun; cbn [option_map].
  - set (keep := fun f : drive_file => _).
    destruct (mark_pages_spec title (pages_of 100 (List.filter keep (drive_files w))) 0%nat w)
      as (o & w' & evs & Hrun & Htr & Hts & Hev & Hst & Hall).
    exists o, w', evs. do 5 (split; [done|]).
    intros Hok Hbs f' Hf' (Hname & Hmime & Htrash).
    rewrite (title_literal_unescape _ Hbs) in Hun. injection Hun as <-.
    destruct (marks_only_elem _ _ _ Hst Hf') as (f & Hf & Hfs).
    destruct (flag_set_keeps _ _ Hfs) as (Hid & Hn & Hm & Ht & _).
    apply (Hall Hok f f'); [|done|done].
    unfold pages_of. rewrite concat_pages_go.
    apply list_elem_of_In, filter_In. split; [by apply list_elem_of_In|].
    unfold keep. rewrite <- Hn, <- Hm, <- Ht, Hname, Hmime, Htrash.
    by rewrite !String.eqb_refl.
  - unfold bind.
    destruct (files_list_cases E (QDocsNamed (title_literal title)) None None w)
      as [(p & Hp & _)|[e Hrun]]; [done|]. rewrite Hrun.
    eexists _, _, [_].
    split; [done|]. split; [done|]. split; [done|].
    split; [simpl; by rewrite String.eqb_refl|].
    split; [apply marks_only_refl|]. intros Hok. discriminate Hok.
Qed.

Lemma unfiled_prepend w wa w' e0 evs :
  trace wa = trace w ++ e0 -> forallb calm e0 = true ->
  flags (drive_files wa) = flags (drive_files w) ->
  trace w' = trace wa ++ evs -> unfiled wa w' evs ->
  trace w' = trace w ++ e0 ++ evs /\ unfiled w w' (e0 ++ evs).
Proof.
  intros Htr Hev Hfl Htr' [Hcalm Hflags]. split.
  - rewrite Htr', Htr. by rewrite <- !app_assoc.
  - split; [by rewrite forallb_app, Hev, Hcalm | congruence].
Qed.

Lemma filed_prepend fileId title w wa w' e0 evs :
  trace wa = trace w ++ e0 -> forallb quiet e0 = true ->
  flags (drive_files wa) = flags (drive_files w) ->
  trace w' = trace wa ++ evs -> filed E fileId title wa w' evs ->
  trace w' = trace w ++ e0 ++ evs /\ filed E fileId title w w' (e0 ++ evs).
Proof.
  intros Htr Hev Hfl Htr'
    (pre & index & text & mid & name & dest & c & marks & notif & w1 & w2 & om
     & -> & Hpre & Hmid & Hmarks & Hnotif & Htr1 & Hfl1 & Hmark & Htr2 & Hfs).
  split; [rewrite Htr', Htr; by rewrite <- !app_assoc|].
  exists (e0 ++ pre), index, text, mid, name, dest, c, marks, notif, w1, w2, om.
  split_and!; try done.
  - by rewrite <- !app_assoc.
  - by rewrite forallb_app, Hev, Hpre.
  - rewrite Htr1, Htr. by rewrite <- !app_assoc.
  - congruence.
Qed.

Lemma file_document_spec fileId name content meeting_type w :
  exists o w' evs,
    file_document E A fileId name content meeting_type w = (o, w') /\
    trace w' = trace w ++ evs /\
    processed_titles w' = processed_titles w /\
    ((forallb calm evs = true /\ drive_files w' = drive_files w)
     \/ exists mid cname dest c marks notif w1 w2 om,
          evs = mid ++ [Drive (FilesCopy fileId cname dest) true] ++ marks ++ notif /\
          forallb quiet mid = true /\
          forallb (marking name) marks = true /\
          forallb notifying notif = true /\
          trace w1 = trace w ++ mid ++ [Drive (FilesCopy fileId cname dest) true] /\
          drive_files w1 = drive_files w ++ [c] /\
          mark_all_with_title_as_processed E name w1 = (om, w2) /\
          trace w2 = trace w1 ++ marks /\
          drive_files w' = drive_files w2).
Proof.
  unfold file_document.
  destruct (folder_mapping A !! meeting_type) as [dest|].
  2:{ exists (Ok tt), w, []. unfold ret. rewrite app_nil_r. split_and!; try done. by left. }
  unfold bind at 1.
  destruct (copy_file_spec E fileId dest w) as (b & w1 & e1 & Hrun & Htr1 & Hts1 & Hb).
  rewrite Hrun. destruct b.
  2:{ exists (Ok tt), w1, e1. unfold ret. split_and!; try done. by left. }
  destruct Hb as (mid & cname & c & -> & Hmid & Hfs1).
  unfold bind at 1.
  destruct (mark_all_spec name w1) as (om & w2 & marks & Hmark & Htr2 & Hts2 & Hmarks & _ & _).
  rewrite Hmark. destruct om as [[]|e].
  - destruct (notify_spec meeting_type name content w2)
      as (w3 & notif & Hnot & Htr3 & Hts3 & Hnotif & Hfs3).
    rewrite Hnot. exists (Ok tt), w3, ((mid ++ [Drive (FilesCopy fileId cname dest) true]) ++ marks ++ notif).
    split; [done|]. split; [rewrite Htr3, Htr2, Htr1; by rewrite <- !app_assoc|].
    split; [congruence|]. right.
    exists mid, cname, dest, c, marks, notif, w1, w2, (Ok tt).
    split_and!; try done. by rewrite <- !app_assoc.
  - exists (Raise e), w2, ((mid ++ [Drive (FilesCopy fileId cname dest) true]) ++ marks ++ []).
    split; [done|]. split; [rewrite Htr2, Htr1; by rewrite <- !app_assoc, app_nil_r|].
    split; [congruence|]. right.
    exists mid, cname, dest, c, marks, [], w1, w2, (Raise e).
    split_and!; try done. by rewrite <- !app_assoc.
Qed.

Lemma flags_app fs gs : flags (fs ++ gs) = flags fs ++ flags gs.
Proof. unfold flags. apply map_app. Qed.

Lemma process_document_spec fileId name w :
  exists o w' evs,
    process_document E A fileId name w = (o, w') /\
    trace w' = trace w ++ evs /\
    processed_titles w' = processed_titles w /\
    (unfiled w w' evs \/ filed E fileId name w w' evs).
Proof.
  unfold process_document. unfold bind at 1.
  destruct (files_export_cases E fileId w) as [(f & Hl & Hrun)|[e Hrun]]; rewrite Hrun.
  2:{ eexists _, _, [_]. split_and!; try done. by left. }
  set (w1 := served w _ _).
  assert (trace w1 = trace w ++ [Drive (FilesExport fileId) true]) as Htr1 by done.
  destruct (negb (Py.truthy (exported_text f))).
  { eexists _, _, [_]. unfold ret. split_and!; try done. by left. }
  unfold bind at 1.
  destruct (determine_spec E (exported_text f) (Some name) w1)
    as (w2 & e2 & p & res & Hdet & (Htr2 & Hfs2 & Hts2 & _) & Hev2 & _).
  rewrite Hdet. unfold bind at 1.
  destruct (summarize_spec E (exported_text f) w2)
    as (v & w3 & e3 & Hsum & (Htr3 & Hfs3 & Hts3 & _) & Hev3 & _).
  rewrite Hsum.
  apply (forallb_impl _ quiet _ client_event_quiet) in Hev2, Hev3.
  assert (trace w3 = trace w ++ [Drive (FilesExport fileId) true] ++ e2 ++ e3) as Htr.
  { rewrite Htr3, Htr2, Htr1. by rewrite <- !app_assoc. }
  assert (forallb quiet ([Drive (FilesExport fileId) true] ++ e2 ++ e3) = true) as Hq.
  { simpl. by rewrite forallb_app, Hev2, Hev3. }
  assert (flags (drive_files w3) = flags (drive_files w)) as Hfl by (by rewrite Hfs3, Hfs2).
  assert (processed_titles w3 = processed_titles w) as Hts by (by rewrite Hts3, Hts2).
  pose proof (forallb_impl _ calm _ quiet_calm Hq) as Hc.
  assert (exists w', (Ok tt, w3) = (Ok tt, w') /\
            trace w' = trace w ++ [Drive (FilesExport fileId) true] ++ e2 ++ e3 /\
            processed_titles w' = processed_titles w /\
            (unfiled w w' ([Drive (FilesExport fileId) true] ++ e2 ++ e3)
             \/ filed E fileId name w w' ([Drive (FilesExport fileId) true] ++ e2 ++ e3)))
    as Hstop.
  { exists w3. split_and!; try done. left. by split. }
  destruct v as [doc_summary|]; [|destruct Hstop as (w' & ? & ? & ? & ?); eauto 10].
  destruct (negb (Py.truthy doc_summary));
    [destruct Hstop as (w' & ? & ? & ? & ?); eauto 10|].
  clear Hstop. unfold bind at 1.
  destruct (append_summary_spec fileId doc_summary w3)
    as (b & w4 & e4 & Happ & Htr4 & Hts4 & Hb).
  rewrite Happ. destruct b; cbn [negb].
  2:{ destruct Hb as [Hc4 Hfs4]. exists (Ok tt), w4, (([Drive (FilesExport fileId) true] ++ e2 ++ e3) ++ e4).
      unfold ret. split; [done|].
      split; [rewrite Htr4, Htr; by rewrite <- !app_assoc|].
      split; [congruence|]. left. split; [by rewrite forallb_app, Hc, Hc4|congruence]. }
  destruct Hb as (pre & index & -> & Hpre & Hfl4).
  destruct (file_document_spec fileId name (exported_text f) (label_of res) w4)
    as (o & w5 & e5 & Hfile & Htr5 & Hts5 & Hcase).
  rewrite Hfile.
  set (ins := Drive (DocsInsertText fileId index (summary_text doc_summary)) true) in *.
  exists o, w5, ((([Drive (FilesExport fileId) true] ++ e2 ++ e3) ++ pre) ++ [ins] ++ e5).
  split; [done|].
  split; [rewrite Htr5, Htr4, Htr; by rewrite <- !app_assoc|].
  split; [congruence|].
  assert (forallb quiet (([Drive (FilesExport fileId) true] ++ e2 ++ e3) ++ pre) = true) as Hq'.
  { by rewrite forallb_app, Hq, Hpre. }
  destruct Hcase as [[Hc5 Hfs5]|
    (mid & cname & dest & c & marks & notif & wa & wb & om & -> & Hmid & Hmarks & Hnotif
     & Htra & Hfsa & Hmark & Htrb & Hfsb)].
  - left. split; [|congruence].
    rewrite forallb_app, (forallb_impl _ calm _ quiet_calm Hq'). simpl. exact Hc5.
  - right.
    exists (([Drive (FilesExport fileId) true] ++ e2 ++ e3) ++ pre), index,
           (summary_text doc_summary), mid, cname, dest, c, marks, notif, wa, wb, om.
    split_and!; try done.
    + rewrite Htra, Htr4, Htr. by rewrite <- !app_assoc.
    + rewrite Hfsa, flags_app. congruence.
Qed.

Lemma process_file_spec today file w :
  let request := FilesGet (file_id file) "mimeType,name,createdTime" in
  exists w' evs,
    process_file E A today file w = (Ok tt, w') /\
    trace w' = trace w ++ evs /\
    ((evs = [Drive request false] /\
      drive_files w' = drive_files w /\
      processed_titles w' = processed_titles w /\
      (drive_fault E (trace w) request = true \/
       lookup_file (file_id file) (drive_files w) = None))
     \/ exists m,
          lookup_file (file_id file) (drive_files w) = Some m /\
          (((createdDate m <> today \/ file_name m ∈ processed_titles w) /\
            evs = [Drive request true] /\
            drive_files w' = drive_files w /\
            processed_titles w' = processed_titles w)
           \/ (createdDate m = today /\
               (file_name m ∉ processed_titles w) /\
               processed_titles w' = {[file_name m]} ∪ processed_titles w /\
               (unfiled w w' evs
                \/ filed E (file_id file) (file_name m) w w' evs)))).
Proof.
  cbv zeta. unfold process_file, try_except. unfold bind at 1.
  destruct (files_get_cases E (file_id file) "mimeType,name,createdTime" w)
    as [(m & Hl & Hrun)|(e & Hrun & Hwhy)]; rewrite Hrun.
  2:{ eexists _, [_]. unfold ret. split_and!; try done. by left. }
  set (request := FilesGet _ _). set (w1 := served w request (drive_files w)).
  destruct (createdDate m =? today) eqn:Hdate; cbn [negb].
  2:{ apply Z.eqb_neq in Hdate. eexists _, [_]. unfold ret. split_and!; try done.
      right. exists m. split; [done|]. left. split_and!; try done. by left. }
  apply Z.eqb_eq in Hdate. unfold bind at 1, get_world.
  case_bool_decide as Hdup.
  { eexists _, [_]. unfold ret. split_and!; try done.
    right. exists m. split; [done|]. left. split_and!; try done. by right. }
  unfold bind at 1, set_processed_titles.
  set (wt := World (clock w1) (trace w1) (gemini w1) (drive_files w1)
                   ({[file_name m]} ∪ processed_titles w1)).
  assert (trace wt = trace w ++ [Drive request true]) as Htrt by done.
  assert (flags (drive_files wt) = flags (drive_files w)) as Hflt by done.
  assert (forallb quiet [Drive request true] = true) as Hq by done.
  destruct (String.eqb (mimeType m) document_mime).
  - destruct (process_document_spec (file_id file) (file_name m) wt)
      as (o & w' & evs & Hdoc & Htr & Hts & Hcase).
    rewrite Hdoc.
    exists w', ([Drive request true] ++ evs).
    split; [by destruct o as [[]|]|].
    destruct Hcase as [Hun|Hfiled].
    + destruct (unfiled_prepend w wt w' _ evs Htrt (forallb_impl _ calm _ quiet_calm Hq)
                  Hflt Htr Hun) as [Htr' Hun'].
      split; [done|]. right. exists m. split; [done|]. right.
      split_and!; try done. by left.
    + destruct (filed_prepend (file_id file) (file_name m) w wt w' _ evs Htrt Hq
                  Hflt Htr Hfiled) as [Htr' Hf'].
      split; [done|]. right. exists m. split; [done|]. right.
      split_and!; try done. by right.
  - eexists wt, [_]. unfold ret. split_and!; try done.
    right. exists m. split; [done|]. right. split_and!; try done. left. by split.
Qed.

(** *** Discovery *)

Lemma reads_refl w : reads w w [].
Proof. unfold reads. by rewrite app_nil_r. Qed.

Lemma reads_trans w1 w2 w3 e1 e2 :
  reads w1 w2 e1 -> reads w2 w3 e2 -> reads w1 w3 (e1 ++ e2).
Proof.
  intros (Ha & Hb & Hc & Hd) (Ha' & Hb' & Hc' & Hd'). unfold reads.
  split_and!; try congruence.
  - rewrite Ha', Ha. by rewrite <- app_assoc.
  - by rewrite forallb_app, Hb, Hb'.
Qed.

Lemma reads_served w fileId fields :
  reads w (served w (FilesGet fileId fields) (drive_files w))
        [Drive (FilesGet fileId fields) true].
Proof. by unfold reads. Qed.

Lemma reads_failed_get w fileId fields :
  reads w (add_event (Drive (FilesGet fileId fields) false) w)
        [Drive (FilesGet fileId fields) false].
Proof. by unfold reads. Qed.

Lemma unprocessed_of_spec files : forall w,
  exists found w' evs,
    unprocessed_of E files w = (Ok found, w') /\
    reads w w' evs /\
    (forall f, f ∈ found -> f ∈ files) /\
    (forallb (fun e => negb (is_failed_flag_read e)) evs = true ->
     forall f, f ∈ found -> ~ processed_in (drive_files w) (file_id f)).
Proof.
  induction files as [|file files IH]; intros w.
  - exists [], w, []. unfold unprocessed_of, ret. split_and!; try done.
    + apply reads_refl.
    + intros _ f Hf. by apply elem_of_nil in Hf.
  - cbn [unprocessed_of]. unfold bind at 1.
    destruct (has_been_processed_cases E (file_id file) w) as [(f0 & Hl & Hrun)|Hrun];
      rewrite Hrun.
    + set (w1 := served w _ _). unfold bind at 1.
      destruct (IH w1) as (found & w' & evs & Hrec & Hreads & Hsub & Hun).
      rewrite Hrec. unfold ret.
      eexists _, w', ([_] ++ evs). split; [done|].
      split; [eapply reads_trans; [apply reads_served|exact Hreads]|].
      case_bool_decide as Hflag.
      * split; [intros f Hf; right; by apply Hsub|].
        simpl. intros Hok f Hf. by apply Hun.
      * split.
        -- intros f [->|Hf]%elem_of_cons; [by left|right; by apply Hsub].
        -- simpl. intros Hok f [->|Hf]%elem_of_cons; [|by apply Hun].
           intros (f1 & Hl1 & Hf1). congruence.
    + set (w1 := add_event _ w). unfold bind at 1.
      destruct (IH w1) as (found & w' & evs & Hrec & Hreads & Hsub & Hun).
      rewrite Hrec. unfold ret.
      eexists _, w', ([_] ++ evs). split; [done|].
      split; [eapply reads_trans; [apply reads_failed_get|exact Hreads]|].
      split.
      * intros f [->|Hf]%elem_of_cons; [by left|right; by apply Hsub].
      * simpl. intros Hok. discriminate Hok.
Qed.

Lemma discovers_nil run w w' evs (source : drive_file -> Prop) :
  run w = (Ok [], w') -> reads w w' evs -> discovers run w source.
Proof.
  intros Hrun Hreads. exists [], w', evs. split_and!; try done.
  - intros f Hf. by apply elem_of_nil in Hf.
  - intros _ f Hf. by apply elem_of_nil in Hf.
Qed.

Lemma folder_pages_spec q pages : forall token w,
  discovers (folder_pages E q token pages) w (fun f => f ∈ concat pages).
Proof.
  induction pages as [|page pages IH]; intros token w.
  - apply (discovers_nil _ w w []); [done|apply reads_refl].
  - unfold discovers. cbn [folder_pages]. unfold try_except, bind at 1.
    set (tok := if (token =? 0)%nat then None else Some token).
    destruct (files_list_cases E q tok (Some page) w) as [(p & Hp & Hrun)|[e Hrun]].
    2:{ exists [], (add_event (Drive (FilesList q tok) false) w), [Drive (FilesList q tok) false].
        rewrite Hrun. unfold ret. split_and!; try done.
        - intros f Hf. by apply elem_of_nil in Hf.
        - intros _ f Hf. by apply elem_of_nil in Hf. }
    injection Hp as <-. rewrite Hrun. set (w1 := served w _ _).
    assert (reads w w1 [Drive (FilesList q tok) true]) as Hr1 by done.
    unfold bind at 1.
    destruct (unprocessed_of_spec page w1) as (found & w2 & e2 & Hun & Hr2 & Hsub & Hnot).
    rewrite Hun. destruct pages as [|page' pages].
    + exists found, w2, ([Drive (FilesList q tok) true] ++ e2). unfold ret.
      split; [done|]. split; [by eapply reads_trans|].
      split; [intros f Hf; simpl; rewrite app_nil_r; by apply Hsub|].
      simpl. intros Hok f Hf. by apply Hnot.
    + unfold bind at 1.
      destruct (IH (S token) w2) as (more & w3 & e3 & Hrec & Hr3 & Hsub3 & Hnot3).
      rewrite Hrec. unfold ret.
      exists (found ++ more), w3, (([Drive (FilesList q tok) true] ++ e2) ++ e3).
      split; [done|].
      split; [eapply reads_trans; [by eapply reads_trans|done]|].
      split.
      * intros f [Hf|Hf]%elem_of_app.
        -- change (concat (page :: page' :: pages))
             with (page ++ concat (page' :: pages)).
           apply elem_of_app. left. by apply Hsub.
        -- change (concat (page :: page' :: pages))
             with (page ++ concat (page' :: pages)).
           apply elem_of_app. right. by apply Hsub3.
      * rewrite forallb_app. simpl. intros [Hok2 Hok3]%andb_true_iff f [Hf|Hf]%elem_of_app.
        -- by apply Hnot.
        -- assert (drive_files w2 = drive_files w) as Hfs.
           { destruct Hr2 as (_ & _ & -> & _). done. }
           rewrite <- Hfs. by apply Hnot3.
Qed.

Lemma folder_documents_spec folder_id w :
  discovers (folder_documents E folder_id) w
            (fun f => f ∈ drive_files w /\ mimeType f = document_mime).
Proof.
  unfold discovers, folder_documents. unfold bind at 1, get_world.
  unfold result_pages, query_filter.
  destruct (drive_unescape folder_id) as [v|]; cbn [option_map].
  - set (keep := fun f : drive_file => _).
    destruct (folder_pages_spec (QDocsInParent folder_id)
                (pages_of 100 (List.filter keep (drive_files w))) 0%nat w)
      as (found & w' & evs & Hrun & Hreads & Hsub & Hnot).
    exists found, w', evs. split_and!; try done.
    intros f Hf. specialize (Hsub f Hf). unfold pages_of in Hsub.
    rewrite concat_pages_go in Hsub.
    apply list_elem_of_In, filter_In in Hsub as [Hin Hkeep].
    split; [by apply list_elem_of_In|].
    unfold keep in Hkeep. apply andb_true_iff in Hkeep as [Hk _].
    apply andb_true_iff in Hk as [_ Hm]. by apply String.eqb_eq in Hm.
  - unfold try_except, bind.
    destruct (files_list_cases E (QDocsInParent folder_id) None None w)
      as [(p & Hp & _)|[e Hrun]]; [done|]. rewrite Hrun. unfold ret.
    eexists [], _, [Drive (FilesList (QDocsInParent folder_id) None) false].
    split_and!; try done.
    + intros f Hf. by apply elem_of_nil in Hf.
    + intros _ f Hf. by apply elem_of_nil in Hf.
Qed.

Lemma folders_documents_spec folders : forall w,
  discovers (folders_documents E folders) w
            (fun f => f ∈ drive_files w /\ mimeType f = document_mime).
Proof.
  induction folders as [|folder folders IH]; intros w.
  - apply (discovers_nil _ w w []); [done|apply reads_refl].
  - unfold discovers at 1. cbn [folders_documents].
    assert (discovers
              (try_except
                 (accessible <- try_except
                                  (files_get E (file_id folder) "id,name" ;; ret true)
                                  (fun _ => ret false) ;;
                  if accessible then folder_documents E (file_id folder) else ret [])
                 (fun _ => ret [])) w
              (fun f => f ∈ drive_files w /\ mimeType f = document_mime)) as Hfolder.
    { unfold discovers. unfold try_except at 1. unfold bind at 1.
      unfold try_except, bind at 1.
      destruct (files_get_cases E (file_id folder) "id,name" w)
        as [(f0 & Hl & Hrun)|(e & Hrun & _)]; rewrite Hrun; unfold ret.
      - set (w1 := served w _ _).
        destruct (folder_documents_spec (file_id folder) w1)
          as (found & w2 & e2 & Hdocs & Hr2 & Hsub & Hnot).
        rewrite Hdocs. exists found, w2, ([Drive (FilesGet (file_id folder) "id,name") true] ++ e2).
        split; [done|].
        split; [eapply reads_trans; [apply reads_served|done]|].
        split; [done|]. simpl. intros Hok f Hf. by apply Hnot.
      - eexists [], _, [Drive (FilesGet (file_id folder) "id,name") false].
        split_and!; try done.
        + intros f Hf. by apply elem_of_nil in Hf.
        + intros _ f Hf. by apply elem_of_nil in Hf. }
    destruct Hfolder as (found & w1 & e1 & Hrun1 & Hr1 & Hsub1 & Hnot1).
    unfold bind at 1. rewrite Hrun1. unfold bind at 1.
    destruct (IH w1) as (more & w2 & e2 & Hrun2 & Hr2 & Hsub2 & Hnot2).
    rewrite Hrun2. unfold ret.
    assert (drive_files w1 = drive_files w) as Hfs.
    { destruct Hr1 as (_ & _ & -> & _). done. }
    exists (found ++ more), w2, (e1 ++ e2). split; [done|].
    split; [by eapply reads_trans|]. split.
    + intros f [Hf|Hf]%elem_of_app; [by apply Hsub1|].
      rewrite <- Hfs. by apply Hsub2.
    + rewrite forallb_app. intros [Hok1 Hok2]%andb_true_iff f [Hf|Hf]%elem_of_app.
      * by apply Hnot1.
      * rewrite <- Hfs. by apply Hnot2.
Qed.

Lemma get_new_meet_files_spec user_email w :
  discovers (get_new_meet_files E user_email) w
            (fun f => f ∈ drive_files w /\ mimeType f = document_mime).
Proof.
  unfold discovers, get_new_meet_files, try_except.
  unfold bind at 1, get_world. unfold bind at 1.
  set (q := QFoldersNamed "Meet Recordings").
  destruct (files_list_cases E q None
              (option_map (fun pages => hd [] pages) (result_pages q w)) w)
    as [(p & Hp & Hrun)|[e Hrun]]; rewrite Hrun; unfold ret.
  2:{ eexists [], _, [Drive (FilesList q None) false]. split_and!; try done.
      - intros f Hf. by apply elem_of_nil in Hf.
      - intros _ f Hf. by apply elem_of_nil in Hf. }
  set (w1 := served w _ _).
  assert (reads w w1 [Drive (FilesList q None) true]) as Hr1 by done.
  destruct (Chunker.nonempty p).
  - destruct (folders_documents_spec p w1) as (found & w2 & e2 & Hdocs & Hr2 & Hsub & Hnot).
    rewrite Hdocs. exists found, w2, ([Drive (FilesList q None) true] ++ e2).
    split; [done|]. split; [by eapply reads_trans|]. split; [done|].
    simpl. intros Hok f Hf. by apply Hnot.
  - eexists [], w1, [Drive (FilesList q None) true]. split_and!; try done.
    + intros f Hf. by apply elem_of_nil in Hf.
    + intros _ f Hf. by apply elem_of_nil in Hf.
Qed.

(** *** How the store and the title set change *)

Lemma file_evolves_refl f : file_evolves f f.
Proof. by unfold file_evolves. Qed.

Lemma file_evolves_trans f1 f2 f3 :
  file_evolves f1 f2 -> file_evolves f2 f3 -> file_evolves f1 f3.
Proof.
  unfold file_evolves. intros (?&?&?&?&?&?&?) (?&?&?&?&?&?&?).
  split_and!; try congruence. auto.
Qed.

Lemma flags_file_evolves fs : forall fs',
  flags fs' = flags fs -> Forall2 file_evolves fs fs'.
Proof.
  induction fs as [|f fs IH]; intros [|f' fs'] H; try done.
  injection H as Hid Hname Hmime Hdate Htrash Hpar Hprop Hrest.
  constructor; [|by apply IH].
  unfold file_evolves, flagged. rewrite Hprop. by split_and!.
Qed.

Lemma marks_only_file_evolves fs fs' :
  marks_only fs fs' -> Forall2 file_evolves fs fs'.
Proof.
  induction 1 as [|f f' fs fs' Hf H IH]; constructor; [|done].
  destruct Hf as [-> | ->]; [apply file_evolves_refl|].
  unfold file_evolves. split_and!; try done. intros _. apply flagged_with_property.
Qed.

Lemma Forall2_file_evolves_trans fs1 fs2 : forall fs3,
  Forall2 file_evolves fs1 fs2 -> Forall2 file_evolves fs2 fs3 ->
  Forall2 file_evolves fs1 fs3.
Proof.
  intros fs3 H12. revert fs3.
  induction H12 as [|f1 f2 fs1 fs2 Hf H12 IH]; intros fs3 H23.
  - by inversion H23.
  - inversion H23 as [|? f3 ? fs3' Hf' H23']; subst.
    constructor; [by eapply file_evolves_trans|auto].
Qed.

Lemma evolves_refl fs : evolves fs fs.
Proof.
  exists fs, []. split; [by rewrite app_nil_r|].
  apply Forall2_same_length_lookup_2; [done|].
  intros i x y Hx Hy. assert (x = y) as -> by congruence. apply file_evolves_refl.
Qed.

Lemma evolves_trans fs1 fs2 fs3 : evolves fs1 fs2 -> evolves fs2 fs3 -> evolves fs1 fs3.
Proof.
  intros (k & a & -> & H12) (k' & a' & -> & H23).
  apply Forall2_app_inv_l in H23 as (k1 & k2 & Hk1 & Hk2 & ->).
  exists k1, (k2 ++ a'). split; [by rewrite <- app_assoc|].
  by eapply Forall2_file_evolves_trans.
Qed.

Lemma process_file_changes today file w :
  let w' := snd (process_file E A today file w) in
  evolves (drive_files w) (drive_files w') /\
  processed_titles w ⊆ processed_titles w'.
Proof.
  cbv zeta. destruct (process_file_spec today file w) as (w' & evs & Hrun & Htr & Hcase).
  rewrite Hrun. cbn [snd].
  destruct Hcase as [(_ & -> & -> & _)|(m & _ & [(_ & _ & -> & ->)|(_ & _ & -> & Hcase)])].
  - split; [apply evolves_refl|done].
  - split; [apply evolves_refl|done].
  - split; [|set_solver].
    destruct Hcase as [[_ Hfl]|
      (pre & index & text & mid & name & dest & c & marks & notif & w1 & w2 & om
       & _ & _ & _ & _ & _ & _ & Hfl & Hmark & _ & ->)].
    + exists (drive_files w'), []. split; [by rewrite app_nil_r|].
      by apply flags_file_evolves.
    + destruct (mark_all_spec (file_name m) w1)
        as (om' & w2' & marks' & Hmark' & _ & _ & _ & Hst & _).
      rewrite Hmark in Hmark'. injection Hmark' as _ <-.
      unfold flags in Hfl. apply map_eq_app in Hfl as (l1 & l2 & Heq & Hl1 & Hl2).
      rewrite Heq in Hst. apply Forall2_app_inv_l in Hst as (k1 & k2 & Hk1 & Hk2 & ->).
      exists k1, k2. split; [done|].
      eapply Forall2_file_evolves_trans; [|by apply marks_only_file_evolves].
      apply flags_file_evolves. unfold flags. by rewrite Hl1.
Qed.

Lemma for_each_changes today files : forall w,
  let w' := snd (for_each files (process_file E A today) w) in
  evolves (drive_files w) (drive_files w') /\
  processed_titles w ⊆ processed_titles w'.
Proof.
  induction files as [|file files IH]; intros w; cbv zeta.
  - split; [apply evolves_refl|done].
  - cbn [for_each]. unfold bind.
    destruct (process_file_changes today file w) as [Hev Hts].
    destruct (process_file_spec today file w) as (w1 & e1 & Hrun & _).
    rewrite Hrun in Hev, Hts |- *. cbn [snd] in Hev, Hts.
    destruct (IH w1) as [Hev' Hts']. split.
    + by eapply evolves_trans.
    + set_solver.
Qed.

(** *** The loop over the files *)

Lemma concat_batches_go {B} bound n (l : list B) :
  concat (batches_go bound n l) = l.
Proof.
  revert l. induction bound as [|bound IH]; intros [|x l]; simpl; try done.
  - by rewrite app_nil_r.
  - change (x :: l) with ([x] ++ l) at 3.
    destruct n as [|n]; simpl.
    + by rewrite IH.
    + rewrite IH. by rewrite take_drop.
Qed.

Lemma processed_files_app fs1 fs2 w1 w2 w3 e1 e2 :
  processed_files E fs1 w1 w2 e1 -> processed_files E fs2 w2 w3 e2 ->
  processed_files E (fs1 ++ fs2) w1 w3 (e1 ++ e2).
Proof.
  induction 1 as [w|file files w wa wb ea eb Htr Hcase Hrest IH]; intros H2; [done|].
  rewrite <- app_assoc. simpl. econstructor; eauto.
Qed.

Lemma processed_files_trace fs w w' evs :
  processed_files E fs w w' evs -> trace w' = trace w ++ evs.
Proof.
  induction 1 as [w|file files w wa wb ea eb Htr Hcase Hrest IH].
  - by rewrite app_nil_r.
  - rewrite IH, Htr. by rewrite <- app_assoc.
Qed.

Lemma process_file_segment today file w :
  exists w' evs,
    process_file E A today file w = (Ok tt, w') /\
    trace w' = trace w ++ evs /\
    (unfiled w w' evs \/ exists title, filed E (file_id file) title w w' evs).
Proof.
  destruct (process_file_spec today file w) as (w' & evs & Hrun & Htr & Hcase).
  exists w', evs. split; [done|]. split; [done|].
  destruct Hcase as [(-> & Hfs & _)|(m & _ & [(_ & -> & Hfs & _)|(_ & _ & _ & [Hun|Hf])])].
  - left. split; [done|congruence].
  - left. split; [done|congruence].
  - by left.
  - right. eauto.
Qed.

Lemma for_each_files today files : forall w,
  exists w' evs,
    for_each files (process_file E A today) w = (Ok tt, w') /\
    processed_files E files w w' evs.
Proof.
  induction files as [|file files IH]; intros w.
  - exists w, []. split; [done|constructor].
  - cbn [for_each]. unfold bind.
    destruct (process_file_segment today file w) as (w1 & e1 & Hrun & Htr & Hcase).
    rewrite Hrun. destruct (IH w1) as (w2 & e2 & Hrec & Hfiles).
    rewrite Hrec. exists w2, (e1 ++ e2). split; [done|]. by econstructor.
Qed.

Lemma for_each_batches today bs : forall w,
  exists w' evs,
    for_each bs (fun batch => for_each batch (process_file E A today)) w = (Ok tt, w') /\
    processed_files E (concat bs) w w' evs.
Proof.
  induction bs as [|batch bs IH]; intros w.
  - exists w, []. split; [done|constructor].
  - cbn [for_each]. unfold bind.
    destruct (for_each_files today batch w) as (w1 & e1 & Hrun & Hfiles).
    rewrite Hrun. destruct (IH w1) as (w2 & e2 & Hrec & Hrest).
    rewrite Hrec. exists w2, (e1 ++ e2). split; [done|].
    simpl. by eapply processed_files_app.
Qed.

(** In a filed stretch the only store requests that raised are the
    marking's own. *)
Lemma filed_failures fileId title w w' evs :
  filed E fileId title w w' evs ->
  forall e, e ∈ evs -> is_failed_request e = true -> marking title e = true.
Proof.
  intros (pre & index & text & mid & name & dest & c & marks & notif & w1 & w2 & om
          & -> & Hpre & Hmid & Hmarks & Hnotif & _) e Hin Hfail.
  rewrite forallb_forall in Hpre, Hmid, Hmarks, Hnotif.
  assert (forall l, (forall x, In x l -> quiet x = true) -> e ∈ l -> False) as Hq.
  { intros l Hl Hel. apply list_elem_of_In, Hl in Hel. unfold quiet in Hel.
    rewrite Hfail in Hel. by rewrite andb_false_r in Hel. }
  repeat (apply elem_of_app in Hin as [Hin|Hin]).
  - exfalso. exact (Hq pre Hpre Hin).
  - apply list_elem_of_singleton in Hin. by subst e.
  - exfalso. exact (Hq mid Hmid Hin).
  - apply list_elem_of_singleton in Hin. by subst e.
  - apply Hmarks. by apply list_elem_of_In.
  - apply list_elem_of_In, Hnotif in Hin. by destruct e as [| | |? []|].
Qed.

(** *** Later states of an invocation *)

Lemma later_refl w : later w w.
Proof. split; [apply evolves_refl|done]. Qed.

Lemma later_trans w1 w2 w3 : later w1 w2 -> later w2 w3 -> later w1 w3.
Proof.
  intros [Ha Hb] [Ha' Hb']. split; [by eapply evolves_trans|set_solver].
Qed.

Lemma for_each_later {B} (body : B -> M unit) xs :
  (forall x w, later w (snd (body x w))) ->
  forall w, later w (snd (for_each xs body w)).
Proof.
  intros Hbody. induction xs as [|x xs IH]; intros w; [apply later_refl|].
  cbn [for_each]. unfold bind. pose proof (Hbody x w) as Hx.
  destruct (body x w) as [[[]|e] w1]; cbn [snd] in *; [|done].
  eapply later_trans; [exact Hx|apply IH].
Qed.

Lemma process_file_later today file w :
  later w (snd (process_file E A today file w)).
Proof. apply process_file_changes. Qed.

Lemma process_meet_files_later user_email w :
  later w (snd (process_meet_files E A user_email w)).
Proof.
  destruct (get_new_meet_files_spec user_email w)
    as (found & w0 & e0 & Hrun & (_ & _ & Hfs & Hts) & _ & _).
  unfold process_meet_files, bind at 1. rewrite Hrun.
  assert (later w w0) as H0.
  { split; [rewrite Hfs; apply evolves_refl|by rewrite Hts]. }
  destruct (negb (Chunker.nonempty found)); [done|].
  unfold bind at 1, get_world.
  eapply later_trans; [exact H0|].
  apply for_each_later. intros batch w1.
  apply for_each_later. intros file w2. apply process_file_later.
Qed.

Lemma process_users_later users : forall w,
  later w (snd (process_users E A users w)).
Proof.
  induction users as [|user users IH]; intros w; [apply later_refl|].
  cbn [process_users]. unfold bind at 1, try_except, bind at 1.
  pose proof (process_meet_files_later user w) as Hu.
  destruct (process_meet_files E A user w) as [[[]|e] w1]; cbn [snd] in Hu;
    unfold ret, bind at 1; pose proof (IH w1) as Hrest;
    destruct (process_users E A users w1) as [[rs|e'] w2]; cbn [snd] in *;
    by eapply later_trans.
Qed.

Lemma lookup_evolves fileId fs fs' f :
  evolves fs fs' -> lookup_file fileId fs = Some f ->
  exists f', lookup_file fileId fs' = Some f' /\ file_evolves f f'.
Proof.
  intros (k & a & -> & Hk). unfold lookup_file.
  induction Hk as [|x y xs ys Hxy Hk IH]; [done|]. cbn [List.find app].
  pose proof Hxy as (Hid & _). rewrite Hid.
  destruct (String.eqb (file_id x) fileId); [|exact IH].
  intros [= <-]. by exists y.
Qed.

Lemma lookup_elem fileId fs f :
  lookup_file fileId fs = Some f -> f ∈ fs /\ file_id f = fileId.
Proof.
  intros H. apply find_some in H as [Hin Hid].
  split; [by apply list_elem_of_In|by apply String.eqb_eq].
Qed.

(** *** Runs that find nothing to do *)

Lemma process_meet_files_run user_email w :
  exists found w0 w' e0 evs,
    get_new_meet_files E user_email w = (Ok found, w0) /\
    reads w w0 e0 /\
    (forall f, f ∈ found -> f ∈ drive_files w /\ mimeType f = document_mime) /\
    (flags_readable e0 = true ->
     forall f, f ∈ found -> ~ processed_in (drive_files w) (file_id f)) /\
    process_meet_files E A user_email w = (Ok tt, w') /\
    trace w' = trace w0 ++ evs /\
    (found = [] -> w' = w0 /\ evs = []).
Proof.
  destruct (get_new_meet_files_spec user_email w)
    as (found & w0 & e0 & Hrun & Hreads & Hsrc & Hun).
  unfold process_meet_files, bind at 1. rewrite Hrun.
  destruct found as [|file files] eqn:Hfound; cbn [Chunker.nonempty negb].
  - exists [], w0, w0, e0, []. unfold ret. rewrite app_nil_r. by split_and!.
  - rewrite <- Hfound in *. unfold bind at 1, get_world.
    destruct (for_each_batches (local_date E (clock w0)) (batches 10 found) w0)
      as (w' & evs & Hloop & Hfiles).
    exists found, w0, w', e0, evs. split_and!; try done.
    + by apply processed_files_trace in Hfiles.
    + intros ->. discriminate Hfound.
Qed.

Lemma process_users_total users : forall w,
  exists report w' evs,
    process_users E A users w = (Ok report, w') /\
    trace w' = trace w ++ evs.
Proof.
  induction users as [|user users IH]; intros w.
  - exists [], w, []. split; [done|by rewrite app_nil_r].
  - destruct (process_meet_files_run user w)
      as (found & w0 & w1 & e0 & evs & _ & (Htr0 & _) & _ & _ & Hrun & Htr1 & _).
    cbn [process_users]. unfold bind at 1, try_except, bind at 1. rewrite Hrun.
    unfold ret, bind at 1.
    destruct (IH w1) as (report & w' & evs' & Hrec & Htr'). rewrite Hrec.
    eexists _, w', (e0 ++ evs ++ evs'). split; [done|].
    rewrite Htr', Htr1, Htr0. by rewrite <- !app_assoc.
Qed.

Lemma process_users_idle users : forall w,
  all_flagged (drive_files w) ->
  exists report w' evs,
    process_users E A users w = (Ok report, w') /\
    trace w' = trace w ++ evs /\
    (flags_readable evs = true ->
     forallb discovering evs = true /\
     drive_files w' = drive_files w /\
     processed_titles w' = processed_titles w /\
     report = map (fun user_email => (user_email, None)) users).
Proof.
  induction users as [|user users IH]; intros w Hall.
  - exists [], w, []. split; [done|]. split; [by rewrite app_nil_r|done].
  - destruct (process_meet_files_run user w)
      as (found & w0 & w1 & e0 & evs & _ & (Htr0 & Hdisc & Hfs0 & Hts0) & Hsrc & Hun
          & Hrun & Htr1 & Hnil).
    cbn [process_users]. unfold bind at 1, try_except, bind at 1. rewrite Hrun.
    unfold ret, bind at 1.
    destruct (flags_readable e0) eqn:Hgood.
    + assert (found = []) as Hnone.
      { destruct found as [|f rest]; [done|]. exfalso.
        destruct (Hsrc f) as [Hin Hmime]; [by left|].
        apply (Hun eq_refl f); [by left|by apply Hall]. }
      destruct (Hnil Hnone) as [-> ->].
      destruct (IH w0) as (report & w' & evs' & Hrec & Htr' & Hcond);
        [by rewrite Hfs0|].
      rewrite Hrec. eexists _, w', (e0 ++ evs'). split; [done|].
      split; [rewrite Htr', Htr0; by rewrite <- app_assoc|].
      unfold flags_readable. rewrite forallb_app. intros [_ Hok]%andb_prop.
      destruct (Hcond Hok) as (Hd & Hfs & Hts & ->).
      rewrite forallb_app, Hdisc, Hd. split_and!; try done; congruence.
    + destruct (process_users_total users w1) as (report & w' & evs' & Hrec & Htr').
      rewrite Hrec. eexists _, w', (e0 ++ evs ++ evs'). split; [done|].
      split; [rewrite Htr', Htr1, Htr0; by rewrite <- !app_assoc|].
      unfold flags_readable in *. rewrite forallb_app, Hgood. discriminate.
Qed.

End WithEnvironment.

Lemma all_flaggedb_spec fs : all_flaggedb fs = true -> all_flagged fs.
Proof.
  unfold all_flaggedb, all_flagged. rewrite forallb_forall.
  intros Hall f Hf Hmime. apply list_elem_of_In, Hall in Hf.
  rewrite Hmime, String.eqb_refl in Hf. cbn [implb] in Hf.
  destruct (lookup_file (file_id f) fs) as [g|] eqn:Hg; [|done].
  exists g. split; [done|]. by apply bool_decide_eq_true in Hf.
Qed.

End PipelineFacts.

(** ** What the discovery can reach *)

Module ReachFacts.
Section WithEnvironment.
Variable E : environment.
Variable A : apis.





End WithEnvironment.


End ReachFacts.

(** The shape of one pipeline run ([process_meet_files] for one
    identity), from any state, with any backend, webhook and store faults.
    After the discovery, which only reads, the events of the run are one
    stretch per discovered file, in order, and each file is left unfiled or
    is filed.  An unfiled file's stretch has no request that sets a flag and
    no chat post, and leaves every file's properties as they were.  A
    filed file's stretch is: its summary insertion that went through,
    later its copy that went through, then the requests of the by-title
    marking, then the notification's events (the client's and chat posts
    only), and the store at the end of the stretch is the one the marking
    left.  In a filed stretch no store request raised except requests of
    the marking itself.  This orders the requests inside a file's own
    stretch; it does not say which files the marking of a stretch flags. *)
Theorem process_meet_files_marks_after_filing (E : environment) (A : apis)
    (user_email : string) (w : world) :
  exists new_files w0 w' e0 evs,
    get_new_meet_files E user_email w = (Ok new_files, w0) /\
    trace w0 = trace w ++ e0 /\
    forallb discovering e0 = true /\
    drive_files w0 = drive_files w /\
    process_meet_files E A user_email w = (Ok tt, w') /\
    trace w' = trace w0 ++ evs /\
    processed_files E new_files w0 w' evs /\
    (forall fileId title wa wb es,
       filed E fileId title wa wb es ->
       forall e, e ∈ es -> is_failed_request e = true -> marking title e = true).
Proof.
  destruct (PipelineFacts.get_new_meet_files_spec E user_email w)
    as (found & w0 & e0 & Hrun & (Htr & Hev & Hfs & _) & _ & _).
  unfold process_meet_files, bind at 1. rewrite Hrun.
  destruct found as [|file files] eqn:Hfound; cbn [Chunker.nonempty negb].
  - exists [], w0, w0, e0, []. unfold ret. rewrite app_nil_r.
    split_and!; try done; [constructor|apply PipelineFacts.filed_failures].
  - rewrite <- Hfound. unfold bind at 1, get_world.
    destruct (PipelineFacts.for_each_batches E A (local_date E (clock w0))
                (batches 10 found) w0) as (w' & evs & Hloop & Hfiles).
    unfold batches in Hfiles. rewrite PipelineFacts.concat_batches_go in Hfiles.
    exists found, w0, w', e0, evs. rewrite <- Hfound in Hrun.
    split_and!; try done.
    + by apply PipelineFacts.processed_files_trace in Hfiles.
    + apply PipelineFacts.filed_failures.
Qed.

(** C1, the code against the claim.  The by-title marking escapes only
    the quotes of the title, so the title [a\\b] makes the query literal
    [a\\b], which the store reads as the name [a\b].  In a run over a
    transcript [t1] named [a\b] and a transcript [t2] named [a\\b], let
    the copy of [t1] raise, or let its summary insertion raise: [t1] is
    left unfiled, [t2] is summarised, written and copied, and the marking
    made for [t2] lists and flags [t1].  At the end of the run the
    transcript whose copy or write failed is marked processed, by the last
    request of the run that names it, and the transcript that was filed is
    not marked, nor is its copy. *)
Lemma marking_reaches_unfiled_transcript :
  let copy_fails := backslash_run failed_copy_environment in
  let write_fails := backslash_run failed_write_environment in
  let filing_of_t2 :=
    [ (FilesGet "t2" "properties", true);
      (FilesGet "t2" "mimeType,name,createdTime", true);
      (FilesExport "t2", true);
      (DocsGet "t2", true);
      (DocsInsertText "t2" 12 (summary_text "Other"), true);
      (FilesGet "t2" "name, driveId", true);
      (FilesCopy "t2" "a\\b" "dest", true) ] in
  let marks_of_the_run :=
    [ Drive (FilesUpdateProperties "t1" PROCESSED_PROPERTY "true") true ] in
  let flags_at_the_end :=
    [ ("rec", false); ("dest", false); ("t1", true); ("t2", false);
      ("copy-of-t2", false) ] in
  drive_unescape (title_literal "a\\b") = Some "a\b" /\
  requests_for "t1" (trace copy_fails)
    = [ (FilesGet "t1" "properties", true);
        (FilesGet "t1" "mimeType,name,createdTime", true);
        (FilesExport "t1", true);
        (DocsGet "t1", true);
        (DocsInsertText "t1" 12 (summary_text "Other"), true);
        (FilesGet "t1" "name, driveId", true);
        (FilesCopy "t1" "a\b" "dest", false);
        (FilesUpdateProperties "t1" PROCESSED_PROPERTY "true", true) ] /\
  requests_for "t2" (trace copy_fails) = filing_of_t2 /\
  List.filter is_mark (trace copy_fails) = marks_of_the_run /\
  flag_table copy_fails = flags_at_the_end /\
  requests_for "t1" (trace write_fails)
    = [ (FilesGet "t1" "properties", true);
        (FilesGet "t1" "mimeType,name,createdTime", true);
        (FilesExport "t1", true);
        (DocsGet "t1", true);
        (DocsInsertText "t1" 12 (summary_text "Other"), false);
        (FilesUpdateProperties "t1" PROCESSED_PROPERTY "true", true) ] /\
  requests_for "t2" (trace write_fails) = filing_of_t2 /\
  List.filter is_mark (trace write_fails) = marks_of_the_run /\
  flag_table write_fails = flags_at_the_end.
Proof. cbv zeta. split_and!; by vm_compute. Qed.

(** C3 (amended).  Within one invocation, let [first] be a file of the
    store whose metadata read goes through, that was created today and
    whose title is not yet in the shared title set, and let [second] be a
    file of the store with the same title, reached in any later state
    [w2] of the invocation (for the same or another identity).  Then
    processing [first] puts the title in the set and leaves [first]
    unfiled or filed; processing [second] returns after one store request,
    the read of its metadata, which is made before the skip: nothing is
    exported, classified, summarised, written, copied, marked or posted
    for it, and the store and the title set stay as they were.  When
    [first] was filed, no store request of its stretch raised and the
    title has no backslash, every document of the store with that title
    that is not in the trash has its flag set at the end, [first] and
    [second] among them when they are such documents. *)
Theorem dedup_by_title (E : environment) (A : apis) (today today2 : Z)
    (first second m m2 : drive_file) (w w2 : world) :
  lookup_file (file_id first) (drive_files w) = Some m ->
  drive_fault E (trace w) (FilesGet (file_id first) "mimeType,name,createdTime") = false ->
  createdDate m = today ->
  file_name m ∉ processed_titles w ->
  lookup_file (file_id second) (drive_files w) = Some m2 ->
  file_name m2 = file_name m ->
  later (snd (process_file E A today first w)) w2 ->
  exists w1 evs1 ok w3,
    process_file E A today first w = (Ok tt, w1) /\
    trace w1 = trace w ++ evs1 /\
    file_name m ∈ processed_titles w1 /\
    (unfiled w w1 evs1 \/ filed E (file_id first) (file_name m) w w1 evs1) /\
    process_file E A today2 second w2 = (Ok tt, w3) /\
    trace w3 = trace w2
               ++ [Drive (FilesGet (file_id second) "mimeType,name,createdTime") ok] /\
    drive_files w3 = drive_files w2 /\
    processed_titles w3 = processed_titles w2 /\
    (filed E (file_id first) (file_name m) w w1 evs1 ->
     forallb went_through evs1 = true ->
     Py.contains backslash (file_name m) = false ->
     forall fileId f,
       lookup_file fileId (drive_files w) = Some f ->
       titled (file_name m) f ->
       exists f', lookup_file fileId (drive_files w3) = Some f' /\ flagged f').
Proof.
  intros Hl Hfault Hdate Hnew Hl2 Hname Hlater.
  pose proof (PipelineFacts.process_file_changes E A today first w) as [Hev1 _].
  destruct (PipelineFacts.process_file_spec E A today first w)
    as (w1 & evs1 & Hrun & Htr & Hcase).
  rewrite Hrun in Hlater, Hev1. cbn [snd] in Hlater, Hev1.
  destruct Hcase as [(_ & _ & _ & [Hf | Hnone])|(m' & Hl' & Hcase)]; [congruence..|].
  assert (m' = m) as -> by congruence.
  destruct Hcase as [([Hd | Hin] & _)|(_ & _ & Hts & Hkind)]; [done..|].
  assert (file_name m ∈ processed_titles w1) as Hclaimed by set_solver.
  destruct Hlater as [Hev2 Hts2].
  destruct (PipelineFacts.lookup_evolves (file_id second) _ _ m2
              (PipelineFacts.evolves_trans _ _ _ Hev1 Hev2) Hl2)
    as (m2' & Hl2' & (_ & Hn2 & _)).
  destruct (PipelineFacts.process_file_spec E A today2 second w2)
    as (w3 & evs2 & Hrun2 & Htr2 & Hcase2).
  assert (exists ok, evs2 = [Drive (FilesGet (file_id second) "mimeType,name,createdTime") ok]
                     /\ drive_files w3 = drive_files w2
                     /\ processed_titles w3 = processed_titles w2) as (ok & -> & Hfs3 & Hts3).
  { destruct Hcase2 as [(-> & ? & ? & _)|(k & Hk & [(_ & -> & ? & ?)|(_ & Hnot & _)])].
    - by exists false.
    - by exists true.
    - exfalso. apply Hnot. assert (k = m2') as -> by congruence.
      rewrite Hn2, Hname. set_solver. }
  exists w1, evs1, ok, w3. do 8 (split; [done|]).
  intros Hfiled Hok Hbs fileId f Hf Htitled.
  destruct Hfiled as (pre & index & text & mid & name & dest & c & marks & notif
                      & wa & wb & om & Hevs & _ & _ & _ & _ & _ & _ & Hmark & Htrb & Hfsb).
  destruct (PipelineFacts.mark_all_spec E (file_name m) wa)
    as (om' & wb' & marks' & Hmark' & Htrb' & _ & _ & _ & Hall).
  rewrite Hmark in Hmark'. injection Hmark' as _ <-.
  rewrite Htrb in Htrb'. apply app_inv_head in Htrb'. subst marks'.
  assert (forallb went_through marks = true) as Hokm.
  { rewrite Hevs in Hok. rewrite !forallb_app in Hok.
    by repeat (apply andb_prop in Hok as [? Hok]). }
  destruct (PipelineFacts.lookup_evolves fileId _ _ f Hev1 Hf)
    as (f1 & Hf1 & (_ & Hn1 & Hm1 & _ & Ht1 & _)).
  destruct (PipelineFacts.lookup_elem _ _ _ Hf1) as [Hin1 _].
  assert (flagged f1) as Hflag1.
  { apply (Hall Hokm Hbs f1); [by rewrite <- Hfsb|].
    destruct Htitled as (? & ? & ?). unfold titled. split_and!; congruence. }
  destruct (PipelineFacts.lookup_evolves fileId _ _ f1 Hev2 Hf1)
    as (f2 & Hf2 & (_ & _ & _ & _ & _ & _ & Hkeep)).
  exists f2. rewrite Hfs3. split; [done|by apply Hkeep].
Qed.

Lemma dedup_by_title_witness :
  let E := quiet_environment in
  let A := example_apis in
  let first := transcript "t1" "Standup" "rec" 0 ∅ in
  let second := transcript "t2" "Standup" "rec" 0 ∅ in
  let w := store_world twin_store in
  let w2 := snd (process_file E A 0 first w) in
  exists w1 evs1 ok w3,
    process_file E A 0 first w = (Ok tt, w1) /\
    trace w1 = trace w ++ evs1 /\
    file_name first ∈ processed_titles w1 /\
    (unfiled w w1 evs1 \/ filed E (file_id first) (file_name first) w w1 evs1) /\
    process_file E A 0 second w2 = (Ok tt, w3) /\
    trace w3 = trace w2
               ++ [Drive (FilesGet (file_id second) "mimeType,name,createdTime") ok] /\
    drive_files w3 = drive_files w2 /\
    processed_titles w3 = processed_titles w2 /\
    (filed E (file_id first) (file_name first) w w1 evs1 ->
     forallb went_through evs1 = true ->
     Py.contains backslash (file_name first) = false ->
     forall fileId f,
       lookup_file fileId (drive_files w) = Some f ->
       titled (file_name first) f ->
       exists f', lookup_file fileId (drive_files w3) = Some f' /\ flagged f').
Proof.
  cbv zeta.
  apply (dedup_by_title quiet_environment example_apis 0 0
           (transcript "t1" "Standup" "rec" 0 ∅) (transcript "t2" "Standup" "rec" 0 ∅)
           (transcript "t1" "Standup" "rec" 0 ∅) (transcript "t2" "Standup" "rec" 0 ∅)
           (store_world twin_store)).
  - reflexivity.
  - reflexivity.
  - reflexivity.
  - apply not_elem_of_empty.
  - reflexivity.
  - reflexivity.
  - apply PipelineFacts.later_refl.
Defined.

(** One invocation on the two transcripts of one title: the requests that
    name the second one are the read of its flag by the discovery, the
    setting of its flag by the marking of the first, and then the read of
    its metadata, a remote call that comes before its skip.  With the
    first one created the day before, the first is skipped without
    claiming the title and the second is exported, summarised, written,
    copied and marked. *)
Lemma dedup_reads_metadata_before_skip :
  let run fs := trace (snd (handle_request quiet_environment example_apis ["u@x"]
                                           (store_world fs))) in
  requests_for "t2" (run twin_store)
    = [ (FilesGet "t2" "properties", true);
        (FilesUpdateProperties "t2" PROCESSED_PROPERTY "true", true);
        (FilesGet "t2" "mimeType,name,createdTime", true) ] /\
  requests_for "t1" (run stale_first_store)
    = [ (FilesGet "t1" "properties", true);
        (FilesGet "t1" "mimeType,name,createdTime", true);
        (FilesUpdateProperties "t1" PROCESSED_PROPERTY "true", true) ] /\
  requests_for "t2" (run stale_first_store)
    = [ (FilesGet "t2" "properties", true);
        (FilesGet "t2" "mimeType,name,createdTime", true);
        (FilesExport "t2", true);
        (DocsGet "t2", true);
        (DocsInsertText "t2" 12 (summary_text "Other"), true);
        (FilesGet "t2" "name, driveId", true);
        (FilesCopy "t2" "Standup" "dest", true);
        (FilesUpdateProperties "t2" PROCESSED_PROPERTY "true", true) ].
Proof. cbv zeta. split_and!; vm_compute; reflexivity. Qed.

(** On the two transcripts of one title every document ends with its flag
    set, the copy included. *)
Example twins_both_marked :
  map (fun f => (file_id f, bool_decide (flagged f)))
      (drive_files (snd (handle_request quiet_environment example_apis ["u@x"]
                                        (store_world twin_store))))
  = [("rec", false); ("dest", false); ("t1", true); ("t2", true); ("copy-of-t1", true)].
Proof. vm_compute. reflexivity. Qed.



(** The events of that second invocation: the listing of the folders, the
    read of the folder, the listing of its documents and one read of the
    flag per transcript. *)
Example second_pass_requests :
  let A := example_apis in
  let w := snd (handle_request quiet_environment A ["u@x"]
                               (store_world store_with_notes)) in
  drop (length (trace w)) (trace (snd (handle_request quiet_environment A ["u@x"] w)))
  = [ Drive (FilesList (QFoldersNamed "Meet Recordings") None) true;
      Drive (FilesGet "rec" "id,name") true;
      Drive (FilesList (QDocsInParent "rec") None) true;
      Drive (FilesGet "t1" "properties") true;
      Drive (FilesGet "t2" "properties") true ].
Proof. vm_compute. reflexivity. Qed.


(** ** Query literals *)

Module LiteralFacts.

Lemma unescape_cons_plain c s :
  Ascii.eqb c backslash = false -> Ascii.eqb c quote = false ->
  drive_unescape (String c s) = option_map (String c) (drive_unescape s).
Proof. intros Hb Hq. cbn [drive_unescape]. by rewrite Hb, Hq. Qed.

Lemma unescape_escaped d s :
  Ascii.eqb d quote || Ascii.eqb d backslash = true ->
  drive_unescape (String backslash (String d s))
  = option_map (String d) (drive_unescape s).
Proof.
  intros Hd. cbn [drive_unescape].
  change (Ascii.eqb backslash backslash) with true. cbv iota. by rewrite Hd.
Qed.

Lemma title_literal_cons c title :
  title_literal (String c title)
  = if Ascii.eqb c quote then String backslash (String quote (title_literal title))
    else String c (title_literal title).
Proof.
  unfold title_literal. cbn [Py.replace_char].
  destruct (Ascii.eqb c quote); [|done].
  by rewrite !PyFacts.app_cons, PyFacts.app_empty_l.
Qed.

(** What the store reads back from the literal of a title is never longer
    than the title, and shorter when the title has a backslash. *)
Lemma title_literal_shrinks n : forall title v,
  (String.length title <= n)%nat ->
  drive_unescape (title_literal title) = Some v ->
  (String.length v <= String.length title)%nat /\
  (Py.contains backslash title = true -> (String.length v < String.length title)%nat).
Proof.
  induction n as [|n IH]; intros [|c title] v Hlen Hun; simpl in Hlen; try lia.
  - injection Hun as <-. done.
  - injection Hun as <-. done.
  - rewrite title_literal_cons in Hun. cbn [Py.contains String.length].
    destruct (Ascii.eqb c quote) eqn:Hq.
    + apply Ascii.eqb_eq in Hq. subst c.
      rewrite unescape_escaped in Hun by done.
      destruct (drive_unescape (title_literal title)) as [v'|] eqn:Hrec; [|done].
      injection Hun as <-. destruct (IH title v' ltac:(lia) Hrec) as [H1 H2].
      change (Ascii.eqb quote backslash) with false. cbn [orb String.length].
      split; [lia|]. intros Hb. specialize (H2 Hb). lia.
    + destruct (Ascii.eqb c backslash) eqn:Hb.
      * apply Ascii.eqb_eq in Hb. subst c.
        destruct title as [|d title]; [done|].
        rewrite title_literal_cons in Hun.
        destruct (Ascii.eqb d quote) eqn:Hdq.
        { rewrite unescape_escaped in Hun by done. cbn [drive_unescape] in Hun.
          change (Ascii.eqb quote backslash) with false in Hun.
          change (Ascii.eqb quote quote) with true in Hun. done. }
        destruct (Ascii.eqb d backslash) eqn:Hdb.
        { rewrite unescape_escaped in Hun by (by rewrite Hdq, Hdb).
          destruct (drive_unescape (title_literal title)) as [v'|] eqn:Hrec; [|done].
          injection Hun as <-. simpl in Hlen.
          destruct (IH title v' ltac:(lia) Hrec) as [H1 _].
          cbn [String.length]. split; [lia|]. intros _. lia. }
        cbn [drive_unescape] in Hun.
        change (Ascii.eqb backslash backslash) with true in Hun.
        by rewrite Hdq, Hdb in Hun.
      * rewrite unescape_cons_plain in Hun by done.
        destruct (drive_unescape (title_literal title)) as [v'|] eqn:Hrec; [|done].
        injection Hun as <-. destruct (IH title v' ltac:(lia) Hrec) as [H1 H2].
        cbn [orb String.length]. split; [lia|]. intros Hc. specialize (H2 Hc). lia.
Qed.

Lemma escape_query_string_cons c text :
  escape_query_string (String c text)
  = if Ascii.eqb c backslash
    then String backslash (String backslash (escape_query_string text))
    else if Ascii.eqb c quote
         then String backslash (String quote (escape_query_string text))
         else String c (escape_query_string text).
Proof.
  unfold escape_query_string. cbn [Py.replace_char].
  destruct (Ascii.eqb c backslash) eqn:Hb.
  - rewrite !PyFacts.app_cons, PyFacts.app_empty_l. cbn [Py.replace_char].
    change (Ascii.eqb backslash quote) with false. done.
  - cbn [Py.replace_char]. destruct (Ascii.eqb c quote); [|done].
    by rewrite !PyFacts.app_cons, PyFacts.app_empty_l.
Qed.

End LiteralFacts.

(** X1. [escape_query_string] and the store's reading of a query literal
    are inverse: whatever the text, quotes and backslashes included, the
    literal it makes is a valid one and is read back as the text. *)
Theorem escape_query_string_roundtrip (text : string) :
  drive_unescape (escape_query_string text) = Some text.
Proof.
  induction text as [|c text IH]; [done|].
  rewrite LiteralFacts.escape_query_string_cons.
  destruct (Ascii.eqb c backslash) eqn:Hb.
  - apply Ascii.eqb_eq in Hb. subst c.
    rewrite LiteralFacts.unescape_escaped by done. by rewrite IH.
  - destruct (Ascii.eqb c quote) eqn:Hq.
    + apply Ascii.eqb_eq in Hq. subst c.
      rewrite LiteralFacts.unescape_escaped by done. by rewrite IH.
    + rewrite LiteralFacts.unescape_cons_plain by done. by rewrite IH.
Qed.

(** X2. The literal [mark_all_with_title_as_processed] builds for a title
    (quotes escaped, backslashes not) is read back by the store as that
    title exactly when the title has no backslash; for such titles it is
    the literal [escape_query_string] makes.  For a title with a
    backslash the query is invalid or names another title. *)
Theorem title_literal_roundtrip_iff (file_title : string) :
  (drive_unescape (title_literal file_title) = Some file_title
   <-> Py.contains backslash file_title = false) /\
  (Py.contains backslash file_title = false ->
   title_literal file_title = escape_query_string file_title).
Proof.
  split; [split|].
  - intros Hun.
    destruct (LiteralFacts.title_literal_shrinks _ file_title file_title (le_n _) Hun)
      as [_ Hlt].
    destruct (Py.contains backslash file_title); [|done].
    specialize (Hlt eq_refl). lia.
  - apply DriveFacts.title_literal_unescape.
  - induction file_title as [|c t IH]; [done|].
    cbn [Py.contains]. intros [Hc Ht]%orb_false_iff.
    rewrite LiteralFacts.title_literal_cons, LiteralFacts.escape_query_string_cons.
    rewrite Hc, (IH Ht). done.
Qed.

(** ** The notification sink *)

Module ChatFacts.

Lemma send_daily_outcome (E : environment) (api : ChatAPI)
    (meetings : list (string * string)) (w : world) :
  exists b w',
    send_daily_meeting_summary E api meetings w = (Ok b, w') /\
    clock w' = clock w /\ gemini w' = gemini w /\
    drive_files w' = drive_files w /\ processed_titles w' = processed_titles w /\
    match meetings with
    | [] => b = true /\ trace w' = trace w
    | _ :: _ =>
        exists message,
          let payload := _format_message api message in
          let reply := chat_backend E (trace w) (webhook_url api) payload in
          trace w' = trace w ++ [ChatPost (webhook_url api) payload reply] /\
          (b = true <-> reply = ChatStatus 200)
    end.
Proof.
  unfold send_daily_meeting_summary, try_except.
  destruct meetings as [|m ms]; cbn [Chunker.nonempty negb].
  - exists true, w. unfold ret. by split_and!.
  - unfold bind at 1, time_time. unfold bind, webhook_post.
    match goal with |- context [_format_message api ?m] => set (message := m) end.
    destruct (chat_backend E (trace w) (webhook_url api) (_format_message api message))
      as [|status] eqn:Hreply.
    + eexists false, _. split; [reflexivity|]. split_and!; try done.
      exists message. cbv zeta. rewrite Hreply. split; [done|]. split; discriminate.
    + eexists (status =? 200), _. split; [reflexivity|]. split_and!; try done.
      exists message. cbv zeta. rewrite Hreply. split; [done|].
      rewrite Z.eqb_eq. split; [by intros ->|by intros [= ->]].
Qed.

End ChatFacts.

(** X3. [send_daily_meeting_summary] never raises and does not touch the
    store, the clock or the title set.  With no meetings it returns
    [True] without any request.  Otherwise it makes exactly one post to
    the webhook of the object, with the payload in the shape of the
    platform, and returns [True] exactly when the answer has status 200:
    a raised post and any other status, other 2xx included, give
    [False]. *)
Theorem send_daily_meeting_summary_outcome (E : environment) (api : ChatAPI)
    (meetings : list (string * string)) (w : world) :
  exists b w',
    send_daily_meeting_summary E api meetings w = (Ok b, w') /\
    clock w' = clock w /\ gemini w' = gemini w /\
    drive_files w' = drive_files w /\ processed_titles w' = processed_titles w /\
    match meetings with
    | [] => b = true /\ trace w' = trace w
    | _ :: _ =>
        exists message,
          let payload := _format_message api message in
          let reply := chat_backend E (trace w) (webhook_url api) payload in
          trace w' = trace w ++ [ChatPost (webhook_url api) payload reply] /\
          (b = true <-> reply = ChatStatus 200)
    end.
Proof. apply ChatFacts.send_daily_outcome. Qed.

(** X4. [send_message] never raises; it makes exactly one post, with the
    payload in the shape of the platform, and returns [True] exactly
    when the post was answered with a status outside 400 to 599.  So it
    accepts the answers [send_daily_meeting_summary] accepts and more:
    any status that is not an error counts as sent. *)
Theorem send_message_outcome (E : environment) (api : ChatAPI)
    (message : string) (w : world) :
  let payload := _format_message api message in
  let reply := chat_backend E (trace w) (webhook_url api) payload in
  exists b,
    send_message E api message w
      = (Ok b, add_event (ChatPost (webhook_url api) payload reply) w) /\
    (b = true <->
     exists status, reply = ChatStatus status /\ ~ (400 <= status < 600)) /\
    (reply = ChatStatus 200 -> b = true).
Proof.
  cbv zeta. unfold send_message, try_except. unfold bind at 1, webhook_post.
  destruct (chat_backend E (trace w) (webhook_url api) (_format_message api message))
    as [|status] eqn:Hreply.
  - exists false. split; [done|]. split; [|done].
    split; [done|]. by intros (s & Hs & _).
  - unfold bind at 1.
    destruct ((400 <=? status) && (status <? 600)) eqn:Herr; unfold raise, ret, bind.
    + exists false. split; [done|].
      apply andb_prop in Herr as [H1%Z.leb_le H2%Z.ltb_lt].
      split; [split; [done|]; intros (s & [= <-] & Hs); lia|].
      intros [= ->]. lia.
    + exists true. split; [done|]. split; [|done].
      split; [|done]. intros _. exists status. split; [done|].
      apply andb_false_iff in Herr as [H1%Z.leb_gt | H2%Z.ltb_ge]; lia.
Qed.

(** X5. The chat objects [setup_apis] builds from the environment.  The
    construction fails exactly when [CHAT_WEBHOOK_URL] is unset or empty,
    whatever [VALIDATION_CHAT_WEBHOOK_URL] holds.  Otherwise the main
    object posts to [CHAT_WEBHOOK_URL], and the validation object posts
    to [VALIDATION_CHAT_WEBHOOK_URL] when that is set and non-empty and
    falls back to [CHAT_WEBHOOK_URL] when it is not. *)
Theorem setup_chat_apis_fallback (environ : gmap string string) :
  let main := environ !! "CHAT_WEBHOOK_URL" in
  let validation := environ !! "VALIDATION_CHAT_WEBHOOK_URL" in
  match setup_chat_apis environ with
  | None => main = None \/ main = Some ""
  | Some (chat, validation_chat) =>
      exists url,
        main = Some url /\ url <> "" /\
        webhook_url chat = url /\
        chat_platform chat = _detect_platform url /\
        webhook_url validation_chat
          = match validation with
            | Some v => if Py.truthy v then v else url
            | None => url
            end /\
        chat_platform validation_chat = _detect_platform (webhook_url validation_chat)
  end.
Proof.
  cbv zeta. unfold setup_chat_apis, ChatAPI_init, or_else.
  destruct (environ !! "CHAT_WEBHOOK_URL") as [[|c url]|] eqn:Hmain;
    cbn [Py.truthy]; [by right| |by left].
  destruct (environ !! "VALIDATION_CHAT_WEBHOOK_URL") as [[|d v]|]; cbn [Py.truthy];
    eexists; by split_and!.
Qed.

(** X6. The payload of a chat object built by [ChatAPI.__init__] is in
    the [content] shape exactly when its URL, lower-cased, mentions
    [discord.com] and does not mention [slack.com]; every other URL,
    unknown hosts included, gets the [text] shape. *)
Theorem format_message_by_url (environ : gmap string string)
    (webhook : option string) (api : ChatAPI) (message : string) :
  ChatAPI_init environ webhook = Some api ->
  let url := lower (webhook_url api) in
  _format_message api message
  = if negb (contains_str "slack.com" url) && contains_str "discord.com" url
    then ContentPayload message
    else TextPayload message.
Proof.
  unfold ChatAPI_init. intros Hinit.
  destruct (or_else webhook (environ !! "CHAT_WEBHOOK_URL")) as [url|]; [|done].
  destruct (Py.truthy url); [|done]. injection Hinit as <-.
  cbv zeta. unfold _format_message, _detect_platform. cbn [chat_platform webhook_url].
  destruct (contains_str "slack.com" (lower url)); [done|].
  destruct (contains_str "discord.com" (lower url)); [done|].
  by destruct (contains_str "chat.googleapis.com" (lower url)).
Qed.

Lemma format_message_by_url_witness :
  exists api,
    ChatAPI_init ∅ (Some "https://Discord.com/api/webhooks/1") = Some api /\
    _format_message api "hi" = ContentPayload "hi".
Proof.
  eexists. split; [reflexivity|].
  by rewrite (format_message_by_url ∅ (Some "https://Discord.com/api/webhooks/1") _ "hi"
                eq_refl).
Defined.

(** ** The chat summaries *)

Module StripFacts.

Lemma lstrip_clean s : clean_front (Py.lstrip s).
Proof.
  induction s as [|c s IH]; [done|]. cbn [Py.lstrip].
  by destruct (Py.is_space c) eqn:Hc.
Qed.

Lemma lstrip_fixed s : clean_front s -> Py.lstrip s = s.
Proof. destruct s as [|c s]; [done|]. simpl. by intros ->. Qed.

Lemma rstrip_clean s : clean_front s -> clean_front (Py.rstrip s).
Proof.
  destruct s as [|c s]; [done|]. cbn [clean_front Py.rstrip]. intros Hc.
  destruct (Py.rstrip s); [by rewrite Hc|done].
Qed.

Lemma rstrip_idem s : Py.rstrip (Py.rstrip s) = Py.rstrip s.
Proof.
  induction s as [|c s IH]; [done|]. cbn [Py.rstrip].
  destruct (Py.rstrip s) as [|d t] eqn:Hr.
  - destruct (Py.is_space c) eqn:Hc; [done|]. cbn [Py.rstrip]. by rewrite Hc.
  - change (Py.rstrip (String c (String d t)))
      with (match Py.rstrip (String d t) with
            | EmptyString => if Py.is_space c then EmptyString else String c EmptyString
            | String a b => String c (String a b)
            end).
    by rewrite IH.
Qed.

Lemma strip_idem s : Py.strip (Py.strip s) = Py.strip s.
Proof.
  unfold Py.strip.
  rewrite (lstrip_fixed (Py.rstrip (Py.lstrip s))).
  - apply rstrip_idem.
  - apply rstrip_clean, lstrip_clean.
Qed.

Lemma reply_result_stripped r text :
  reply_result r = Some text -> Py.strip text = text.
Proof.
  destruct r as [|status [| | |t]]; try done. simpl.
  destruct ((status =? 429) || (400 <=? status) && (status <? 600)); [done|].
  intros [= <-]. apply strip_idem.
Qed.

Lemma retry_run_stripped sent n evs text :
  retry_run sent n evs (Some text) -> Py.strip text = text.
Proof.
  intros Hrun. remember (Some text) as res eqn:Hres.
  induction Hrun as [n pre r t Hpre Hr | pre r Hpre Hr
                    | n pre r d evs res Hn Hpre Hr Hd1 Hd2 Hrun IH].
  - injection Hres as ->. by eapply reply_result_stripped.
  - discriminate.
  - by apply IH.
Qed.

Section WithEnvironment.
Variable E : environment.

(** The shape the two chat summaries share. *)
Lemma chat_summary_shape prompt w :
  exists res w' evs r,
    try_except
      (result <- _generate_with_retry E prompt ;;
       ret (if Py.truthy result then Some (Py.strip result) else None))
      (fun _ => ret None) w = (Ok res, w') /\
    trace w' = trace w ++ evs /\
    forallb is_client_event evs = true /\
    calls evs = [(prompt, r)] /\
    drive_files w' = drive_files w /\
    processed_titles w' = processed_titles w /\
    res = match r with
          | Some text => if Py.truthy text then Some text else None
          | None => None
          end /\
    (forall text, res = Some text -> text <> "" /\ Py.strip text = text).
Proof.
  destruct (ClientFacts.generate_spec E prompt w)
    as (o & w' & evs & Hrun & (Htr & Hfs & Hts & _) & Hshape & _).
  unfold try_except, bind. rewrite Hrun.
  assert (forallb is_client_event (evs ++ [Generated prompt (returned o)]) = true) as Hev.
  { by rewrite forallb_app, (ClientFacts.retry_run_client_events _ _ _ _ Hshape). }
  assert (calls (evs ++ [Generated prompt (returned o)]) = [(prompt, returned o)]) as Hc.
  { by rewrite OperationFacts.calls_app, (OperationFacts.retry_run_calls _ _ _ _ Hshape). }
  destruct o as [text|e]; cbn [returned] in *.
  - pose proof (retry_run_stripped _ _ _ _ Hshape) as Hst.
    eexists _, w', _, (Some text). unfold ret. split; [reflexivity|].
    split_and!; try done.
    + by rewrite Hst.
    + rewrite Hst. destruct text as [|c t]; [done|]. by intros ? [= <-].
  - eexists None, w', _, None. unfold ret. by split_and!.
Qed.

End WithEnvironment.
End StripFacts.

(** X7. [generate_chat_summary] and [generate_user_validation_summary]
    never raise and touch neither the store nor the title set.  Each
    makes exactly one call of the client, with the instruction, the
    meeting time when one is given and non-empty, and the transcript.  The
    answer is [None] exactly when that call raised or returned the empty
    text; otherwise it is the text the call returned, unchanged: the
    second [strip] removes nothing.  So an answer that is a text is
    never empty and has no white space at its ends. *)
Theorem chat_summaries_result (E : environment) (transcript_text : string)
    (meeting_time : option string) (w : world) :
  let outcome_of run instruction :=
    exists res w' evs r,
      run w = (Ok res, w') /\
      trace w' = trace w ++ evs /\
      forallb is_client_event evs = true /\
      calls evs = [(chat_prompt instruction transcript_text meeting_time, r)] /\
      drive_files w' = drive_files w /\
      processed_titles w' = processed_titles w /\
      res = match r with
            | Some text => if Py.truthy text then Some text else None
            | None => None
            end /\
      (forall text, res = Some text -> text <> "" /\ Py.strip text = text) in
  outcome_of (generate_chat_summary E transcript_text meeting_time)
             (chat_summary_instruction E) /\
  outcome_of (generate_user_validation_summary E transcript_text meeting_time)
             (validation_summary_instruction E).
Proof.
  cbv zeta. split; apply StripFacts.chat_summary_shape.
Qed.

(** ** The store adapter, operation by operation *)

Module StoreFacts.

Lemma lookup_update_file fileId g fs :
  (forall f, file_id (g f) = file_id f) ->
  lookup_file fileId (update_file fileId g fs) = option_map g (lookup_file fileId fs).
Proof.
  intros Hg. unfold lookup_file, update_file.
  induction fs as [|f fs IH]; [done|]. cbn [map List.find].
  destruct (String.eqb (file_id f) fileId) eqn:Hf.
  - by rewrite Hg, Hf.
  - by rewrite Hf.
Qed.

Lemma hd_pages_go_elem {B} bound pageSize (l : list B) x :
  x ∈ hd [] (pages_go bound pageSize l) -> x ∈ l.
Proof.
  intros Hx. rewrite <- (DriveFacts.concat_pages_go bound pageSize l).
  destruct (pages_go bound pageSize l) as [|pg rest]; [by apply elem_of_nil in Hx|].
  simpl in *. apply elem_of_app. by left.
Qed.

Section WithEnvironment.
Variable E : environment.

Lemma mark_as_processed_cases fileId w :
  let request := FilesUpdateProperties fileId PROCESSED_PROPERTY "true" in
  (exists f,
     lookup_file fileId (drive_files w) = Some f /\
     mark_as_processed E fileId w
       = (Ok true, served w request
                     (update_file fileId (with_property PROCESSED_PROPERTY "true")
                                  (drive_files w))))
  \/ mark_as_processed E fileId w = (Ok false, add_event (Drive request false) w).
Proof.
  cbv zeta. unfold mark_as_processed, try_except, bind.
  destruct (DriveFacts.files_update_property_cases E fileId PROCESSED_PROPERTY "true" w)
    as [(f & Hl & Hrun)|[e Hrun]]; rewrite Hrun; [left; by exists f|by right].
Qed.

Lemma folder_documents_in folder_id w :
  discovers (folder_documents E folder_id) w
            (fun f => f ∈ drive_files w /\ mimeType f = document_mime /\
                      trashed f = false /\
                      exists parent, drive_unescape folder_id = Some parent /\
                                     parent ∈ parents f).
Proof.
  unfold discovers, folder_documents. unfold bind at 1, get_world.
  unfold result_pages, query_filter.
  destruct (drive_unescape folder_id) as [v|]; cbn [option_map].
  - set (keep := fun f : drive_file => _).
    destruct (PipelineFacts.folder_pages_spec E (QDocsInParent folder_id)
                (pages_of 100 (List.filter keep (drive_files w))) 0%nat w)
      as (found & w' & evs & Hrun & Hreads & Hsub & Hnot).
    exists found, w', evs. split_and!; try done.
    intros f Hf. specialize (Hsub f Hf). unfold pages_of in Hsub.
    rewrite DriveFacts.concat_pages_go in Hsub.
    apply list_elem_of_In, filter_In in Hsub as [Hin Hkeep].
    unfold keep in Hkeep. apply andb_true_iff in Hkeep as [Hk Ht].
    apply andb_true_iff in Hk as [Hp Hm].
    split; [by apply list_elem_of_In|].
    split; [by apply String.eqb_eq in Hm|].
    split; [by destruct (trashed f)|].
    exists v. split; [done|].
    apply existsb_exists in Hp as (x & Hx & Heq).
    apply String.eqb_eq in Heq. subst x. by apply list_elem_of_In.
  - unfold try_except, bind.
    destruct (DriveFacts.files_list_cases E (QDocsInParent folder_id) None None w)
      as [(p & Hp & _)|[e Hrun]]; [done|]. rewrite Hrun. unfold ret.
    eexists [], _, [Drive (FilesList (QDocsInParent folder_id) None) false].
    split_and!; try done.
    + intros f Hf. by apply elem_of_nil in Hf.
    + intros _ f Hf. by apply elem_of_nil in Hf.
Qed.

Lemma folders_documents_in folders : forall w,
  discovers (folders_documents E folders) w
            (fun f => f ∈ drive_files w /\ mimeType f = document_mime /\
                      trashed f = false /\
                      exists folder parent,
                        folder ∈ folders /\
                        drive_unescape (file_id folder) = Some parent /\
                        parent ∈ parents f).
Proof.
  induction folders as [|folder folders IH]; intros w.
  - apply (PipelineFacts.discovers_nil _ w w []); [done|apply PipelineFacts.reads_refl].
  - unfold discovers at 1. cbn [folders_documents].
    assert (discovers
              (try_except
                 (accessible <- try_except
                                  (files_get E (file_id folder) "id,name" ;; ret true)
                                  (fun _ => ret false) ;;
                  if accessible then folder_documents E (file_id folder) else ret [])
                 (fun _ => ret [])) w
              (fun f => f ∈ drive_files w /\ mimeType f = document_mime /\
                        trashed f = false /\
                        exists parent, drive_unescape (file_id folder) = Some parent /\
                                       parent ∈ parents f)) as Hfolder.
    { unfold discovers. unfold try_except at 1. unfold bind at 1.
      unfold try_except, bind at 1.
      destruct (DriveFacts.files_get_cases E (file_id folder) "id,name" w)
        as [(f0 & Hl & Hrun)|(e & Hrun & _)]; rewrite Hrun; unfold ret.
      - set (w1 := served w _ _).
        destruct (folder_documents_in (file_id folder) w1)
          as (found & w2 & e2 & Hdocs & Hr2 & Hsub & Hnot).
        rewrite Hdocs.
        exists found, w2, ([Drive (FilesGet (file_id folder) "id,name") true] ++ e2).
        split; [done|].
        split; [eapply PipelineFacts.reads_trans;
                [apply PipelineFacts.reads_served|done]|].
        split; [done|]. simpl. intros Hok f Hf. by apply Hnot.
      - eexists [], _, [Drive (FilesGet (file_id folder) "id,name") false].
        split_and!; try done.
        + intros f Hf. by apply elem_of_nil in Hf.
        + intros _ f Hf. by apply elem_of_nil in Hf. }
    destruct Hfolder as (found & w1 & e1 & Hrun1 & Hr1 & Hsub1 & Hnot1).
    unfold bind at 1. rewrite Hrun1. unfold bind at 1.
    destruct (IH w1) as (more & w2 & e2 & Hrun2 & Hr2 & Hsub2 & Hnot2).
    rewrite Hrun2. unfold ret.
    assert (drive_files w1 = drive_files w) as Hfs.
    { destruct Hr1 as (_ & _ & -> & _). done. }
    exists (found ++ more), w2, (e1 ++ e2). split; [done|].
    split; [by eapply PipelineFacts.reads_trans|]. split.
    + intros f [Hf|Hf]%elem_of_app.
      * destruct (Hsub1 f Hf) as (? & ? & ? & parent & ? & ?).
        split_and!; try done. exists folder, parent. split_and!; try done. by left.
      * destruct (Hsub2 f Hf) as (Hin & ? & ? & fo & parent & ? & ? & ?).
        rewrite Hfs in Hin. split_and!; try done.
        exists fo, parent. split_and!; try done. by right.
    + rewrite forallb_app. intros [Hok1 Hok2]%andb_true_iff f [Hf|Hf]%elem_of_app.
      * by apply Hnot1.
      * rewrite <- Hfs. by apply Hnot2.
Qed.

Lemma get_new_meet_files_in user_email w :
  discovers (get_new_meet_files E user_email) w (in_meet_recordings (drive_files w)).
Proof.
  unfold discovers, get_new_meet_files, try_except.
  unfold bind at 1, get_world. unfold bind at 1.
  set (q := QFoldersNamed "Meet Recordings").
  destruct (DriveFacts.files_list_cases E q None
              (option_map (fun pages => hd [] pages) (result_pages q w)) w)
    as [(p & Hp & Hrun)|[e Hrun]]; rewrite Hrun; unfold ret.
  2:{ eexists [], _, [Drive (FilesList q None) false]. split_and!; try done.
      - intros f Hf. by apply elem_of_nil in Hf.
      - intros _ f Hf. by apply elem_of_nil in Hf. }
  set (w1 := served w _ _).
  assert (reads w w1 [Drive (FilesList q None) true]) as Hr1 by done.
  assert (forall folder, folder ∈ p ->
            folder ∈ drive_files w /\ file_name folder = "Meet Recordings" /\
            mimeType folder = folder_mime /\ trashed folder = false) as Hfolders.
  { intros folder Hin. unfold result_pages, q, query_filter in Hp.
    change (drive_unescape "Meet Recordings") with (Some "Meet Recordings") in Hp.
    cbn [option_map] in Hp. injection Hp as <-.
    apply hd_pages_go_elem in Hin.
    apply list_elem_of_In, filter_In in Hin as [Hin Hkeep].
    apply andb_true_iff in Hkeep as [Hk Ht]. apply andb_true_iff in Hk as [Hn Hm].
    split; [by apply list_elem_of_In|].
    split; [by apply String.eqb_eq in Hn|].
    split; [by apply String.eqb_eq in Hm|by destruct (trashed folder)]. }
  destruct (Chunker.nonempty p).
  - destruct (folders_documents_in p w1) as (found & w2 & e2 & Hdocs & Hr2 & Hsub & Hnot).
    rewrite Hdocs. exists found, w2, ([Drive (FilesList q None) true] ++ e2).
    split; [done|]. split; [by eapply PipelineFacts.reads_trans|]. split.
    + intros f Hf. destruct (Hsub f Hf) as (Hin & Hm & Ht & fo & parent & Hfo & Hun & Hpar).
      destruct (Hfolders fo Hfo) as (? & ? & ? & ?).
      unfold in_meet_recordings. split_and!; try done.
      exists fo, parent. by split_and!.
    + simpl. intros Hok f Hf. by apply Hnot.
  - eexists [], w1, [Drive (FilesList q None) true]. split_and!; try done.
    + intros f Hf. by apply elem_of_nil in Hf.
    + intros _ f Hf. by apply elem_of_nil in Hf.
Qed.

End WithEnvironment.
End StoreFacts.

(** X8. [mark_as_processed] never raises and makes one update request.
    When it returns [False] the store is as it was.  When it returns
    [True] the file existed, only flags were set, and the file reads as
    processed from then on: in every later state of the store (files may
    have been marked or copied in between) a [has_been_processed] for the
    same id whose read goes through returns [True]. *)
Theorem mark_as_processed_then_check (E : environment) (fileId : string) (w : world) :
  exists b w1,
    mark_as_processed E fileId w = (Ok b, w1) /\
    trace w1 = trace w
               ++ [Drive (FilesUpdateProperties fileId PROCESSED_PROPERTY "true") b] /\
    processed_titles w1 = processed_titles w /\
    (b = false -> drive_files w1 = drive_files w) /\
    (b = true ->
     (exists f, lookup_file fileId (drive_files w) = Some f) /\
     marks_only (drive_files w) (drive_files w1) /\
     forall w2,
       evolves (drive_files w1) (drive_files w2) ->
       drive_fault E (trace w2) (FilesGet fileId "properties") = false ->
       exists w3, has_been_processed E fileId w2 = (Ok true, w3)).
Proof.
  destruct (StoreFacts.mark_as_processed_cases E fileId w) as [(f & Hl & Hrun)|Hrun];
    rewrite Hrun.
  - eexists true, _. split; [reflexivity|]. split_and!; try done.
    intros _. split; [by exists f|]. split; [apply DriveFacts.marks_only_update|].
    intros w2 Hev Hfault. cbn [served drive_files] in Hev.
    assert (lookup_file fileId
              (update_file fileId (with_property PROCESSED_PROPERTY "true") (drive_files w))
            = Some (with_property PROCESSED_PROPERTY "true" f)) as Hl1.
    { rewrite StoreFacts.lookup_update_file by done. by rewrite Hl. }
    destruct (PipelineFacts.lookup_evolves _ _ _ _ Hev Hl1)
      as (f2 & Hl2 & (_ & _ & _ & _ & _ & _ & Hkeep)).
    specialize (Hkeep (DriveFacts.flagged_with_property f)).
    unfold has_been_processed, try_except, bind, files_get, execute.
    rewrite Hfault, Hl2. cbn [option_map]. unfold ret.
    rewrite bool_decide_eq_true_2 by exact Hkeep. eauto.
  - eexists false, _. split; [reflexivity|]. by split_and!.
Qed.

(** X9. [has_been_processed] never raises, makes one read and changes
    nothing.  It returns [True] only for a file that exists and has the
    flag set; a read that raises (a fault of the store, or no such file)
    gives [False], as does a file without the flag. *)
Theorem has_been_processed_outcome (E : environment) (fileId : string) (w : world) :
  exists b ok,
    has_been_processed E fileId w
      = (Ok b, World (clock w) (trace w ++ [Drive (FilesGet fileId "properties") ok])
                     (gemini w) (drive_files w) (processed_titles w)) /\
    (b = true <-> ok = true /\ processed_in (drive_files w) fileId) /\
    (ok = false <->
     drive_fault E (trace w) (FilesGet fileId "properties") = true \/
     lookup_file fileId (drive_files w) = None).
Proof.
  unfold has_been_processed, try_except, bind, files_get, execute.
  destruct (drive_fault E (trace w) (FilesGet fileId "properties")) eqn:Hfault.
  - exists false, false. split; [done|]. split; [|by split; [left|]].
    split; [done|by intros [? _]].
  - destruct (lookup_file fileId (drive_files w)) as [f|] eqn:Hl; simpl.
    + exists (bool_decide (properties f !! PROCESSED_PROPERTY = Some "true")), true.
      split; [done|]. split.
      * rewrite bool_decide_eq_true. split.
        -- intros Hf. split; [done|]. by exists f.
        -- intros (_ & g & Hg & Hflag). assert (g = f) as -> by congruence. done.
      * split; [done|]. by intros [?|?].
    + exists false, false. split; [done|]. split; [|by split; [right|]].
      split; [done|by intros [? _]].
Qed.

(** X10. [copy_file] never raises.  It returns [True] after exactly three
    requests that went through: the access check of the destination, the
    read of the file's name, and the copy; the store then has one more
    file, at the end, named as the original with the destination as its
    only parent, and every other file is as it was.  In every other case
    it returns [False] with the store unchanged; when the destination
    cannot be read nothing else is requested, and when the file's name
    cannot be read no copy is requested. *)
Theorem copy_file_outcome (E : environment) (fileId folder_id : string) (w : world) :
  let verify := Drive (FilesGet folder_id "id, name, driveId, capabilities") in
  let read := Drive (FilesGet fileId "name, driveId") in
  exists b w' evs,
    copy_file E fileId folder_id w = (Ok b, w') /\
    trace w' = trace w ++ evs /\
    processed_titles w' = processed_titles w /\
    if b then
      exists f c,
        lookup_file fileId (drive_files w) = Some f /\
        evs = [verify true; read true;
               Drive (FilesCopy fileId (file_name f) folder_id) true] /\
        drive_files w' = drive_files w ++ [c] /\
        file_name c = file_name f /\ parents c = [folder_id]
    else
      drive_files w' = drive_files w /\
      (evs = [verify false] \/ evs = [verify true; read false] \/
       exists name, evs = [verify true; read true;
                           Drive (FilesCopy fileId name folder_id) false]).
Proof.
  cbv zeta. unfold copy_file, try_except. unfold bind at 1.
  destruct (DriveFacts.verify_folder_access_cases E folder_id w) as [Hv|Hv];
    rewrite Hv; cbn [negb].
  - set (w1 := served w _ _). unfold bind at 1.
    destruct (DriveFacts.files_get_cases E fileId "name, driveId" w1)
      as [(f & Hl & Hrun)|(e & Hrun & _)]; rewrite Hrun.
    + set (w2 := served w1 _ _). unfold bind at 1.
      unfold files_copy, execute.
      destruct (drive_fault E (trace w2) (FilesCopy fileId (file_name f) folder_id)).
      * eexists false, _, _. DriveFacts.ran. split; [done|]. right. right. eauto.
      * change (drive_files w2) with (drive_files w1). rewrite Hl. cbn [option_map].
        eexists true, _, _. DriveFacts.ran. eexists f, _. by split_and!.
    + eexists false, _, _. DriveFacts.ran. split; [done|]. right. by left.
  - eexists false, _, [_]. DriveFacts.ran. split; [done|]. by left.
Qed.

(** X11. [get_new_meet_files] never raises and only reads: its requests
    are listings and reads of file fields, and the store and the title
    set are as before.  Every file it returns is a document of the store
    that is not in the trash and lies in a folder named [Meet Recordings]
    that is not in the trash; when no read of a flag raised, none of the
    returned files has the flag set.  The identity it is called for plays
    no part: every identity gets the same answer. *)
Theorem get_new_meet_files_sources (E : environment) (user_email : string) (w : world) :
  (exists found w' evs,
     get_new_meet_files E user_email w = (Ok found, w') /\
     trace w' = trace w ++ evs /\
     forallb discovering evs = true /\
     drive_files w' = drive_files w /\
     processed_titles w' = processed_titles w /\
     (forall f, f ∈ found -> in_meet_recordings (drive_files w) f) /\
     (flags_readable evs = true ->
      forall f, f ∈ found -> ~ processed_in (drive_files w) (file_id f))) /\
  (forall other, get_new_meet_files E other w = get_new_meet_files E user_email w).
Proof.
  split; [|done].
  destruct (StoreFacts.get_new_meet_files_in E user_email w)
    as (found & w' & evs & Hrun & (Htr & Hev & Hfs & Hts) & Hsrc & Hnot).
  exists found, w', evs. by split_and!.
Qed.

(** X12. [verify_document_access] never raises.  It returns [True]
    exactly when the read of the document and the write probe both went
    through, and then the document is no longer as it was: the probe has
    inserted a space at index 1.  When the read raises no write is tried;
    whenever it returns [False] the store is unchanged. *)
Theorem verify_document_access_outcome (E : environment) (doc_id : string) (w : world) :
  let read := Drive (DocsGet doc_id) in
  let probe := Drive (DocsInsertText doc_id 1 " ") in
  exists b w',
    verify_document_access E doc_id w = (Ok b, w') /\
    processed_titles w' = processed_titles w /\
    if b then
      exists f,
        lookup_file doc_id (drive_files w) = Some f /\
        trace w' = trace w ++ [read true; probe true] /\
        drive_files w'
          = update_file doc_id (with_document (docs_insert E f 1 " ")) (drive_files w)
    else
      drive_files w' = drive_files w /\
      (trace w' = trace w ++ [read false] \/
       trace w' = trace w ++ [read true; probe false]).
Proof.
  cbv zeta. unfold verify_document_access. unfold try_except at 1. unfold bind at 1.
  destruct (DriveFacts.docs_get_cases E doc_id w) as [(f & Hl & Hrun)|[e Hrun]];
    rewrite Hrun.
  - set (w1 := served w _ _). unfold try_except, bind.
    destruct (DriveFacts.docs_insert_text_cases E doc_id 1 " " w1)
      as [(f' & Hl' & Hins)|[e Hins]]; rewrite Hins; unfold ret.
    + change (drive_files w1) with (drive_files w) in Hl'.
      assert (f' = f) as -> by congruence.
      eexists true, _. split; [reflexivity|]. split; [done|].
      exists f. split_and!; try done. simpl. by rewrite <- app_assoc.
    + eexists false, _. split; [reflexivity|]. split; [done|].
      split; [done|]. right. simpl. by rewrite <- app_assoc.
  - eexists false, _. split; [reflexivity|]. split; [done|]. split; [done|]. by left.
Qed.

(** ** The chunker packs greedily *)

Module GreedyFacts.
Import Py Chunker PyFacts ChunkerFacts.

Lemma chain_tight_snoc MAX gs : forall g h,
  chain_tight MAX (gs ++ [g]) -> tight MAX g h -> chain_tight MAX (gs ++ [g; h]).
Proof.
  induction gs as [|a gs IH]; intros g h Hc Ht; simpl in *.
  - by split_and!.
  - destruct Hc as [Ha Hc]. split; [by destruct gs|by apply IH].
Qed.

Lemma chain_tight_last MAX gs : forall g g',
  chain_tight MAX (gs ++ [g]) -> hd "" g' = hd "" g -> chain_tight MAX (gs ++ [g']).
Proof.
  induction gs as [|a gs IH]; intros g g' Hc Hh; simpl in *; [done|].
  destruct Hc as [Ha Hc]. split; [|by eapply IH].
  destruct gs; simpl in *; [|done]. unfold tight in *. by rewrite Hh.
Qed.

Lemma chain_tight_lookup MAX gs : forall i g h,
  chain_tight MAX gs -> gs !! i = Some g -> gs !! S i = Some h -> tight MAX g h.
Proof.
  induction gs as [|a gs IH]; intros i g h Hc Hg Hh; [done|].
  destruct Hc as [Ha Hc]. destruct i as [|i]; simpl in *.
  - injection Hg as <-. destruct gs; [done|]. simpl in Hh. by injection Hh as <-.
  - by eapply IH.
Qed.

(** The open groups of a loop state: the closed ones and the current
    one, when there is one. *)
Lemma loop_tight MAX ls : forall st gs,
  chunks st = map (join nl) gs ->
  Forall (fun g => g <> []) gs ->
  current_size st = size_sum (current_chunk st) ->
  (current_chunk st = [] -> gs = []) ->
  (current_chunk st <> [] -> chain_tight MAX (gs ++ [current_chunk st])) ->
  exists gs',
    flush (fold_left (step MAX) ls st) = map (join nl) gs' /\
    Forall (fun g => g <> []) gs' /\
    concat gs' = concat gs ++ current_chunk st ++ ls /\
    chain_tight MAX gs'.
Proof.
  induction ls as [|l ls IH]; intros [cs cur sz] gs Hcs Hne Hsz Hnil Hchain;
    simpl in Hcs, Hsz, Hnil, Hchain.
  - unfold flush; simpl. destruct cur as [|c cur]; simpl.
    + exists gs. rewrite !app_nil_r. rewrite (Hnil eq_refl) in *. by split_and!.
    + exists (gs ++ [c :: cur]). rewrite map_app, concat_app, Hcs. simpl.
      rewrite !app_nil_r. split_and!; try done; [|by apply Hchain].
      apply Forall_app. split; [done|]. by constructor.
  - cbn [fold_left]. unfold step at 2. cbn [current_size current_chunk chunks].
    destruct (MAX <? sz + (len l + 1)) eqn:Hfit.
    + apply Z.ltb_lt in Hfit. destruct cur as [|c cur]; cbn [nonempty].
      * destruct (IH (LoopState cs [l] (len l + 1)) gs) as (gs' & ? & ? & Hc & ?);
          cbn [chunks current_chunk current_size].
        -- done.
        -- done.
        -- simpl. lia.
        -- done.
        -- intros _. rewrite (Hnil eq_refl). simpl. done.
        -- exists gs'. by split_and!.
      * destruct (IH (LoopState (cs ++ [join nl (c :: cur)]) [l] (len l + 1))
                     (gs ++ [c :: cur])) as (gs' & ? & ? & Hc & ?);
          cbn [chunks current_chunk current_size].
        -- by rewrite map_app, Hcs.
        -- apply Forall_app. split; [done|]. by constructor.
        -- simpl. lia.
        -- done.
        -- intros _. rewrite <- app_assoc. apply chain_tight_snoc; [by apply Hchain|].
           unfold tight. simpl hd. lia.
        -- exists gs'. split_and!; try done. rewrite Hc, concat_app. simpl.
           by rewrite !app_nil_r, <- !app_assoc.
    + destruct (IH (LoopState cs (cur ++ [l]) (sz + (len l + 1))) gs)
        as (gs' & ? & ? & Hc & ?); cbn [chunks current_chunk current_size]; auto.
      * rewrite size_sum_app. simpl. lia.
      * intros Heq. by destruct cur.
      * intros _. destruct cur as [|c cur].
        -- rewrite (Hnil eq_refl). simpl. done.
        -- eapply chain_tight_last; [by apply Hchain|done].
      * exists gs'. split_and!; try done. rewrite Hc. simpl. by rewrite <- app_assoc.
Qed.

End GreedyFacts.

(** X13. The chunker packs greedily: the chunks are the joined groups of
    a partition of the text's lines into consecutive non-empty groups in
    which no group could have taken the first line of the next one.  For
    each chunk and the chunk after it, the chunk with its separator
    together with the next chunk's first line and its separator is over
    the limit, which is the loop's own test for closing a chunk. *)
Theorem chunk_content_greedy (MAX_CHUNK_SIZE : Z) (content : string) :
  exists gs : list (list string),
    Forall (fun g => g <> []) gs /\
    concat gs = Py.split Py.newline content /\
    Chunker._chunk_content MAX_CHUNK_SIZE content = map (Py.join Py.nl) gs /\
    forall (i : nat) g h,
      gs !! i = Some g -> gs !! S i = Some h ->
      MAX_CHUNK_SIZE
      < (Py.len (Py.join Py.nl g) + 1) + (Py.len (hd "" h) + 1).
Proof.
  unfold Chunker._chunk_content.
  destruct (Py.len content <=? MAX_CHUNK_SIZE).
  - exists [Py.split Py.newline content]. split_and!.
    + constructor; [apply PyFacts.split_not_nil|done].
    + simpl. apply app_nil_r.
    + simpl. by rewrite PyFacts.join_split.
    + intros i g h Hg Hh. destruct i; simpl in Hh; done.
  - destruct (GreedyFacts.loop_tight MAX_CHUNK_SIZE (Py.split Py.newline content)
                (Chunker.LoopState [] [] 0) [])
      as (gs & Hrun & Hne & Hc & Hchain); simpl; try done.
    exists gs. split_and!; try done.
    intros i g h Hg Hh.
    pose proof (GreedyFacts.chain_tight_lookup _ _ _ _ _ Hchain Hg Hh) as Ht.
    unfold tight in Ht.
    assert (g <> []) as Hg0.
    { rewrite Forall_forall in Hne. apply Hne. by eapply list_elem_of_lookup_2. }
    rewrite (ChunkerFacts.len_join g Hg0). lia.
Qed.

(** ** The rate limiter keeps its window *)

(** X14. What [_check_rate_limit] keeps, from any state: the clock never
    goes back and the window start never moves back; after the call the
    window start is less than 60 seconds old, so the admitted call is
    counted in a window that is still open; and a counter that was
    between 0 and 55 is between 1 and 55 afterwards, so no window ever
    counts more than 55 calls. *)
Theorem check_rate_limit_invariant (w : world) :
  exists w',
    _check_rate_limit w = (Ok tt, w') /\
    (clock w <= clock w')%Q /\
    (last_request_time (gemini w) <= last_request_time (gemini w'))%Q /\
    (clock w' - last_request_time (gemini w') < 60)%Q /\
    ((last_request_time (gemini w) <= clock w)%Q ->
     (last_request_time (gemini w') <= clock w')%Q) /\
    (0 <= requests_in_minute (gemini w) <= 55 ->
     1 <= requests_in_minute (gemini w') <= 55).
Proof.
  destruct w as [now tr [n last MAX] fs ts].
  unfold _check_rate_limit, bind, time_time, get_world, set_gemini, time_sleep, ret.
  cbn [clock trace gemini drive_files processed_titles
       requests_in_minute last_request_time MAX_CHUNK_SIZE].
  destruct (Qle_bool 60 (now - last)) eqn:Hwin.
  - apply Qle_bool_iff in Hwin.
    cbn [clock trace gemini drive_files processed_titles
         requests_in_minute last_request_time MAX_CHUNK_SIZE].
    change (55 <=? 0) with false. cbv iota.
    eexists. split; [reflexivity|]. cbn.
    split_and!; intros; try lra; lia.
  - apply Qle_bool_false in Hwin.
    cbn [clock trace gemini drive_files processed_titles
         requests_in_minute last_request_time MAX_CHUNK_SIZE].
    destruct (55 <=? n) eqn:Hn.
    + apply Z.leb_le in Hn.
      assert (Qltb 0 (60 - (now - last)) = true) as ->
        by (apply Qltb_true; lra).
      eexists. split; [reflexivity|]. cbn.
      split_and!; intros; try lra; lia.
    + apply Z.leb_gt in Hn.
      eexists. split; [reflexivity|]. cbn.
      split_and!; intros; try lra; lia.
Qed.

(** ** Helpers of the pipeline *)

Module HelperFacts.

Lemma batches_go_shape {B} (n : nat) : forall bound (l : list B),
  (0 < n)%nat -> (length l <= bound)%nat ->
  Forall (fun b => (1 <= length b <= n)%nat) (batches_go bound n l) /\
  (forall i b, batches_go bound n l !! i = Some b ->
               (S i < length (batches_go bound n l))%nat -> length b = n).
Proof.
  induction bound as [|bound IH]; intros l Hn Hlen.
  - destruct l; [|simpl in Hlen; lia]. simpl. split; [constructor|done].
  - destruct l as [|x l]; [simpl; split; [constructor|done]|].
    cbn [batches_go]. set (l0 := x :: l) in *.
    assert (length (drop n l0) <= bound)%nat as Hd.
    { rewrite length_drop. subst l0. simpl in *. lia. }
    destruct (IH (drop n l0) Hn Hd) as [Hall Hfull]. split.
    + constructor; [|done]. rewrite length_take. subst l0. simpl. lia.
    + intros i b Hb Hi. destruct i as [|i]; simpl in Hb, Hi.
      * injection Hb as <-. rewrite length_take.
        destruct (drop n l0) as [|y rest] eqn:Hdrop.
        -- destruct bound; simpl in Hi; lia.
        -- assert (length (drop n l0) = S (length rest)) as Hl by (by rewrite Hdrop).
           rewrite length_drop in Hl. lia.
      * apply (Hfull i b Hb). lia.
Qed.

Lemma find_app {B} (p : B -> bool) l1 l2 :
  List.find p (l1 ++ l2)
  = match List.find p l1 with Some x => Some x | None => List.find p l2 end.
Proof. induction l1 as [|x l1 IH]; [done|]. simpl. by destruct (p x). Qed.

Lemma find_none_forall {B} (p : B -> bool) l :
  Forall (fun x => p x = false) l -> List.find p l = None.
Proof. induction 1 as [|x l Hx _ IH]; [done|]. simpl. by rewrite Hx. Qed.

Lemma split_str_absent sep s :
  contains_str sep s = false -> Py.split_str_go sep 0 s = [s].
Proof.
  induction s as [|c s IH]; [done|]. cbn [contains_str Py.split_str_go].
  intros [Hs Hrest]%orb_false_iff. rewrite Hs, (IH Hrest). done.
Qed.

Lemma first_word_no_space s :
  exists t, head (Py.split_str " " s) = Some t /\ Py.contains " "%char t = false.
Proof.
  unfold Py.split_str. induction s as [|c s (t & Ht & Hsp)]; [by exists ""|].
  cbn [Py.split_str_go Py.startswith String.length Nat.sub].
  destruct (Ascii.eqb " " c) eqn:Hc; cbn [andb].
  - by exists "".
  - destruct (Py.split_str_go " " 0 s) as [|l ls]; [done|].
    injection Ht as ->. exists (String c t). split; [done|].
    cbn [Py.contains]. rewrite Hsp, orb_false_r.
    rewrite Ascii.eqb_sym. exact Hc.
Qed.

End HelperFacts.

(** X15. The batches [process_meet_files] cuts the discovered files into
    (slices of [batch_size] files, 10 in the source): put one after the
    other they are the list itself, in order; no batch is empty; none has
    more than [batch_size] files; and every batch but the last has
    exactly [batch_size]. *)
Theorem batches_partition {B} (batch_size : nat) (l : list B) :
  (0 < batch_size)%nat ->
  concat (batches batch_size l) = l /\
  Forall (fun b => (1 <= length b <= batch_size)%nat) (batches batch_size l) /\
  (forall i b, batches batch_size l !! i = Some b ->
               (S i < length (batches batch_size l))%nat ->
               length b = batch_size).
Proof.
  intros Hn. unfold batches. split; [apply PipelineFacts.concat_batches_go|].
  by apply HelperFacts.batches_go_shape.
Qed.

Lemma batches_partition_witness :
  concat (batches 10 (seq 0 25)) = seq 0 25 /\
  Forall (fun b => (1 <= length b <= 10)%nat) (batches 10 (seq 0 25)) /\
  (forall i b, batches 10 (seq 0 25) !! i = Some b ->
               (S i < length (batches 10 (seq 0 25)))%nat -> length b = 10%nat).
Proof. apply (batches_partition 10 (seq 0 25)). lia. Defined.

(** X16. The end index the pipeline reads off a document body is the
    [endIndex] of the last element that has one and is not a section
    break, and 1 when there is no such element (an empty body included);
    the summary is inserted one position before it. *)
Theorem end_index_of_last (content_items : list structural_element) :
  let usable item := exists i, endIndex item = Some i /\ sectionBreak item = false in
  (Forall (fun item => ~ usable item) content_items ->
   end_index_of content_items = 1) /\
  (forall pre item post i,
     content_items = pre ++ item :: post ->
     endIndex item = Some i -> sectionBreak item = false ->
     Forall (fun item => ~ usable item) post ->
     end_index_of content_items = i).
Proof.
  cbv zeta.
  assert (forall l,
            Forall (fun item => ~ exists i, endIndex item = Some i /\
                                            sectionBreak item = false) l ->
            Forall (fun item => match endIndex item with
                                | Some _ => negb (sectionBreak item)
                                | None => false
                                end = false) (rev l)) as Hnone.
  { intros l Hl. apply Forall_rev. eapply Forall_impl; [exact Hl|].
    intros item Hno. simpl. destruct (endIndex item) as [i|] eqn:Hi; [|done].
    destruct (sectionBreak item) eqn:Hs; [done|]. exfalso. apply Hno. eauto. }
  split.
  - intros Hall. unfold end_index_of.
    by rewrite (HelperFacts.find_none_forall _ _ (Hnone _ Hall)).
  - intros pre item post i -> Hi Hs Hpost. unfold end_index_of.
    rewrite rev_app_distr. simpl. rewrite <- app_assoc.
    rewrite HelperFacts.find_app, (HelperFacts.find_none_forall _ _ (Hnone _ Hpost)).
    simpl. rewrite Hi, Hs. simpl. by rewrite Hi.
Qed.

(** X17. The meeting time read off a title is the first word of the
    third field of the title split on [" - "], and nothing when the title
    has fewer than three fields: the test [" - " in file_name] in front
    of it changes nothing.  A meeting time never contains a space. *)
Theorem meeting_time_of_third_field (file_name : string) :
  meeting_time_of file_name
  = match Py.split_str " - " file_name !! 2%nat with
    | Some field => head (Py.split_str " " field)
    | None => None
    end /\
  (forall t, meeting_time_of file_name = Some t -> Py.contains " "%char t = false) /\
  ((length (Py.split_str " - " file_name) < 3)%nat <-> meeting_time_of file_name = None).
Proof.
  assert (meeting_time_of file_name
          = match Py.split_str " - " file_name !! 2%nat with
            | Some field => head (Py.split_str " " field)
            | None => None
            end) as Heq.
  { unfold meeting_time_of. destruct (contains_str " - " file_name) eqn:Hc; [done|].
    unfold Py.split_str. by rewrite (HelperFacts.split_str_absent _ _ Hc). }
  split; [exact Heq|]. rewrite Heq. split.
  - intros t. destruct (Py.split_str " - " file_name !! 2%nat) as [field|]; [|done].
    destruct (HelperFacts.first_word_no_space field) as (t' & -> & Hsp).
    by intros [= <-].
  - destruct (Py.split_str " - " file_name !! 2%nat) as [field|] eqn:Hl.
    + apply lookup_lt_Some in Hl. split; [lia|].
      destruct (HelperFacts.first_word_no_space field) as (t' & -> & _). done.
    + apply lookup_ge_None in Hl. split; [done|lia].
Qed.

(** ** The run as a whole *)

Module RunFacts.
Section WithEnvironment.
Variable E : environment.
Variable A : apis.

Lemma process_users_report users : forall w,
  exists w' evs,
    process_users E A users w
      = (Ok (map (fun user_email => (user_email, None)) users), w') /\
    trace w' = trace w ++ evs.
Proof.
  induction users as [|user users IH]; intros w.
  - exists w, []. split; [done|by rewrite app_nil_r].
  - destruct (PipelineFacts.process_meet_files_run E A user w)
      as (found & w0 & w1 & e0 & evs & _ & (Htr0 & _) & _ & _ & Hrun & Htr1 & _).
    cbn [process_users]. unfold bind at 1, try_except, bind at 1. rewrite Hrun.
    unfold ret, bind at 1.
    destruct (IH w1) as (w' & evs' & Hrec & Htr'). rewrite Hrec.
    eexists w', (e0 ++ evs ++ evs'). split; [done|].
    rewrite Htr', Htr1, Htr0. by rewrite <- !app_assoc.
Qed.

End WithEnvironment.
End RunFacts.

(** X18. A discovered file that was not created today is passed over
    after the read of its metadata, whether it has been processed or not:
    nothing is exported, no request goes to the text-generation backend,
    nothing is written, copied, marked or posted, and the store and the
    title set stay as they were.  So a transcript that is not picked up
    on the day it was created is never processed. *)
Theorem process_file_skips_other_days (E : environment) (A : apis) (today : Z)
    (file m : drive_file) (w : world) :
  lookup_file (file_id file) (drive_files w) = Some m ->
  createdDate m <> today ->
  exists ok w',
    process_file E A today file w = (Ok tt, w') /\
    trace w' = trace w
               ++ [Drive (FilesGet (file_id file) "mimeType,name,createdTime") ok] /\
    drive_files w' = drive_files w /\
    processed_titles w' = processed_titles w.
Proof.
  intros Hl Hdate.
  destruct (PipelineFacts.process_file_spec E A today file w)
    as (w' & evs & Hrun & Htr & Hcase).
  destruct Hcase as [(-> & Hfs & Hts & _)|(m' & Hl' & [(_ & -> & Hfs & Hts)|(Hd & _)])].
  - by exists false, w'.
  - by exists true, w'.
  - congruence.
Qed.

Lemma process_file_skips_other_days_witness :
  let file := transcript "t1" "Standup" "rec" (-1) ∅ in
  let w := store_world stale_first_store in
  exists ok w',
    process_file quiet_environment example_apis 0 file w = (Ok tt, w') /\
    trace w' = trace w
               ++ [Drive (FilesGet (file_id file) "mimeType,name,createdTime") ok] /\
    drive_files w' = drive_files w /\
    processed_titles w' = processed_titles w.
Proof.
  cbv zeta.
  apply (process_file_skips_other_days quiet_environment example_apis 0
           (transcript "t1" "Standup" "rec" (-1) ∅)
           (transcript "t1" "Standup" "rec" (-1) ∅)
           (store_world stale_first_store)).
  - reflexivity.
  - simpl. lia.
Defined.

(** X19. The loop of [handle_request] over the identities always runs to
    its end and reports every identity that is non-blank after stripping,
    once and in order, as a success: whatever the store, the backend and
    the webhooks do, [process_meet_files] swallows the failure, so the
    [error] branch of the report is never taken. *)
Theorem handle_request_reports_success (E : environment) (A : apis)
    (users : list string) (w : world) :
  exists w' evs,
    handle_request E A users w
      = (Ok (map (fun user_email => (user_email, None))
                 (List.filter Py.truthy (map Py.strip users))), w') /\
    trace w' = trace w ++ evs.
Proof.
  unfold handle_request, bind at 1, set_processed_titles.
  set (w0 := World _ _ _ _ _).
  destruct (RunFacts.process_users_report E A
              (List.filter Py.truthy (map Py.strip users)) w0) as (w' & evs & Hrun & Htr).
  by exists w', evs.
Qed.

(** X20. Whatever happens during an invocation, the store only evolves:
    every file that was there is still there, in its place, with its id,
    name, type, creation day, parents and trash state; a flag that was
    set is still set; files are only added, at the end.  The pipeline
    never deletes, renames, moves or trashes a file and never clears a
    flag. *)
Theorem handle_request_store_evolves (E : environment) (A : apis)
    (users : list string) (w : world) :
  exists kept added,
    drive_files (snd (handle_request E A users w)) = kept ++ added /\
    Forall2 (fun f f' =>
               file_id f' = file_id f /\ file_name f' = file_name f /\
               mimeType f' = mimeType f /\ createdDate f' = createdDate f /\
               trashed f' = trashed f /\ parents f' = parents f /\
               (flagged f -> flagged f'))
            (drive_files w) kept.
Proof.
  unfold handle_request, bind at 1, set_processed_titles.
  set (w0 := World _ _ _ _ _).
  destruct (PipelineFacts.process_users_later E A
              (List.filter Py.truthy (map Py.strip users)) w0) as [Hev _].
  exact Hev.
Qed.

(** ** Meeting types without a destination folder *)

Module UnmappedFacts.

Lemma unfiling_refl w : unfiling w w.
Proof. exists []. by rewrite app_nil_r. Qed.

Lemma unfiling_trans w1 w2 w3 : unfiling w1 w2 -> unfiling w2 w3 -> unfiling w1 w3.
Proof.
  intros (e1 & Ht1 & He1 & Hf1) (e2 & Ht2 & He2 & Hf2). exists (e1 ++ e2).
  split; [rewrite Ht2, Ht1; by rewrite <- app_assoc|].
  split; [by rewrite forallb_app, He1, He2|congruence].
Qed.

Lemma client_unfiling w w' evs :
  client_step w w' evs -> forallb is_client_event evs = true -> unfiling w w'.
Proof.
  intros (Htr & Hfs & _) Hev. exists evs. split; [done|]. split; [|by rewrite Hfs].
  eapply PipelineFacts.forallb_impl; [|exact Hev]. by intros [].
Qed.

Lemma reads_unfiling w w' evs : reads w w' evs -> unfiling w w'.
Proof.
  intros (Htr & Hev & Hfs & _). exists evs. split; [done|]. split; [|by rewrite Hfs].
  eapply PipelineFacts.forallb_impl; [|exact Hev]. by intros [| | |[]|].
Qed.

Lemma flags_with_document fileId d fs :
  flags (update_file fileId (with_document d) fs) = flags fs.
Proof.
  unfold flags, update_file. rewrite map_map. apply map_ext.
  intros a. by destruct (String.eqb (file_id a) fileId).
Qed.

Lemma for_each_unfiling {B} (body : B -> M unit) xs :
  (forall x w, unfiling w (snd (body x w))) ->
  forall w, unfiling w (snd (for_each xs body w)).
Proof.
  intros Hbody. induction xs as [|x xs IH]; intros w; [apply unfiling_refl|].
  cbn [for_each]. unfold bind. pose proof (Hbody x w) as Hx.
  destruct (body x w) as [[[]|e] w1]; cbn [snd] in *; [|done].
  eapply unfiling_trans; [exact Hx|apply IH].
Qed.

Section WithEnvironment.
Variable E : environment.
Variable A : apis.
Hypothesis unmapped :
  forall label, label ∈ valid_categories -> folder_mapping A !! label = None.

Lemma append_summary_unfiling fileId doc_summary w :
  unfiling w (snd (append_summary E fileId doc_summary w)).
Proof.
  unfold append_summary, try_except. unfold bind at 1.
  destruct (DriveFacts.docs_get_cases E fileId w) as [(f & Hl & Hrun)|[e Hrun]];
    rewrite Hrun.
  - set (w1 := served w _ _). unfold bind at 1.
    destruct (DriveFacts.docs_insert_text_cases E fileId (end_index_of (body_content f) - 1)
                (summary_text doc_summary) w1) as [(f' & Hl' & Hins)|[e Hins]];
      rewrite Hins; eexists [_; _]; cbn [snd].
    + split; [simpl; by rewrite <- app_assoc|]. split; [done|].
      simpl. apply flags_with_document.
    + split; [simpl; by rewrite <- app_assoc|]. by split.
  - by exists [Drive (DocsGet fileId) false].
Qed.

Lemma process_document_unfiling fileId name w :
  unfiling w (snd (process_document E A fileId name w)).
Proof.
  unfold process_document. unfold bind at 1.
  destruct (DriveFacts.files_export_cases E fileId w) as [(f & Hl & Hrun)|[e Hrun]];
    rewrite Hrun.
  2:{ by exists [Drive (FilesExport fileId) false]. }
  set (w1 := served w _ _).
  assert (unfiling w w1) as H1 by (by exists [Drive (FilesExport fileId) true]).
  destruct (negb (Py.truthy (exported_text f))); [exact H1|].
  unfold bind at 1.
  destruct (OperationFacts.determine_spec E (exported_text f) (Some name) w1)
    as (w2 & e2 & p & res & Hdet & Hstep2 & Hev2 & _).
  rewrite Hdet. unfold bind at 1.
  destruct (SummaryFacts.summarize_spec E (exported_text f) w2)
    as (v & w3 & e3 & Hsum & Hstep3 & Hev3 & _).
  rewrite Hsum.
  assert (unfiling w w3) as H3.
  { eapply unfiling_trans; [exact H1|].
    eapply unfiling_trans; by eapply client_unfiling. }
  destruct v as [doc_summary|]; [|exact H3].
  destruct (negb (Py.truthy doc_summary)); [exact H3|].
  unfold bind at 1.
  pose proof (append_summary_unfiling fileId doc_summary w3) as H4.
  destruct (append_summary E fileId doc_summary w3) as [[b|e] w4]; cbn [snd] in H4.
  - assert (unfiling w w4) as H by (by eapply unfiling_trans).
    destruct b; cbn [negb]; [|exact H].
    unfold file_document.
    by rewrite (unmapped _ (OperationFacts.label_of_valid res)).
  - by eapply unfiling_trans.
Qed.

Lemma process_file_unfiling today file w :
  unfiling w (snd (process_file E A today file w)).
Proof.
  unfold process_file, try_except. unfold bind at 1.
  destruct (DriveFacts.files_get_cases E (file_id file) "mimeType,name,createdTime" w)
    as [(m & Hl & Hrun)|(e & Hrun & _)]; rewrite Hrun.
  2:{ by eexists [_]. }
  set (w1 := served w _ _).
  assert (unfiling w w1) as H1 by (by eexists [_]).
  destruct (negb (createdDate m =? today)); [exact H1|].
  unfold bind at 1, get_world.
  case_bool_decide; [exact H1|].
  unfold bind at 1, set_processed_titles.
  set (wt := World _ _ _ _ _).
  assert (unfiling w wt) as Ht by (by eexists [_]).
  destruct (String.eqb (mimeType m) document_mime); [|exact Ht].
  pose proof (process_document_unfiling (file_id file) (file_name m) wt) as Hd.
  destruct (process_document E A (file_id file) (file_name m) wt) as [[[]|e] w'];
    cbn [snd] in Hd; by eapply unfiling_trans.
Qed.

Lemma process_meet_files_unfiling user_email w :
  unfiling w (snd (process_meet_files E A user_email w)).
Proof.
  destruct (PipelineFacts.get_new_meet_files_spec E user_email w)
    as (found & w0 & e0 & Hrun & Hreads & _).
  unfold process_meet_files, bind at 1. rewrite Hrun.
  pose proof (reads_unfiling _ _ _ Hreads) as H0.
  destruct (negb (Chunker.nonempty found)); [exact H0|].
  unfold bind at 1, get_world.
  eapply unfiling_trans; [exact H0|].
  apply for_each_unfiling. intros batch w1.
  apply for_each_unfiling. intros file w2. apply process_file_unfiling.
Qed.

Lemma process_users_unfiling users : forall w,
  unfiling w (snd (process_users E A users w)).
Proof.
  induction users as [|user users IH]; intros w; [apply unfiling_refl|].
  cbn [process_users]. unfold bind at 1, try_except, bind at 1.
  pose proof (process_meet_files_unfiling user w) as Hu.
  destruct (process_meet_files E A user w) as [[[]|e] w1]; cbn [snd] in Hu;
    unfold ret, bind at 1; pose proof (IH w1) as Hrest;
    destruct (process_users E A users w1) as [[rs|e'] w2]; cbn [snd] in *;
    by eapply unfiling_trans.
Qed.

End WithEnvironment.
End UnmappedFacts.

(** X21. When no meeting type has a destination folder (the default
    [FOLDER_MAPPING] is empty), an invocation never reaches the filing
    stage: no copy is requested, no property is set and nothing is posted
    to a chat, and every file keeps its identity, name and properties.
    Summaries are still generated and written into the documents, but no
    transcript is ever marked, so the next invocation finds the same
    transcripts again. *)
Theorem unmapped_types_never_filed (E : environment) (A : apis)
    (users : list string) (w : world) :
  (forall label, label ∈ valid_categories -> folder_mapping A !! label = None) ->
  exists w' evs,
    snd (handle_request E A users w) = w' /\
    trace w' = trace w ++ evs /\
    forallb (fun e => negb (is_copy e || is_mark e || is_chat e)) evs = true /\
    flags (drive_files w') = flags (drive_files w).
Proof.
  intros Hmap. unfold handle_request, bind at 1, set_processed_titles.
  set (w0 := World _ _ _ _ _).
  destruct (UnmappedFacts.process_users_unfiling E A Hmap
              (List.filter Py.truthy (map Py.strip users)) w0) as (evs & Htr & Hev & Hfl).
  by eexists _, evs.
Qed.

Lemma unmapped_types_never_filed_witness :
  let w := store_world single_store in
  exists w' evs,
    snd (handle_request quiet_environment unmapped_apis ["u@x"] w) = w' /\
    trace w' = trace w ++ evs /\
    forallb (fun e => negb (is_copy e || is_mark e || is_chat e)) evs = true /\
    flags (drive_files w') = flags (drive_files w).
Proof.
  cbv zeta.
  apply (unmapped_types_never_filed quiet_environment unmapped_apis ["u@x"]
           (store_world single_store)).
  intros label _. apply lookup_empty.
Defined.

(** Without a mapping the transcript gets its summary written and stays
    unmarked, in a first invocation and again in a second one. *)
Example unmapped_runs_repeat :
  let w1 := snd (handle_request quiet_environment unmapped_apis ["u@x"]
                                (store_world single_store)) in
  let w2 := snd (handle_request quiet_environment unmapped_apis ["u@x"] w1) in
  let requests := [ (FilesGet "t1" "properties", true);
                    (FilesGet "t1" "mimeType,name,createdTime", true);
                    (FilesExport "t1", true);
                    (DocsGet "t1", true);
                    (DocsInsertText "t1" 12 (summary_text "Other"), true) ] in
  requests_for "t1" (trace w1) = requests /\
  requests_for "t1" (drop (length (trace w1)) (trace w2)) = requests /\
  all_flaggedb (drive_files w2) = false.
Proof. cbv zeta. split_and!; vm_compute; reflexivity. Qed.

(** ** Where notifications go *)

Module NotifyFacts.

Lemma client_events_no_chat evs :
  forallb is_client_event evs = true ->
  List.filter is_chat evs = [] /\
  forall url payload reply, ChatPost url payload reply ∈ evs -> False.
Proof.
  induction evs as [|e evs IH]; [by split; [|intros ? ? ? ?%elem_of_nil]|].
  simpl. intros [He Hrest]%andb_true_iff. destruct (IH Hrest) as [Hf Hno].
  split; [by destruct e|].
  intros url payload reply [Heq|Hin]%elem_of_cons; [by subst e|by eapply Hno].
Qed.

Section WithEnvironment.
Variable E : environment.

(** One chat summary followed by its post, as [notify] runs them for one
    channel. *)
Lemma summary_then_send instruction api file_name content w :
  exists w' evs,
    (summary <- try_except
        (result <- _generate_with_retry E
                     (chat_prompt instruction content (meeting_time_of file_name)) ;;
         ret (if Py.truthy result then Some (Py.strip result) else None))
        (fun _ => ret None) ;;
     match summary with
     | Some text =>
         if Py.truthy text
         then send_daily_meeting_summary E api [(file_name, text)] ;; ret tt
         else ret tt
     | None => ret tt
     end) w = (Ok tt, w') /\
    trace w' = trace w ++ evs /\
    drive_files w' = drive_files w /\
    processed_titles w' = processed_titles w /\
    (length (List.filter is_chat evs) <= 1)%nat /\
    (forall url payload reply,
       ChatPost url payload reply ∈ evs -> url = webhook_url api).
Proof.
  destruct (StripFacts.chat_summary_shape E
              (chat_prompt instruction content (meeting_time_of file_name)) w)
    as (res & w1 & e1 & r & Hrun & Htr1 & Hev1 & _ & Hfs1 & Hts1 & _ & _).
  unfold bind at 1. rewrite Hrun.
  destruct (client_events_no_chat e1 Hev1) as [Hf1 Hno1].
  assert (exists w' evs, (Ok tt, w1) = (Ok tt, w') /\
            trace w' = trace w ++ evs /\
            drive_files w' = drive_files w /\
            processed_titles w' = processed_titles w /\
            (length (List.filter is_chat evs) <= 1)%nat /\
            (forall url payload reply,
               ChatPost url payload reply ∈ evs -> url = webhook_url api)) as Hstop.
  { exists w1, e1. split_and!; try done.
    - rewrite Hf1. simpl. lia.
    - intros url payload reply Hin. by destruct (Hno1 _ _ _ Hin). }
  destruct res as [text|]; [|exact Hstop].
  destruct (Py.truthy text); [|exact Hstop]. clear Hstop.
  destruct (ChatFacts.send_daily_outcome E api [(file_name, text)] w1)
    as (b & w2 & Hsend & _ & _ & Hfs2 & Hts2 & message & Htr2 & _).
  unfold bind, ret. rewrite Hsend.
  eexists w2, (e1 ++ [_]). split; [done|].
  split; [rewrite Htr2, Htr1; by rewrite <- app_assoc|].
  split; [congruence|]. split; [congruence|]. split.
  - rewrite List.filter_app, Hf1. simpl. lia.
  - intros url payload reply [Hin|Hin]%elem_of_app; [by destruct (Hno1 _ _ _ Hin)|].
    apply list_elem_of_singleton in Hin. by injection Hin as -> _ _.
Qed.

End WithEnvironment.
End NotifyFacts.

(** X22. The notification stage never raises, leaves the store and the
    title set alone, and posts at most once.  A post for a daily team
    meeting goes to the webhook of the main chat object; a post for a
    user research or product development meeting goes to the webhook of
    the validation chat object; for every other meeting type nothing
    happens at all, not even a request to the text-generation backend. *)
Theorem notify_channel (E : environment) (A : apis)
    (meeting_type file_name content : string) (w : world) :
  exists w' evs,
    notify E A meeting_type file_name content w = (Ok tt, w') /\
    trace w' = trace w ++ evs /\
    drive_files w' = drive_files w /\
    processed_titles w' = processed_titles w /\
    (length (List.filter is_chat evs) <= 1)%nat /\
    (forall url payload reply,
       ChatPost url payload reply ∈ evs ->
       (meeting_type = "Daily Team Meeting" /\ url = webhook_url (chat_api A)) \/
       ((meeting_type = "User Research Meeting" \/
         meeting_type = "Product Development Meeting") /\
        url = webhook_url (validation_chat_api A))) /\
    (meeting_type <> "Daily Team Meeting" ->
     meeting_type <> "User Research Meeting" ->
     meeting_type <> "Product Development Meeting" -> evs = []).
Proof.
  unfold notify.
  destruct (String.eqb meeting_type "Daily Team Meeting") eqn:Hdaily.
  - apply String.eqb_eq in Hdaily.
    destruct (NotifyFacts.summary_then_send E (chat_summary_instruction E) (chat_api A)
                file_name content w) as (w' & evs & Hrun & Htr & Hfs & Hts & Hone & Hurl).
    exists w', evs. split; [exact Hrun|]. split_and!; try done.
    intros url payload reply Hin. left. split; [done|by eapply Hurl].
  - apply String.eqb_neq in Hdaily.
    destruct (String.eqb meeting_type "User Research Meeting"
              || String.eqb meeting_type "Product Development Meeting") eqn:Hval.
    + destruct (NotifyFacts.summary_then_send E (validation_summary_instruction E)
                  (validation_chat_api A) file_name content w)
        as (w' & evs & Hrun & Htr & Hfs & Hts & Hone & Hurl).
      exists w', evs. split; [exact Hrun|]. split_and!; try done.
      * intros url payload reply Hin. right. split; [|by eapply Hurl].
        apply orb_true_iff in Hval as [H%String.eqb_eq | H%String.eqb_eq]; auto.
      * intros _ H1 H2.
        apply orb_true_iff in Hval as [H%String.eqb_eq | H%String.eqb_eq]; done.
    + exists w, []. unfold ret. rewrite app_nil_r. split_and!; try done.
      * simpl. lia.
      * intros url payload reply Hin. by apply elem_of_nil in Hin.
Qed.

(** ** What a marking by title touches *)

Module MarkFacts.

Lemma marks_within_refl ids fs : marks_within ids fs fs.
Proof.
  apply Forall2_same_length_lookup_2; [done|]. intros i x y ? ?. left. congruence.
Qed.

Lemma marks_within_mono ids ids' fs fs' :
  (forall i, i ∈ ids -> i ∈ ids') -> marks_within ids fs fs' -> marks_within ids' fs fs'.
Proof.
  intros Hsub H. eapply Forall2_impl; [exact H|].
  intros f f' [->|[-> Hin]]; [by left|right; auto].
Qed.

Lemma marks_within_trans ids1 ids2 fs1 fs2 : forall fs3,
  marks_within ids1 fs1 fs2 -> marks_within ids2 fs2 fs3 ->
  marks_within (ids1 ++ ids2) fs1 fs3.
Proof.
  unfold marks_within. intros fs3 H12. revert fs3.
  induction H12 as [|f1 f2 fs1 fs2 Hf H12 IH]; intros fs3 H23.
  - by inversion H23.
  - inversion H23 as [|? f3 ? fs3' Hf' H23']; subst.
    constructor; [|auto].
    destruct Hf as [->|[-> Hin]], Hf' as [->|[-> Hin']].
    + by left.
    + right. split; [done|]. apply elem_of_app. by right.
    + right. split; [done|]. apply elem_of_app. by left.
    + right. split; [apply DriveFacts.with_property_twice|].
      apply elem_of_app. by left.
Qed.

Lemma marks_within_update fileId fs :
  marks_within [fileId] fs
    (update_file fileId (with_property PROCESSED_PROPERTY "true") fs).
Proof.
  unfold marks_within, update_file.
  induction fs as [|f fs IH]; simpl; constructor; [|done].
  destruct (String.eqb (file_id f) fileId) eqn:Hid; [|by left].
  apply String.eqb_eq in Hid. right. split; [done|]. rewrite Hid. by left.
Qed.

Section WithEnvironment.
Variable E : environment.

Lemma mark_files_within files : forall w,
  exists w' evs,
    mark_files E files w = (Ok tt, w') /\
    trace w' = trace w ++ evs /\
    forallb (fun e => negb (is_failed_listing e)) evs = true /\
    marks_within (map file_id files) (drive_files w) (drive_files w').
Proof.
  induction files as [|file files IH]; intros w.
  - exists w, []. unfold mark_files, ret. rewrite app_nil_r.
    split_and!; try done. apply marks_within_refl.
  - cbn [mark_files]. unfold bind at 1, try_except.
    destruct (DriveFacts.files_update_property_cases E (file_id file)
                PROCESSED_PROPERTY "true" w) as [(f0 & Hl & Hrun)|[e Hrun]];
      rewrite Hrun.
    + set (w1 := served w _ _).
      destruct (IH w1) as (w' & evs & Hrec & Htr & Hev & Hst).
      rewrite Hrec. eexists w', (_ :: evs).
      split; [done|]. split; [rewrite Htr; simpl; by rewrite <- app_assoc|].
      split; [by simpl|].
      change (map file_id (file :: files))
        with ([file_id file] ++ map file_id files).
      eapply marks_within_trans; [|exact Hst]. apply marks_within_update.
    + unfold ret. set (w1 := add_event _ w).
      destruct (IH w1) as (w' & evs & Hrec & Htr & Hev & Hst).
      rewrite Hrec. eexists w', (_ :: evs).
      split; [done|]. split; [rewrite Htr; simpl; by rewrite <- app_assoc|].
      split; [by simpl|].
      eapply marks_within_mono; [|exact Hst]. intros i Hi. simpl. by right.
Qed.

Lemma mark_pages_within q pages : forall token w,
  exists o w' evs,
    mark_pages E q token pages w = (o, w') /\
    trace w' = trace w ++ evs /\
    processed_titles w' = processed_titles w /\
    (o = Ok tt <-> forallb (fun e => negb (is_failed_listing e)) evs = true) /\
    marks_within (map file_id (concat pages)) (drive_files w) (drive_files w').
Proof.
  induction pages as [|page pages IH]; intros token w.
  - exists (Ok tt), w, []. unfold mark_pages, ret. rewrite app_nil_r.
    split_and!; try done. apply marks_within_refl.
  - cbn [mark_pages]. unfold bind at 1.
    set (tok := if (token =? 0)%nat then None else Some token).
    destruct (DriveFacts.files_list_cases E q tok (Some page) w)
      as [(p & Hp & Hrun)|[e Hrun]]; rewrite Hrun.
    + injection Hp as <-. set (w1 := served w _ _). unfold bind at 1.
      destruct (mark_files_within page w1) as (w2 & e2 & Hrun2 & Htr2 & Hev2 & Hst2).
      rewrite Hrun2.
      assert (processed_titles w2 = processed_titles w) as Hts2.
      { destruct (PipelineFacts.mark_files_spec E "" page w1)
          as (w2' & e2' & Hrun2' & _ & Hts & _).
        rewrite Hrun2 in Hrun2'. by injection Hrun2' as <-. }
      destruct pages as [|page' pages].
      * eexists (Ok tt), w2, (_ :: e2). unfold ret.
        split; [done|]. split; [rewrite Htr2; simpl; by rewrite <- app_assoc|].
        split; [done|]. split; [by simpl|].
        simpl. by rewrite app_nil_r.
      * destruct (IH (S token) w2) as (o & w3 & e3 & Hrun3 & Htr3 & Hts3 & Hev3 & Hst3).
        rewrite Hrun3. eexists o, w3, ((_ :: e2) ++ e3).
        split; [done|].
        split; [rewrite Htr3, Htr2; simpl; by rewrite <- !app_assoc|].
        split; [congruence|].
        split; [rewrite forallb_app; simpl; rewrite Hev2; exact Hev3|].
        change (concat (page :: page' :: pages))
          with (page ++ concat (page' :: pages)).
        rewrite map_app. by eapply marks_within_trans.
    + eexists (Raise e), (add_event (Drive (FilesList q tok) false) w), [_].
      split; [done|]. split; [done|]. split; [done|].
      split; [by simpl|]. apply marks_within_refl.
Qed.

End WithEnvironment.
End MarkFacts.

(** X23. What [mark_all_with_title_as_processed] touches.  It raises
    exactly when one of its listing requests raised (a failed update is
    passed over), and leaves the title set alone.  The only change it
    makes to the store is to set the flag, and only on files that share
    their id with a document, not in the trash, whose name is what the
    store reads from the literal of the title; when the literal is not a
    valid one the store is not changed.  The name read from the literal
    is the title itself when the title has no backslash. *)
Theorem mark_all_touches_only_the_title (E : environment) (file_title : string)
    (w : world) :
  exists o w' evs,
    mark_all_with_title_as_processed E file_title w = (o, w') /\
    trace w' = trace w ++ evs /\
    processed_titles w' = processed_titles w /\
    (o = Ok tt <-> forallb (fun e => negb (is_failed_listing e)) evs = true) /\
    Forall2 (fun f f' =>
               f' = f \/
               (f' = with_property PROCESSED_PROPERTY "true" f /\
                exists name g,
                  drive_unescape (title_literal file_title) = Some name /\
                  g ∈ drive_files w /\ file_id g = file_id f /\ titled name g))
            (drive_files w) (drive_files w') /\
    (Py.contains backslash file_title = false ->
     drive_unescape (title_literal file_title) = Some file_title).
Proof.
  unfold mark_all_with_title_as_processed. unfold bind at 1, get_world.
  unfold result_pages, query_filter.
  destruct (drive_unescape (title_literal file_title)) as [v|] eqn:Hun; cbn [option_map].
  - set (keep := fun f : drive_file => _).
    destruct (MarkFacts.mark_pages_within E (QDocsNamed (title_literal file_title))
                (pages_of 100 (List.filter keep (drive_files w))) 0%nat w)
      as (o & w' & evs & Hrun & Htr & Hts & Hout & Hst).
    exists o, w', evs. do 4 (split; [done|]). split.
    + eapply Forall2_impl; [exact Hst|].
      intros f f' [->|[-> Hid]]; [by left|right]. split; [done|].
      unfold pages_of in Hid. rewrite DriveFacts.concat_pages_go in Hid.
      apply list_elem_of_fmap in Hid as (g & Hg & Hin).
      apply list_elem_of_In, filter_In in Hin as [Hin Hkeep].
      unfold keep in Hkeep. apply andb_true_iff in Hkeep as [Hk Ht].
      apply andb_true_iff in Hk as [Hn Hm].
      exists v, g. split; [done|]. split; [by apply list_elem_of_In|].
      split; [done|]. unfold titled.
      split; [by apply String.eqb_eq in Hn|].
      split; [by apply String.eqb_eq in Hm|by destruct (trashed g)].
    + intros Hbs. rewrite <- Hun. by apply DriveFacts.title_literal_unescape.
  - unfold bind.
    destruct (DriveFacts.files_list_cases E (QDocsNamed (title_literal file_title))
                None None w) as [(p & Hp & _)|[e Hrun]]; [done|]. rewrite Hrun.
    eexists (Raise e), _, [_]. split; [done|]. split; [done|]. split; [done|].
    split; [by simpl|]. split.
    + apply Forall2_same_length_lookup_2; [done|]. intros i x y ? ?. left.
      simpl in *. congruence.
    + intros Hbs. rewrite <- Hun. by apply DriveFacts.title_literal_unescape.
Qed.

(** ** Writing the summary into the document *)

(** X24. The summary insertion of the pipeline never raises.  It reads
    the document and then inserts the summary text one position before
    the end index read off the body (at index 0 when the body has no
    usable element); it counts as done exactly when both requests went
    through, and then only the content of the document has changed: the
    identity, name and properties of every file are as before.  When
    the read raises no write is tried, and whenever the insertion does
    not count as done the store is unchanged. *)
Theorem append_summary_outcome (E : environment) (fileId doc_summary : string)
    (w : world) :
  exists b w',
    append_summary E fileId doc_summary w = (Ok b, w') /\
    processed_titles w' = processed_titles w /\
    if b then
      exists f,
        lookup_file fileId (drive_files w) = Some f /\
        let index := end_index_of (body_content f) - 1 in
        let text := summary_text doc_summary in
        trace w' = trace w ++ [Drive (DocsGet fileId) true;
                               Drive (DocsInsertText fileId index text) true] /\
        drive_files w'
          = update_file fileId (with_document (docs_insert E f index text))
                        (drive_files w) /\
        flags (drive_files w') = flags (drive_files w) /\
        (Forall (fun item => endIndex item = None \/ sectionBreak item = true)
                (body_content f) -> index = 0)
    else
      drive_files w' = drive_files w /\
      (trace w' = trace w ++ [Drive (DocsGet fileId) false] \/
       exists index text,
         trace w' = trace w ++ [Drive (DocsGet fileId) true;
                                Drive (DocsInsertText fileId index text) false]).
Proof.
  unfold append_summary, try_except. unfold bind at 1.
  destruct (DriveFacts.docs_get_cases E fileId w) as [(f & Hl & Hrun)|[e Hrun]];
    rewrite Hrun.
  - set (w1 := served w _ _). unfold bind at 1.
    destruct (DriveFacts.docs_insert_text_cases E fileId (end_index_of (body_content f) - 1)
                (summary_text doc_summary) w1) as [(f' & Hl' & Hins)|[e Hins]];
      rewrite Hins; unfold bind, ret.
    + change (drive_files w1) with (drive_files w) in Hl'.
      assert (f' = f) as -> by congruence.
      eexists true, _. split; [reflexivity|]. split; [done|].
      exists f. cbv zeta. split; [done|].
      split; [simpl; by rewrite <- app_assoc|]. split; [done|].
      split; [simpl; apply UnmappedFacts.flags_with_document|].
      intros Hnone. unfold end_index_of.
      rewrite HelperFacts.find_none_forall; [done|].
      apply Forall_rev. eapply Forall_impl; [exact Hnone|].
      intros item [-> | ->]; [done|]. by destruct (endIndex item).
    + eexists false, _. split; [reflexivity|]. split; [done|]. split; [done|].
      right. eexists _, _. simpl. by rewrite <- app_assoc.
  - eexists false, _. split; [reflexivity|]. split; [done|]. split; [done|]. by left.
Qed.
